(** * Snooker physics engine (physics.js): a shallow embedding

    The engine is a set of JavaScript functions over [BallState] objects.
    JavaScript numbers are modelled by the real numbers of the Standard
    Library: every arithmetic operation is the exact one, rounding is not
    modelled.  A property read through a getter that the object does not
    have is [undefined]; it is modelled by [None], and a comparison with it
    is false, as in JavaScript.

    The functions of the source mutate their arguments and return them; the
    embedding passes the state explicitly and returns the updated state.

    The game (main.js) drives the engine from its loop.  Its physical parts
    are embedded after the engine: the pair step of [handleBallCollisions]
    (not the double loop over the pairs), one ball's pass through
    [applyRollingFriction], [shoot] with its roll prediction, up to the
    point where it throws, the aim line ([findCushionInPath], [findBallInPathPrecise])
    and the pocket test of [checkPockets].  A rigid body of the external
    physics library is the record of what the game reads from it and writes
    to it. *)

From Stdlib Require Import Reals Lra Lia Psatz List Bool ZArith.
From Stdlib Require String.
Import ListNotations.
Open Scope R_scope.

(** ** Numbers and [Math] *)

Module JSMath.

Definition ltb (a b : R) : bool := if Rlt_dec a b then true else false.
Definition gtb (a b : R) : bool := if Rgt_dec a b then true else false.
Definition leb (a b : R) : bool := if Rle_dec a b then true else false.
Definition eqb (a b : R) : bool := if Req_dec_T a b then true else false.

(** Comparisons whose left operand may be [undefined]: JavaScript converts
    [undefined] to NaN and every comparison with NaN is false. *)
Definition ltbU (a : option R) (b : R) : bool :=
  match a with Some r => ltb r b | None => false end.
Definition gtbU (a : option R) (b : R) : bool :=
  match a with Some r => gtb r b | None => false end.

(** Math.sign *)
Definition sign (a : R) : R :=
  if Rlt_dec 0 a then 1 else if Rlt_dec a 0 then -1 else 0.

(** Math.atan2(y, x), for finite arguments (a zero is the positive zero) *)
Definition atan2 (y x : R) : R :=
  if Rlt_dec 0 x then atan (y / x)
  else if Rlt_dec x 0 then
    (if Rle_dec 0 y then atan (y / x) + PI else atan (y / x) - PI)
  else if Rlt_dec 0 y then PI / 2
  else if Rlt_dec y 0 then - (PI / 2)
  else 0.

(** Math.ceil: [up r] is the integer with r < up r <= r + 1, so the floor
    of r is [up r - 1] and the ceiling of a is minus the floor of -a *)
Definition ceil (a : R) : Z := (1 - up (- a))%Z.

(** Math.pow(a, b) for a positive base *)
Definition pow (a b : R) : R := Rpower a b.

End JSMath.
Import JSMath.

(** ** Vectors: the object literals [{x, y, z}] and [{x, z}] *)

Module Vec3.
Record t : Type := mk { x : R; y : R; z : R }.
Definition zero : t := mk 0 0 0.
(** assignments to the fields [x] and [z], [y] is left as it is *)
Definition set_xz (v : t) (x' z' : R) : t := mk x' (y v) z'.
Definition set_y (v : t) (y' : R) : t := mk (x v) y' (z v).
End Vec3.

Module Vec2.
Record t : Type := mk { x : R; z : R }.
End Vec2.

(** ** PHYSICS_CONFIG *)

Module Cfg.
Record World : Type := mkWorld {
  gravity : R;
  table_friction_slide : R;
  table_friction_roll : R;
  nap_drift_factor : R;
  nap_direction : Vec2.t
}.
Record Ball : Type := mkBall {
  mass : R;
  radius : R;
  restitution_ball_ball : R;
  restitution_ball_cushion : R;
  friction_ball_ball : R;
  friction_cushion : R
}.
Record Cushion : Type := mkCushion {
  height_ratio : R;
  compression_factor : R;
  restitution_perpendicular : R;
  restitution_glancing : R
}.
Record Thresholds : Type := mkThresholds {
  velocity_stop : R;
  angular_stop : R;
  slip_threshold : R
}.
Record Collision : Type := mkCollision {
  contact_duration : R;
  friction_accumulation : R
}.
Record t : Type := mk {
  world : World;
  ball : Ball;
  cushion : Cushion;
  thresholds : Thresholds;
  collision : Collision
}.
End Cfg.

(** The configuration object as the source ships it. *)
Definition PHYSICS_CONFIG : Cfg.t :=
  Cfg.mk
    (Cfg.mkWorld 9.81 0.025 0.002 0.0002 (Vec2.mk 0 (-1)))
    (Cfg.mkBall 0.142 0.02625 0.98 0.88 0.04 0.10)
    (Cfg.mkCushion 0.7 0.08 0.80 0.94)
    (Cfg.mkThresholds 0.002 0.03 0.008)
    (Cfg.mkCollision 0.0002 1.2).

(** I = (2/5) m R^2 *)
Definition MOMENT_OF_INERTIA (cfg : Cfg.t) : R :=
  (2 / 5) * Cfg.mass (Cfg.ball cfg) *
  Cfg.radius (Cfg.ball cfg) * Cfg.radius (Cfg.ball cfg).

(** ** BallState *)

Inductive Phase : Type := stationary | sliding | rolling.

(** An object is either an instance of the class [BallState], which has the
    getters [speed], [angularSpeed], [surfaceVelocity], [slipVelocity] and
    [slipSpeed] on its prototype, or a plain object with the same data
    fields and no getter (what [JSON.parse (JSON.stringify s)] builds:
    getters of a class are not own enumerable properties, so they are not
    serialised). *)
Inductive Proto : Type := BallStateProto | ObjectProto.

Record BallState : Type := mkBallState {
  proto : Proto;
  position : Vec3.t;
  velocity : Vec3.t;
  angularVelocity : Vec3.t;
  phase : Phase;
  phaseTime : R
}.

(** [new BallState()] *)
Definition newBallState : BallState :=
  mkBallState BallStateProto Vec3.zero Vec3.zero Vec3.zero stationary 0.

Definition set_position (s : BallState) (p : Vec3.t) : BallState :=
  mkBallState (proto s) p (velocity s) (angularVelocity s) (phase s) (phaseTime s).
Definition set_velocity (s : BallState) (v : Vec3.t) : BallState :=
  mkBallState (proto s) (position s) v (angularVelocity s) (phase s) (phaseTime s).
Definition set_angularVelocity (s : BallState) (w : Vec3.t) : BallState :=
  mkBallState (proto s) (position s) (velocity s) w (phase s) (phaseTime s).
Definition set_phase (s : BallState) (p : Phase) : BallState :=
  mkBallState (proto s) (position s) (velocity s) (angularVelocity s) p (phaseTime s).
Definition set_phaseTime (s : BallState) (t : R) : BallState :=
  mkBallState (proto s) (position s) (velocity s) (angularVelocity s) (phase s) t.

(** The rail names that [calculateCushionRebound] switches on; any other
    string takes no case of the switch. *)
Module Rail.
Inductive t : Type := left | right | top | bottom | other.
End Rail.

(** A parameter with a default value: [undefined] selects the default. *)
Definition orDefault (a : option R) (d : R) : R :=
  match a with Some r => r | None => d end.

(** The planar norm that the source writes out as
    [Math.sqrt(a * a + b * b)]. *)
Definition norm2 (a b : R) : R := sqrt (a * a + b * b).

Section Engine.

Variable cfg : Cfg.t.

(** *** The getters of the class, on an instance *)

Definition speed_of (s : BallState) : R :=
  norm2 (Vec3.x (velocity s)) (Vec3.z (velocity s)).

Definition angularSpeed_of (s : BallState) : R :=
  sqrt (Vec3.x (angularVelocity s) * Vec3.x (angularVelocity s) +
        Vec3.y (angularVelocity s) * Vec3.y (angularVelocity s) +
        Vec3.z (angularVelocity s) * Vec3.z (angularVelocity s)).

Definition surfaceVelocity_of (s : BallState) : Vec2.t :=
  let Rb := Cfg.radius (Cfg.ball cfg) in
  Vec2.mk (Vec3.z (angularVelocity s) * Rb)
          (- Vec3.x (angularVelocity s) * Rb).

Definition slipVelocity_of (s : BallState) : Vec2.t :=
  let surface := surfaceVelocity_of s in
  Vec2.mk (Vec3.x (velocity s) - Vec2.x surface)
          (Vec3.z (velocity s) - Vec2.z surface).

Definition slipSpeed_of (s : BallState) : R :=
  let slip := slipVelocity_of s in
  norm2 (Vec2.x slip) (Vec2.z slip).

(** *** Property reads [state.speed], ...: [undefined] on a plain object *)

Definition getter {A : Type} (f : BallState -> A) (s : BallState) : option A :=
  match proto s with
  | BallStateProto => Some (f s)
  | ObjectProto => None
  end.

Definition speed := getter speed_of.
Definition angularSpeed := getter angularSpeed_of.
Definition surfaceVelocity := getter surfaceVelocity_of.
Definition slipVelocity := getter slipVelocity_of.
Definition slipSpeed := getter slipSpeed_of.

(** isRolling() is a method of the class *)
Definition isRolling (s : BallState) : bool :=
  ltb (slipSpeed_of s) (Cfg.slip_threshold (Cfg.thresholds cfg)).

(** *** updateBallPhysics *)

(** The sliding branch (slipSpeed > slip_threshold). *)
Definition slidingStep (state : BallState) (slip : Vec2.t) (slipSpeed dt : R)
  : BallState :=
  let g := Cfg.gravity (Cfg.world cfg) in
  let Rb := Cfg.radius (Cfg.ball cfg) in
  let m := Cfg.mass (Cfg.ball cfg) in
  let I := MOMENT_OF_INERTIA cfg in
  let state := set_phase state sliding in
  let mu_s := Cfg.table_friction_slide (Cfg.world cfg) in
  let frictionAccel := mu_s * g in
  let slipDirX := Vec2.x slip / slipSpeed in
  let slipDirZ := Vec2.z slip / slipSpeed in
  let decelLinear := frictionAccel * dt in
  let state := set_velocity state
    (Vec3.set_xz (velocity state)
       (Vec3.x (velocity state) - slipDirX * decelLinear * 0.15)
       (Vec3.z (velocity state) - slipDirZ * decelLinear * 0.15)) in
  let angularAccel := (mu_s * m * g * Rb) / I in
  let angularChange := angularAccel * dt * 3 in
  let targetAngX := - Vec3.z (velocity state) / Rb in
  let targetAngZ := Vec3.x (velocity state) / Rb in
  let angDiffX := targetAngX - Vec3.x (angularVelocity state) in
  let angDiffZ := targetAngZ - Vec3.z (angularVelocity state) in
  let angDiffMag := norm2 angDiffX angDiffZ in
  if gtb angDiffMag 0.01 then
    let changeX := (angDiffX / angDiffMag) * angularChange in
    let changeZ := (angDiffZ / angDiffMag) * angularChange in
    set_angularVelocity state
      (Vec3.set_xz (angularVelocity state)
         (Vec3.x (angularVelocity state) + changeX)
         (Vec3.z (angularVelocity state) + changeZ))
  else state.

(** The rolling branch.  [state.speed] is read through the getter: on a
    plain object it is [undefined] and [speed > 0.001] is false. *)
Definition rollingStep (state : BallState) (dt : R) : BallState :=
  let g := Cfg.gravity (Cfg.world cfg) in
  let Rb := Cfg.radius (Cfg.ball cfg) in
  let state := set_phase state rolling in
  let mu_r := Cfg.table_friction_roll (Cfg.world cfg) in
  let rollingDecel := mu_r * g in
  match speed state with
  | Some speed =>
      if gtb speed 0.001 then
        let deltaV := rollingDecel * dt in
        let newSpeed := Rmax 0 (speed - deltaV) in
        let state :=
          if gtb speed 0.0001 then
            let scaleFactor := newSpeed / speed in
            set_velocity state
              (Vec3.set_xz (velocity state)
                 (Vec3.x (velocity state) * scaleFactor)
                 (Vec3.z (velocity state) * scaleFactor))
          else state in
        set_angularVelocity state
          (Vec3.set_xz (angularVelocity state)
             (- Vec3.z (velocity state) / Rb)
             (Vec3.x (velocity state) / Rb))
      else state
  | None => state
  end.

(** Side spin decay: [angularVelocity.y *= Math.pow(0.995, dt * 60)]. *)
Definition sideSpinStep (state : BallState) (dt : R) : BallState :=
  let sideSpinDecayRate := 0.995 in
  let sideSpinDecay := pow sideSpinDecayRate (dt * 60) in
  set_angularVelocity state
    (Vec3.set_y (angularVelocity state)
       (Vec3.y (angularVelocity state) * sideSpinDecay)).

(** Swerve.  [Math.pow(speedRatio - 1, 2)] is the square. *)
Definition swerveStep (state : BallState) (dt : R) : BallState :=
  if gtb (Rabs (Vec3.y (angularVelocity state))) 0.5
     && gtbU (speed state) 0.02 then
    match speed state with
    | Some speed =>
        let optimalSpeed := 1.5 in
        let speedRatio := speed / optimalSpeed in
        let sigma := 1.2 in
        let bellCurve := exp (- ((speedRatio - 1) ^ 2) / (sigma * sigma)) in
        let lowSpeedFactor := Rmin 1 (speed / 0.3) in
        let baseSwerveCoeff := 0.00035 in
        let effectiveSwerveCoeff := baseSwerveCoeff * bellCurve * lowSpeedFactor in
        let swerveForce := Vec3.y (angularVelocity state) * effectiveSwerveCoeff * dt in
        let perpX := - Vec3.z (velocity state) / speed in
        let perpZ := Vec3.x (velocity state) / speed in
        let speedDamping := 1 / (1 + speed * 0.3) in
        set_velocity state
          (Vec3.set_xz (velocity state)
             (Vec3.x (velocity state) + perpX * swerveForce * speed * speedDamping)
             (Vec3.z (velocity state) + perpZ * swerveForce * speed * speedDamping))
    | None => state
    end
  else state.

(** applyNapEffect.  On a plain object [state.speed] is [undefined]: both
    comparisons of the guard are false, the directions and [napDot] are
    NaN, and [napDot < -0.3] is false. *)
Definition applyNapEffect (state : BallState) (dt : R) : BallState :=
  let napFactor := Cfg.nap_drift_factor (Cfg.world cfg) in
  let napDir := Cfg.nap_direction (Cfg.world cfg) in
  if ltbU (speed state) 0.05 || gtbU (speed state) 0.5 then state
  else
    match speed state with
    | Some speed =>
        let velDirX := Vec3.x (velocity state) / speed in
        let velDirZ := Vec3.z (velocity state) / speed in
        let napDot := velDirX * Vec2.x napDir + velDirZ * Vec2.z napDir in
        if ltb napDot (-0.3) then
          let extraDecel :=
            napFactor * Rabs napDot * Cfg.gravity (Cfg.world cfg) * dt in
          set_velocity state
            (Vec3.set_xz (velocity state)
               (Vec3.x (velocity state) - velDirX * extraDecel)
               (Vec3.z (velocity state) - velDirZ * extraDecel))
        else state
    | None => state
    end.

(** [position += velocity * dt] on x and z, then [phaseTime += dt]. *)
Definition integrateStep (state : BallState) (dt : R) : BallState :=
  let state := set_position state
    (Vec3.set_xz (position state)
       (Vec3.x (position state) + Vec3.x (velocity state) * dt)
       (Vec3.z (position state) + Vec3.z (velocity state) * dt)) in
  set_phaseTime state (phaseTime state + dt).

Definition updateBallPhysics (state : BallState) (dt : R) : BallState :=
  if ltbU (speed state) (Cfg.velocity_stop (Cfg.thresholds cfg))
     && ltbU (angularSpeed state) (Cfg.angular_stop (Cfg.thresholds cfg))
  then
    let state := set_velocity state (Vec3.mk 0 0 0) in
    let state := set_angularVelocity state (Vec3.mk 0 0 0) in
    set_phase state stationary
  else
    let slip := slipVelocity state in
    let slipSpeed := slipSpeed state in
    let state :=
      match slipSpeed, slip with
      | Some slipSpeed, Some slip =>
          if gtb slipSpeed (Cfg.slip_threshold (Cfg.thresholds cfg))
          then slidingStep state slip slipSpeed dt
          else rollingStep state dt
      | _, _ => rollingStep state dt
      end in
    let state := sideSpinStep state dt in
    let state := swerveStep state dt in
    let state := applyNapEffect state dt in
    integrateStep state dt.

(** *** calculateBallCollision *)

(** The object the function returns: [{ ballA, ballB }] on the early
    returns, [{ ballA, ballB, throwAngle, contactDuration }] after an
    impulse exchange. *)
Record CollisionResult : Type := mkCollisionResult {
  ballA : BallState;
  ballB : BallState;
  throwAngle : option R;
  contactDuration : option R
}.

(** Penetration correction, the body of [if (dist < minDist)].  The source
    computes [halfPen = penetration / 2 + 0.0005] and never reads it. *)
Definition penetrationCorrection (ballA ballB : BallState)
    (dist nx nz : R) : BallState * BallState :=
  let Rb := Cfg.radius (Cfg.ball cfg) in
  let minDist := Rb * 2 in
  let penetration := minDist - dist in
  let halfPen := penetration / 2 + 0.0005 in
  let speedA := norm2 (Vec3.x (velocity ballA)) (Vec3.z (velocity ballA)) in
  let speedB := norm2 (Vec3.x (velocity ballB)) (Vec3.z (velocity ballB)) in
  let totalSpeed := speedA + speedB + 0.001 in
  let ratioA := speedB / totalSpeed in
  let ratioB := speedA / totalSpeed in
  (set_position ballA
     (Vec3.set_xz (position ballA)
        (Vec3.x (position ballA) - nx * penetration * ratioA)
        (Vec3.z (position ballA) - nz * penetration * ratioA)),
   set_position ballB
     (Vec3.set_xz (position ballB)
        (Vec3.x (position ballB) + nx * penetration * ratioB)
        (Vec3.z (position ballB) + nz * penetration * ratioB))).

(** The tangential (throw) impulse. *)
Definition frictionImpulseOf (normalImpulse dvn totalTangentVel : R) : R :=
  let m := Cfg.mass (Cfg.ball cfg) in
  let mu := Cfg.friction_ball_ball (Cfg.ball cfg) in
  let frictionAccum := Cfg.friction_accumulation (Cfg.collision cfg) in
  let maxFrictionImpulse := mu * normalImpulse * frictionAccum in
  if gtb (Rabs totalTangentVel) 0.01 then
    let desiredImpulse := m * totalTangentVel * 0.5 in
    let frictionImpulse :=
      sign totalTangentVel * Rmin maxFrictionImpulse (Rabs desiredImpulse) in
    let speedFactor := Rmin 1 (2 / (dvn + 0.5)) in
    frictionImpulse * (1 + (speedFactor - 1) * 0.3)
  else 0.

(** Everything after [if (dvn <= 0) return]: the impulses, the spin
    transfer, the phases and the diagnostic. *)
Definition impulseExchange (ballA ballB : BallState) (nx nz dvn dvt : R)
  : CollisionResult :=
  let m := Cfg.mass (Cfg.ball cfg) in
  let Rb := Cfg.radius (Cfg.ball cfg) in
  let e := Cfg.restitution_ball_ball (Cfg.ball cfg) in
  let I := MOMENT_OF_INERTIA cfg in
  let tx := - nz in
  let tz := nx in
  let normalImpulse := (1 + e) * m * dvn / 2 in
  let surfaceVelFromSpin := Vec3.y (angularVelocity ballA) * Rb in
  let totalTangentVel := dvt + surfaceVelFromSpin in
  let frictionImpulse := frictionImpulseOf normalImpulse dvn totalTangentVel in
  let ballA := set_velocity ballA
    (Vec3.set_xz (velocity ballA)
       (Vec3.x (velocity ballA) - (normalImpulse * nx + frictionImpulse * tx) / m)
       (Vec3.z (velocity ballA) - (normalImpulse * nz + frictionImpulse * tz) / m)) in
  let ballB := set_velocity ballB
    (Vec3.set_xz (velocity ballB)
       (Vec3.x (velocity ballB) + (normalImpulse * nx + frictionImpulse * tx) / m)
       (Vec3.z (velocity ballB) + (normalImpulse * nz + frictionImpulse * tz) / m)) in
  let angularChange := frictionImpulse * Rb / I in
  let ballA := set_angularVelocity ballA
    (Vec3.set_y (angularVelocity ballA)
       (Vec3.y (angularVelocity ballA) * 0.90 - angularChange * 0.20)) in
  let ballB := set_angularVelocity ballB
    (Vec3.set_y (angularVelocity ballB)
       (Vec3.y (angularVelocity ballB) + angularChange * 0.15)) in
  let speedB := norm2 (Vec3.x (velocity ballB)) (Vec3.z (velocity ballB)) in
  let ballB :=
    if gtb speedB 0.01 then
      set_phase
        (set_angularVelocity ballB
           (Vec3.set_xz (angularVelocity ballB)
              (- Vec3.z (velocity ballB) / Rb * 0.92)
              (Vec3.x (velocity ballB) / Rb * 0.92)))
        sliding
    else ballB in
  let ballA := set_angularVelocity ballA
    (Vec3.set_xz (angularVelocity ballA)
       (Vec3.x (angularVelocity ballA) * 0.95)
       (Vec3.z (angularVelocity ballA) * 0.95)) in
  let ballA := set_phase ballA sliding in
  let ballA := set_phaseTime ballA 0 in
  let ballB := set_phaseTime ballB 0 in
  let throwAngle := atan2 (Rabs frictionImpulse) normalImpulse * 180 / PI in
  mkCollisionResult ballA ballB (Some throwAngle)
    (Some (Cfg.contact_duration (Cfg.collision cfg))).

(** The two balls are distinct objects with their own [position],
    [velocity] and [angularVelocity] objects, as the constructor and the
    callers build them; with [ballA === ballB] the distance is 0 and the
    first guard returns. *)
Definition calculateBallCollision (ballA ballB : BallState) : CollisionResult :=
  let Rb := Cfg.radius (Cfg.ball cfg) in
  let dx := Vec3.x (position ballB) - Vec3.x (position ballA) in
  let dz := Vec3.z (position ballB) - Vec3.z (position ballA) in
  let dist := norm2 dx dz in
  if ltb dist 0.0001 || gtb dist (Rb * 2.5) then
    mkCollisionResult ballA ballB None None
  else
    let nx := dx / dist in
    let nz := dz / dist in
    let minDist := Rb * 2 in
    let '(ballA, ballB) :=
      if ltb dist minDist then penetrationCorrection ballA ballB dist nx nz
      else (ballA, ballB) in
    (* dx, dz and dist are recomputed here and not read afterwards *)
    let tx := - nz in
    let tz := nx in
    let dvx := Vec3.x (velocity ballA) - Vec3.x (velocity ballB) in
    let dvz := Vec3.z (velocity ballA) - Vec3.z (velocity ballB) in
    let dvn := dvx * nx + dvz * nz in
    if leb dvn 0 then mkCollisionResult ballA ballB None None
    else
      let dvt := dvx * tx + dvz * tz in
      impulseExchange ballA ballB nx nz dvn dvt.

(** *** calculateCushionRebound *)

(** The effective coefficient of restitution, from the incidence angle in
    degrees and the impact speed: the four-branch conditional, the
    compression loss and the clamp. *)
Definition effectiveCorOf (angleDeg impactSpeed : R) : R :=
  let compression := Cfg.compression_factor (Cfg.cushion cfg) in
  let corPerpendicular := Cfg.restitution_perpendicular (Cfg.cushion cfg) in
  let corGlancing := Cfg.restitution_glancing (Cfg.cushion cfg) in
  let effectiveCor :=
    if ltb angleDeg 8 then
      let shallowFactor := angleDeg / 8 in
      let smoothFactor := 0.5 - 0.5 * cos (shallowFactor * PI) in
      0.60 + smoothFactor * (corPerpendicular - 0.60)
    else if ltb angleDeg 30 then
      let midFactor := (angleDeg - 8) / 22 in
      corPerpendicular + midFactor * (0.88 - corPerpendicular)
    else if ltb angleDeg 60 then
      let wideFactor := (angleDeg - 30) / 30 in
      0.88 + wideFactor * (corGlancing - 0.88)
    else corGlancing in
  let speedFactor := Rmin 1 (impactSpeed / 6) in
  let compressionLoss := compression * speedFactor * 0.3 in
  let effectiveCor := effectiveCor * (1 - compressionLoss) in
  Rmax 0.65 (Rmin 0.96 effectiveCor).

Definition tangentRetentionOf (angleDeg : R) : R :=
  if ltb angleDeg 8 then 0.88 + (angleDeg / 8) * 0.08 else 0.97.

Definition railNormal (cushion : Rail.t) : R * R :=
  match cushion with
  | Rail.left => (1, 0)
  | Rail.right => (-1, 0)
  | Rail.top => (0, 1)
  | Rail.bottom => (0, -1)
  | Rail.other => (0, 0)
  end.

Definition incidenceAngleDeg (velNormal velTangent : R) : R :=
  let incidenceAngle := atan2 (Rabs velTangent) (Rabs velNormal) in
  incidenceAngle * 180 / PI.

Definition calculateCushionRebound (ball : BallState) (cushion : Rail.t)
    (impactSpeed : R) : BallState :=
  let Rb := Cfg.radius (Cfg.ball cfg) in
  let heightRatio := Cfg.height_ratio (Cfg.cushion cfg) in
  let '(normalX, normalZ) := railNormal cushion in
  let tangentX := - normalZ in
  let tangentZ := normalX in
  let velNormal :=
    Vec3.x (velocity ball) * normalX + Vec3.z (velocity ball) * normalZ in
  let velTangent :=
    Vec3.x (velocity ball) * tangentX + Vec3.z (velocity ball) * tangentZ in
  let angleDeg := incidenceAngleDeg velNormal velTangent in
  let effectiveCor := effectiveCorOf angleDeg impactSpeed in
  let sideSpin := Vec3.y (angularVelocity ball) in
  let spinInfluence := sideSpin * Rb * 0.15 in
  let topBackSpin :=
    Vec3.x (angularVelocity ball) * tangentZ
    - Vec3.z (angularVelocity ball) * tangentX in
  let gripFactor := 1 + topBackSpin * Rb * heightRatio * 0.012 in
  let newVelNormal := - velNormal * effectiveCor in
  let tangentRetention := tangentRetentionOf angleDeg in
  let newVelTangent := velTangent * tangentRetention * gripFactor + spinInfluence in
  let ball := set_velocity ball
    (Vec3.set_xz (velocity ball)
       (newVelNormal * normalX + newVelTangent * tangentX)
       (newVelNormal * normalZ + newVelTangent * tangentZ)) in
  let ball := set_angularVelocity ball
    (Vec3.mk (Vec3.x (angularVelocity ball) * 0.95)
             (Vec3.y (angularVelocity ball) * 0.80)
             (Vec3.z (angularVelocity ball) * 0.95)) in
  let ball := set_phase ball sliding in
  set_phaseTime ball 0.

(** *** applyShot; [maxSpeed] defaults to 8 *)

Definition applyShot (ball : BallState) (power angle spinX spinY : R)
    (maxSpeed : option R) : BallState :=
  let maxSpeed := orDefault maxSpeed 8 in
  let Rb := Cfg.radius (Cfg.ball cfg) in
  let speed := power * maxSpeed in
  let dirX := sin angle in
  let dirZ := cos angle in
  let ball := set_velocity ball
    (Vec3.set_xz (velocity ball) (dirX * speed) (dirZ * speed)) in
  let naturalOmega := speed / Rb in
  let rotAxisX := - dirZ in
  let rotAxisZ := dirX in
  let spinMagnitude := spinY * naturalOmega * 2.5 in
  let centerBallBoost := if eqb spinY 0 then naturalOmega * 0.4 else 0 in
  let ball := set_angularVelocity ball
    (Vec3.mk (rotAxisX * (spinMagnitude + centerBallBoost))
             (spinX * speed * 8)
             (rotAxisZ * (spinMagnitude + centerBallBoost))) in
  let ball := set_phase ball sliding in
  set_phaseTime ball 0.

(** *** predictTrajectory; [duration] defaults to 2 and [dt] to 0.01 *)

Record Sample : Type := mkSample {
  sample_x : R;
  sample_z : R;
  sample_phase : Phase
}.

(** [JSON.parse(JSON.stringify(initialState))]: the data fields are copied
    into a plain object, which has none of the getters of the class. *)
Definition jsonCopy (s : BallState) : BallState :=
  mkBallState ObjectProto (position s) (velocity s) (angularVelocity s)
    (phase s) (phaseTime s).

(** The [for] loop with [n] iterations left. *)
Fixpoint predictLoop (n : nat) (state : BallState) (dt : R) : list Sample :=
  match n with
  | O => []
  | S n' =>
      let point :=
        mkSample (Vec3.x (position state)) (Vec3.z (position state))
          (phase state) in
      let state := updateBallPhysics state dt in
      if ltbU (speed state) (Cfg.velocity_stop (Cfg.thresholds cfg))
      then [point]
      else point :: predictLoop n' state dt
  end.

Definition predictTrajectory (initialState : BallState)
    (duration dt : option R) : list Sample :=
  let duration := orDefault duration 2 in
  let dt := orDefault dt 0.01 in
  let state := jsonCopy initialState in
  let steps := ceil (duration / dt) in
  predictLoop (Z.to_nat steps) state dt.

End Engine.

(** ** The locals of [calculateBallCollision] *)

Section CollisionLocals.

Variable cfg : Cfg.t.
Variables a b : BallState.

(** The locals of [calculateBallCollision] as functions of its inputs. *)
Definition centreDistance : R :=
  norm2 (Vec3.x (position b) - Vec3.x (position a))
        (Vec3.z (position b) - Vec3.z (position a)).

Definition normalX : R :=
  (Vec3.x (position b) - Vec3.x (position a)) / centreDistance.
Definition normalZ : R :=
  (Vec3.z (position b) - Vec3.z (position a)) / centreDistance.

(** [dvn]: the closing velocity along the line of centres *)
Definition closingVelocity : R :=
  (Vec3.x (velocity a) - Vec3.x (velocity b)) * normalX
  + (Vec3.z (velocity a) - Vec3.z (velocity b)) * normalZ.

Definition tangentialVelocity : R :=
  (Vec3.x (velocity a) - Vec3.x (velocity b)) * (- normalZ)
  + (Vec3.z (velocity a) - Vec3.z (velocity b)) * normalX.

(** The distance is in the gating range. *)
Definition inRange : Prop :=
  0.0001 <= centreDistance <= Cfg.radius (Cfg.ball cfg) * 2.5.

(** The call goes through to the impulse exchange. *)
Definition exchanges : Prop := inRange /\ 0 < closingVelocity.

(** The balls as the penetration correction leaves them. *)
Definition corrected : BallState * BallState :=
  if ltb centreDistance (Cfg.radius (Cfg.ball cfg) * 2)
  then penetrationCorrection cfg a b centreDistance normalX normalZ
  else (a, b).

End CollisionLocals.

(** ** Concrete balls *)

(** A ball instance at (px, pz) with planar velocity (vx, vz), no spin,
    phase [stationary] and phaseTime 0. *)
Definition ballAt (px pz vx vz : R) : BallState :=
  mkBallState BallStateProto (Vec3.mk px 0 pz) (Vec3.mk vx 0 vz)
    Vec3.zero stationary 0.

(** The head-on pair of the spec: A at the origin moving along z at 2 m/s,
    B at rest at distance 2R. *)
Definition headOnA : BallState := ballAt 0 0 0 2.
Definition headOnB : BallState := ballAt 0 0.0525 0 0.

(** An overlapping pair that is separating: A moves away from B at 1 m/s,
    the centres are 0.05 apart (2R = 0.0525). *)
Definition separatingA : BallState := ballAt 0 0 0 (-1).
Definition separatingB : BallState := ballAt 0 0.05 0 0.

(** A colliding pair that overlaps: A closes on B at 1 m/s, the centres
    are 0.05 apart (2R = 0.0525). *)
Definition overlapA : BallState := ballAt 0 0 0 1.
Definition overlapB : BallState := ballAt 0 0.05 0 0.

(** A gentle head-on contact: A closes at 0.005 m/s on B at rest, the
    centres are 2R apart. *)
Definition gentleA : BallState := ballAt 0 0 0 0.005.
Definition gentleB : BallState := ballAt 0 0.0525 0 0.

(** The test that opens [updateBallPhysics]. *)
Definition stopCondition (cfg : Cfg.t) (s : BallState) : bool :=
  ltbU (speed s) (Cfg.velocity_stop (Cfg.thresholds cfg))
  && ltbU (angularSpeed s) (Cfg.angular_stop (Cfg.thresholds cfg)).

(** A ball with no planar velocity and no spin whose vertical velocity is
    0.5 m/s. *)
Definition liftedBall : BallState :=
  mkBallState BallStateProto Vec3.zero (Vec3.mk 0 0.5 0) Vec3.zero stationary 0.

(** ** Repeated integration and pure rolling *)

(** [n] successive calls of [updateBallPhysics] with the same time step. *)
Fixpoint advance (cfg : Cfg.t) (n : nat) (s : BallState) (dt : R) : BallState :=
  match n with
  | O => s
  | S n' => advance cfg n' (updateBallPhysics cfg s dt) dt
  end.

(** The no-slip condition: (wx, wz) = (-vz / R, vx / R). *)
Definition pureRolling (cfg : Cfg.t) (s : BallState) : Prop :=
  Vec3.x (angularVelocity s) = - Vec3.z (velocity s) / Cfg.radius (Cfg.ball cfg)
  /\ Vec3.z (angularVelocity s) = Vec3.x (velocity s) / Cfg.radius (Cfg.ball cfg).

(** The speed that the rolling branch takes off in one step. *)
Definition rollingDelta (cfg : Cfg.t) (dt : R) : R :=
  Cfg.table_friction_roll (Cfg.world cfg) * Cfg.gravity (Cfg.world cfg) * dt.

(** The state of a rolling ball without side spin after the rolling branch,
    the side-spin decay and the swerve test, before the nap effect. *)
Definition rolled (cfg : Cfg.t) (s : BallState) (dt : R) : BallState :=
  let k := Rmax 0 (speed_of s - rollingDelta cfg dt) / speed_of s in
  let Rb := Cfg.radius (Cfg.ball cfg) in
  mkBallState (proto s) (position s)
    (Vec3.mk (Vec3.x (velocity s) * k) (Vec3.y (velocity s))
             (Vec3.z (velocity s) * k))
    (Vec3.mk (- (Vec3.z (velocity s) * k) / Rb) 0
             (Vec3.x (velocity s) * k / Rb))
    rolling (phaseTime s).

(** A ball in pure rolling against the nap: 0.3 m/s along +z, the nap
    direction being (0, -1). *)
Definition napSlowBall : BallState :=
  mkBallState BallStateProto Vec3.zero (Vec3.mk 0 0 0.3)
    (Vec3.mk (- 0.3 / 0.02625) 0 (0 / 0.02625)) rolling 0.

(** What the repeated steps of a rolling ball keep: the object is an
    instance, it rolls without slipping, it has no side spin, and its
    direction does not oppose the nap beyond the threshold of
    [applyNapEffect] (napDot = - vz / speed >= -0.3 for the shipped nap
    direction (0, -1)). *)
Definition rollsFreely (s : BallState) : Prop :=
  proto s = BallStateProto
  /\ pureRolling PHYSICS_CONFIG s
  /\ Vec3.y (angularVelocity s) = 0
  /\ Vec3.z (velocity s) <= 0.3 * speed_of s.

(** The premise of the rolling decay: an instance of the class that rolls
    without slipping and has no side spin. *)
Definition rollsPurely (s : BallState) : Prop :=
  proto s = BallStateProto
  /\ pureRolling PHYSICS_CONFIG s
  /\ Vec3.y (angularVelocity s) = 0.

(** [applyNapEffect] does nothing in step number [k] (counted from 0) of a
    ball that starts as [s] and loses [rollingDelta] per step: the speed
    after the rolling deceleration of that step is below 0.05 or above 0.5
    (the function returns at once), or the direction, which the steps
    keep, does not oppose the nap beyond the threshold
    (napDot = - vz / speed >= -0.3 for the shipped nap direction
    (0, -1)). *)
Definition napIdleAt (s : BallState) (k : nat) : Prop :=
  Vec3.z (velocity s) <= 0.3 * speed_of s
  \/ speed_of s - INR (S k) * rollingDelta PHYSICS_CONFIG (1 / 120) < 0.05
  \/ 0.5 < speed_of s - INR (S k) * rollingDelta PHYSICS_CONFIG (1 / 120).

(** A ball in pure rolling against the nap, below the band of speeds in
    which the nap acts: 0.04 m/s along +z. *)
Definition napCreepBall : BallState :=
  mkBallState BallStateProto Vec3.zero (Vec3.mk 0 0 0.04)
    (Vec3.mk (- 0.04 / 0.02625) 0 (0 / 0.02625)) rolling 0.

(** A ball in pure rolling with the nap: 1 m/s along -z. *)
Definition withNapBall : BallState :=
  mkBallState BallStateProto Vec3.zero (Vec3.mk 0 0 (-1))
    (Vec3.mk (1 / 0.02625) 0 0) rolling 0.

(** ** Energies, as [getBallDiagnostics] computes them (before the
    formatting with [toFixed]) *)




(** A ball that strikes the left rail at a glancing angle with side spin:
    velocity (-0.1, 1) and 40 rad/s about the vertical axis. *)
Definition spinningBall : BallState :=
  mkBallState BallStateProto Vec3.zero (Vec3.mk (-0.1) 0 1)
    (Vec3.mk 0 40 0) rolling 0.


(** ** Observables used by the further properties *)

(** The component of a planar velocity along the inward normal of a rail
    ([velNormal] in [calculateCushionRebound]). *)
Definition normalComponent (v : Vec3.t) (cushion : Rail.t) : R :=
  Vec3.x v * fst (railNormal cushion) + Vec3.z v * snd (railNormal cushion).

(** ** The locals of [calculateCushionRebound] *)










(** ** getSpinDescription *)

Module Diagnostics.
Import String.
Import JSMath.

(** The labels are pushed on [parts] and joined with [' + ']; an empty
    [parts] gives ['Natural roll'].  [state.speed] is read through the
    getter. *)
Definition getSpinDescription (cfg : Cfg.t) (state : BallState) : string :=
  let parts : list string := [] in
  let threshold := 1 in
  let parts :=
    match speed state with
    | Some speed =>
        if gtb speed 0.01 then
          let dirX := Vec3.x (velocity state) / speed in
          let dirZ := Vec3.z (velocity state) / speed in
          let topBack :=
            Vec3.x (angularVelocity state) * (- dirZ)
            + Vec3.z (angularVelocity state) * dirX in
          let naturalRoll := speed / Cfg.radius (Cfg.ball cfg) in
          let spinDiff := topBack - naturalRoll in
          if gtb (Rabs spinDiff) threshold then
            (parts ++ [if gtb spinDiff 0 then "Top spin"%string
                       else "Back spin"%string])%list
          else parts
        else parts
    | None => parts
    end in
  let parts :=
    if gtb (Rabs (Vec3.y (angularVelocity state))) threshold then
      (parts ++ [if gtb (Vec3.y (angularVelocity state)) 0
                 then "Left side"%string else "Right side"%string])%list
    else parts in
  if (0 <? List.length parts)%nat then concat " + "%string parts
  else "Natural roll"%string.

End Diagnostics.

(** ** main.js: the pair step of [handleBallCollisions] *)

(** A rigid body of the external engine, as the game reads it
    ([translation()], [linvel()], [angvel()]) and writes it
    ([setTranslation], [setLinvel], [setAngvel]). *)
Record Body : Type := mkBody {
  translation : Vec3.t;
  linvel : Vec3.t;
  angvel : Vec3.t
}.

(** The bodies and the entries of [ballStates] after the step; an entry
    that does not exist yet is [None]. *)
Record PairOutcome : Type := mkPairOutcome {
  pairBodyA : Body;
  pairBodyB : Body;
  pairStateA : option BallState;
  pairStateB : option BallState
}.

(** [this.ballStates[i]] after [if (!this.ballStates[i]) ... = new
    BallState()] and the three assignments that synchronise it with the
    body. *)
Definition syncState (entry : option BallState) (body : Body) : BallState :=
  let state := match entry with Some s => s | None => newBallState end in
  let state := set_position state
    (Vec3.mk (Vec3.x (translation body)) (Vec3.y (translation body))
             (Vec3.z (translation body))) in
  let state := set_velocity state
    (Vec3.mk (Vec3.x (linvel body)) (Vec3.y (linvel body))
             (Vec3.z (linvel body))) in
  set_angularVelocity state
    (Vec3.mk (Vec3.x (angvel body)) (Vec3.y (angvel body))
             (Vec3.z (angvel body))).

(** The body of the two nested loops for one pair of balls that are on the
    table (the log of the collision is left out). *)
Definition collidePair (cfg : Cfg.t) (bodyA bodyB : Body)
    (entryA entryB : option BallState) : PairOutcome :=
  let Rb := Cfg.radius (Cfg.ball cfg) in
  let minDist := Rb * 2 in
  let posA := translation bodyA in
  let posB := translation bodyB in
  let dx := Vec3.x posB - Vec3.x posA in
  let dz := Vec3.z posB - Vec3.z posA in
  let dist := norm2 dx dz in
  if ltb dist minDist && gtb dist 0.0001 then
    let velA := linvel bodyA in
    let velB := linvel bodyB in
    let dvx := Vec3.x velA - Vec3.x velB in
    let dvz := Vec3.z velA - Vec3.z velB in
    let nx := dx / dist in
    let nz := dz / dist in
    let dvn := dvx * nx + dvz * nz in
    let '(bodyA, bodyB, entryA, entryB) :=
      if gtb dvn 0.001 then
        let stateA := syncState entryA bodyA in
        let stateB := syncState entryB bodyB in
        let result := calculateBallCollision cfg stateA stateB in
        let stateA := ballA result in
        let stateB := ballB result in
        (mkBody (translation bodyA)
           (Vec3.mk (Vec3.x (velocity stateA)) 0 (Vec3.z (velocity stateA)))
           (Vec3.mk (Vec3.x (angularVelocity stateA))
                    (Vec3.y (angularVelocity stateA))
                    (Vec3.z (angularVelocity stateA))),
         mkBody (translation bodyB)
           (Vec3.mk (Vec3.x (velocity stateB)) 0 (Vec3.z (velocity stateB)))
           (Vec3.mk (Vec3.x (angularVelocity stateB))
                    (Vec3.y (angularVelocity stateB))
                    (Vec3.z (angularVelocity stateB))),
         Some stateA, Some stateB)
      else (bodyA, bodyB, entryA, entryB) in
    let overlap := (minDist - dist) / 2 + 0.001 in
    let bodyA := mkBody
      (Vec3.mk (Vec3.x posA - nx * overlap) (Vec3.y posA)
               (Vec3.z posA - nz * overlap))
      (linvel bodyA) (angvel bodyA) in
    let bodyB := mkBody
      (Vec3.mk (Vec3.x posB + nx * overlap) (Vec3.y posB)
               (Vec3.z posB + nz * overlap))
      (linvel bodyB) (angvel bodyB) in
    mkPairOutcome bodyA bodyB entryA entryB
  else mkPairOutcome bodyA bodyB entryA entryB.

(** The distance between the centres of two bodies in the table plane. *)
Definition bodyDistance (bodyA bodyB : Body) : R :=
  norm2 (Vec3.x (translation bodyB) - Vec3.x (translation bodyA))
        (Vec3.z (translation bodyB) - Vec3.z (translation bodyA)).

(** [dvn] of the pair step: the closing velocity of two bodies. *)
Definition bodyClosingVelocity (bodyA bodyB : Body) : R :=
  (Vec3.x (linvel bodyA) - Vec3.x (linvel bodyB))
  * ((Vec3.x (translation bodyB) - Vec3.x (translation bodyA))
     / bodyDistance bodyA bodyB)
  + (Vec3.z (linvel bodyA) - Vec3.z (linvel bodyB))
    * ((Vec3.z (translation bodyB) - Vec3.z (translation bodyA))
       / bodyDistance bodyA bodyB).

(** Two overlapping bodies 0.05 apart, A closing on B at 1 m/s. *)
Definition overlapBodyA : Body :=
  mkBody (Vec3.mk 0 0.88625 0) (Vec3.mk 0 0 1) (Vec3.mk 0 0 0).
Definition overlapBodyB : Body :=
  mkBody (Vec3.mk 0 0.88625 0.05) (Vec3.mk 0 0 0) (Vec3.mk 0 0 0).

(** ** main.js: the table and one ball's pass through [applyRollingFriction] *)

Definition CUSHION_RAIL_WIDTH : R := 0.05.
Definition TABLE_LENGTH : R := 3.569 - CUSHION_RAIL_WIDTH * 2.
Definition TABLE_WIDTH : R := 1.778 - CUSHION_RAIL_WIDTH * 2.
Definition TABLE_SURFACE_Y : R := 0.86.
Definition TABLE_CENTER_X : R := 0.1.
Definition TABLE_CENTER_Z : R := -1.88.

(** [PhysicsConstants.BALL_RADIUS] and [PhysicsConstants.BALL_MASS] *)
Definition BALL_RADIUS (cfg : Cfg.t) : R := Cfg.radius (Cfg.ball cfg).
Definition BALL_MASS (cfg : Cfg.t) : R := Cfg.mass (Cfg.ball cfg).

(** An entry of [this.pockets]. *)
Record Pocket : Type := mkPocket {
  pocket_x : R;
  pocket_z : R;
  pocket_radius : R
}.

(** The loop that sets [nearPocket]; [this.pockets] may be unset. *)
Definition nearPocketOf (pockets : option (list Pocket)) (pos : Vec3.t) : bool :=
  match pockets with
  | Some pockets =>
      existsb (fun pocket =>
                 let dx := Vec3.x pos - pocket_x pocket in
                 let dz := Vec3.z pos - pocket_z pocket in
                 let dist := norm2 dx dz in
                 ltb dist (pocket_radius pocket * 2.5)) pockets
  | None => false
  end.

(** The rectangle of the cushion tests. *)
Definition cushionOffset (cfg : Cfg.t) : R := BALL_RADIUS cfg + 0.002.
Definition minX (cfg : Cfg.t) : R :=
  TABLE_CENTER_X - TABLE_WIDTH / 2 + cushionOffset cfg.
Definition maxX (cfg : Cfg.t) : R :=
  TABLE_CENTER_X + TABLE_WIDTH / 2 - cushionOffset cfg.
Definition minZ (cfg : Cfg.t) : R :=
  TABLE_CENTER_Z - TABLE_LENGTH / 2 + cushionOffset cfg.
Definition maxZ (cfg : Cfg.t) : R :=
  TABLE_CENTER_Z + TABLE_LENGTH / 2 - cushionOffset cfg.

(** [minNormalVelocity] *)
Definition minNormalVelocity : R := 0.05.

(** The variables that the four rail tests read and assign: [state],
    the local [pos] (the object that [body.translation()] returned) and
    [bounced]. *)
Definition RailVars : Type := (BallState * Vec3.t * bool)%type.

Definition railState (v : RailVars) : BallState := fst (fst v).
Definition railPos (v : RailVars) : Vec3.t := snd (fst v).
Definition railBounced (v : RailVars) : bool := snd v.

(** [if (pos.x < minX && state.velocity.x < -minNormalVelocity) { ... }
     else if (pos.x < minX) { ... }] *)
Definition leftRail (cfg : Cfg.t) (impactSpeed : R) (v : RailVars) : RailVars :=
  let '(state, pos, bounced) := v in
  if ltb (Vec3.x pos) (minX cfg)
     && ltb (Vec3.x (velocity state)) (- minNormalVelocity)
  then (calculateCushionRebound cfg state Rail.left impactSpeed,
        Vec3.mk (minX cfg + 0.005) (Vec3.y pos) (Vec3.z pos), true)
  else if ltb (Vec3.x pos) (minX cfg)
  then (state, Vec3.mk (minX cfg + 0.002) (Vec3.y pos) (Vec3.z pos), bounced)
  else (state, pos, bounced).

Definition rightRail (cfg : Cfg.t) (impactSpeed : R) (v : RailVars) : RailVars :=
  let '(state, pos, bounced) := v in
  if gtb (Vec3.x pos) (maxX cfg)
     && gtb (Vec3.x (velocity state)) minNormalVelocity
  then (calculateCushionRebound cfg state Rail.right impactSpeed,
        Vec3.mk (maxX cfg - 0.005) (Vec3.y pos) (Vec3.z pos), true)
  else if gtb (Vec3.x pos) (maxX cfg)
  then (state, Vec3.mk (maxX cfg - 0.002) (Vec3.y pos) (Vec3.z pos), bounced)
  else (state, pos, bounced).

Definition topRail (cfg : Cfg.t) (impactSpeed : R) (v : RailVars) : RailVars :=
  let '(state, pos, bounced) := v in
  if ltb (Vec3.z pos) (minZ cfg)
     && ltb (Vec3.z (velocity state)) (- minNormalVelocity)
  then (calculateCushionRebound cfg state Rail.top impactSpeed,
        Vec3.mk (Vec3.x pos) (Vec3.y pos) (minZ cfg + 0.005), true)
  else if ltb (Vec3.z pos) (minZ cfg)
  then (state, Vec3.mk (Vec3.x pos) (Vec3.y pos) (minZ cfg + 0.002), bounced)
  else (state, pos, bounced).

Definition bottomRail (cfg : Cfg.t) (impactSpeed : R) (v : RailVars) : RailVars :=
  let '(state, pos, bounced) := v in
  if gtb (Vec3.z pos) (maxZ cfg)
     && gtb (Vec3.z (velocity state)) minNormalVelocity
  then (calculateCushionRebound cfg state Rail.bottom impactSpeed,
        Vec3.mk (Vec3.x pos) (Vec3.y pos) (maxZ cfg - 0.005), true)
  else if gtb (Vec3.z pos) (maxZ cfg)
  then (state, Vec3.mk (Vec3.x pos) (Vec3.y pos) (maxZ cfg - 0.002), bounced)
  else (state, pos, bounced).

(** [body.setLinvel({x: state.velocity.x, y: 0, z: state.velocity.z})] and
    [body.setAngvel({x: ..., y: ..., z: ...})] from the state. *)
Definition setVelocitiesFrom (body : Body) (state : BallState) : Body :=
  mkBody (translation body)
    (Vec3.mk (Vec3.x (velocity state)) 0 (Vec3.z (velocity state)))
    (Vec3.mk (Vec3.x (angularVelocity state)) (Vec3.y (angularVelocity state))
             (Vec3.z (angularVelocity state))).

(** The block [if (!nearPocket && state.speed > 0.01) { ... }] (without the
    log).  [state.speed] is read through the getter: on a plain object the
    comparison is false.  The assignments to [pos] reach the body only
    through [setTranslation] under [if (bounced)]. *)
Definition cushionBlock (cfg : Cfg.t) (nearPocket : bool) (body : Body)
    (state : BallState) (pos : Vec3.t) : Body * BallState :=
  match speed state with
  | Some impactSpeed =>
      if negb nearPocket && gtb impactSpeed 0.01 then
        let bounced := false in
        let currentY := Rmax (TABLE_SURFACE_Y + BALL_RADIUS cfg) (Vec3.y pos) in
        let '(state, pos, bounced) :=
          bottomRail cfg impactSpeed
            (topRail cfg impactSpeed
               (rightRail cfg impactSpeed
                  (leftRail cfg impactSpeed (state, pos, bounced)))) in
        if bounced then
          let body :=
            mkBody (Vec3.mk (Vec3.x pos) currentY (Vec3.z pos))
                   (linvel body) (angvel body) in
          let body := setVelocitiesFrom body state in
          (body,
           set_position state
             (Vec3.set_xz (position state) (Vec3.x pos) (Vec3.z pos)))
        else (body, state)
      else (body, state)
  | None => (body, state)
  end.

(** [inBounds] *)
Definition inBounds (pos : Vec3.t) : bool :=
  let boundsMargin := 0.6 in
  let halfWidth := TABLE_WIDTH / 2 + boundsMargin in
  let halfLength := TABLE_LENGTH / 2 + boundsMargin in
  ltb (Rabs (Vec3.x pos - TABLE_CENTER_X)) halfWidth
  && ltb (Rabs (Vec3.z pos - TABLE_CENTER_Z)) halfLength.

(** The body of the loop of [applyRollingFriction] for one ball that is on
    the table: the body and the entry of [ballStates] after it.
    [deltaTime] defaults to 1/60. *)
Definition applyRollingFrictionBall (cfg : Cfg.t)
    (pockets : option (list Pocket)) (deltaTime : option R)
    (body : Body) (entry : option BallState) : Body * BallState :=
  let deltaTime := orDefault deltaTime (1 / 60) in
  let thresholds := Cfg.thresholds cfg in
  let pos := translation body in
  let state :=
    match entry with
    | Some state => state
    | None =>
        let state := newBallState in
        let state := set_position state
          (Vec3.mk (Vec3.x pos) (Vec3.y pos) (Vec3.z pos)) in
        let state := set_velocity state (Vec3.mk 0 0 0) in
        let state := set_angularVelocity state (Vec3.mk 0 0 0) in
        set_phase state stationary
    end in
  let state := set_position state
    (Vec3.mk (Vec3.x pos) (Vec3.y pos) (Vec3.z pos)) in
  let currentSpeed := speed state in
  if ltbU currentSpeed (Cfg.velocity_stop thresholds)
     && ltbU (angularSpeed state) (Cfg.angular_stop thresholds)
  then
    let state := set_velocity state (Vec3.mk 0 0 0) in
    let state := set_angularVelocity state (Vec3.mk 0 0 0) in
    let state := set_phase state stationary in
    (mkBody (translation body) (Vec3.mk 0 0 0) (Vec3.mk 0 0 0), state)
  else if negb (inBounds pos) then (body, state)
  else
    let correctY := TABLE_SURFACE_Y + BALL_RADIUS cfg in
    let body :=
      if ltb (Vec3.y pos) (correctY - 0.001) then
        mkBody (Vec3.mk (Vec3.x pos) correctY (Vec3.z pos))
          (Vec3.mk (Vec3.x (velocity state)) 0 (Vec3.z (velocity state)))
          (angvel body)
      else if gtb (Vec3.y pos) (correctY + 0.02) then
        let newY := Vec3.y pos - 0.005 in
        mkBody (Vec3.mk (Vec3.x pos) (Rmax correctY newY) (Vec3.z pos))
          (linvel body) (angvel body)
      else body in
    let state := updateBallPhysics cfg state deltaTime in
    let body := setVelocitiesFrom body state in
    let nearPocket := nearPocketOf pockets pos in
    cushionBlock cfg nearPocket body state pos.

(** A ball 1 cm beyond the left rail of the shipped table, moving into it. *)
Definition pastLeftRail : Vec3.t := Vec3.mk (-0.72) 0.88625 (-1.88).
Definition intoLeftRail : BallState :=
  mkBallState BallStateProto pastLeftRail (Vec3.mk (-1) 0 0.5) Vec3.zero
    sliding 0.
(** The same ball sliding along the rail. *)
Definition alongLeftRail : BallState :=
  mkBallState BallStateProto pastLeftRail (Vec3.mk (-0.02) 0 0.5) Vec3.zero
    sliding 0.
Definition railBody (state : BallState) : Body :=
  mkBody pastLeftRail
    (Vec3.mk (Vec3.x (velocity state)) 0 (Vec3.z (velocity state)))
    Vec3.zero.

(** ** main.js: [shoot] *)

(** The variables of the roll-distance prediction loop. *)
Record RollSim : Type := mkRollSim {
  simSpeed : R;
  simDistance : R;
  simAngVel : R;
  simPhase : Phase;
  simSteps : Z
}.

(** The condition of the [while]. *)
Definition rollGuard (cfg : Cfg.t) (s : RollSim) : bool :=
  gtb (simSpeed s) (Cfg.velocity_stop (Cfg.thresholds cfg))
  && (simSteps s <? 10000)%Z.

(** The body of the [while]. *)
Definition rollBody (cfg : Cfg.t) (s : RollSim) : RollSim :=
  let rollingResistance := Cfg.table_friction_roll (Cfg.world cfg) in
  let slidingFriction := Cfg.table_friction_slide (Cfg.world cfg) in
  let g := Cfg.gravity (Cfg.world cfg) in
  let dt := 1 / 120 in
  let simDistance := simDistance s + simSpeed s * dt in
  let surfaceSpeed := simAngVel s * BALL_RADIUS cfg in
  let slipSpeed := Rabs (simSpeed s - surfaceSpeed) in
  if gtb slipSpeed (Cfg.slip_threshold (Cfg.thresholds cfg)) then
    let friction := slidingFriction * g in
    let simSpeed := Rmax 0 (simSpeed s - friction * dt) in
    let targetAngVel := simSpeed / BALL_RADIUS cfg in
    let simAngVel := simAngVel s + (targetAngVel - simAngVel s) * 0.1 in
    mkRollSim simSpeed simDistance simAngVel sliding (simSteps s + 1)
  else
    let friction := rollingResistance * g in
    let simSpeed := Rmax 0 (simSpeed s - friction * dt) in
    let simAngVel := simSpeed / BALL_RADIUS cfg in
    mkRollSim simSpeed simDistance simAngVel rolling (simSteps s + 1).

(** The [while] loop with [fuel] iterations allowed. *)
Fixpoint rollLoop (cfg : Cfg.t) (fuel : nat) (s : RollSim) : RollSim :=
  match fuel with
  | O => s
  | S fuel' =>
      if rollGuard cfg s then rollLoop cfg fuel' (rollBody cfg s) else s
  end.

(** The loop from its initial variables.  [steps] starts at 0 and the
    guard asks for [steps < 10000], so 10000 iterations are all the loop
    can make. *)
Definition predictRoll (cfg : Cfg.t) (initialSpeed angularSpeed : R) : RollSim :=
  rollLoop cfg (Z.to_nat 10000)
    (mkRollSim initialSpeed 0 angularSpeed sliding 0).

(** How a call ends: it returns, or it throws a [ReferenceError]. *)
Inductive Completion : Type := Returned | ThrewReferenceError.

(** What a call of [shoot] leaves behind: the cue ball's body, the state
    stored in [ballStates], and how the call ended. *)
Record ShotResult : Type := mkShotResult {
  shotBody : Body;
  shotState : BallState;
  shotCompletion : Completion
}.

(** [shoot], for a cue ball with a body (the counters and the cue
    animation are left out).  [cueBallPosition] is
    [this.cueBall.position].  [speedRatio] is computed and never read.
    [cueBallState] is an instance of the class, so [angularSpeed] is read
    from its getter.  After the writes to the body and to [ballStates] and
    after the roll-prediction loop, the object literal of the shot log
    reads [impulse.x]; no [impulse] is declared in the function or in the
    module, so the evaluation throws a [ReferenceError]: every call ends
    there, [predictedDistance] is computed and never stored, and the log
    entry, the trajectory tracking and [createShotEffect] are not
    reached. *)
Definition shoot (cfg : Cfg.t) (shotPower maxPower aimAngle spinX spinY : R)
    (cueBallPosition : Vec3.t) (cueBallBody : Body) : ShotResult :=
  let normalizedPower := shotPower / maxPower in
  let maxImpulse := 0.35 in
  let power := normalizedPower * normalizedPower * maxImpulse in
  let shotDirX := sin aimAngle in
  let shotDirZ := cos aimAngle in
  let initialSpeed := power / BALL_MASS cfg in
  let initialVelX := shotDirX * initialSpeed in
  let initialVelZ := shotDirZ * initialSpeed in
  let cueBallBody :=
    mkBody (translation cueBallBody) (Vec3.mk 0 0 0) (Vec3.mk 0 0 0) in
  let cueBallState := newBallState in
  let cueBallState := set_position cueBallState
    (Vec3.mk (Vec3.x cueBallPosition) (Vec3.y cueBallPosition)
             (Vec3.z cueBallPosition)) in
  let cueBallState :=
    applyShot cfg cueBallState normalizedPower aimAngle spinX spinY (Some 8) in
  let speedRatio :=
    initialSpeed / (if gtbU (speed cueBallState) 0.01
                    then speed_of cueBallState else 1) in
  let cueBallBody :=
    mkBody (translation cueBallBody) (Vec3.mk initialVelX 0 initialVelZ)
           (angvel cueBallBody) in
  let angularVel :=
    Vec3.mk (Vec3.x (angularVelocity cueBallState))
            (Vec3.y (angularVelocity cueBallState))
            (Vec3.z (angularVelocity cueBallState)) in
  let cueBallBody :=
    mkBody (translation cueBallBody) (linvel cueBallBody) angularVel in
  let cueBallState :=
    set_velocity cueBallState (Vec3.mk initialVelX 0 initialVelZ) in
  let sim := predictRoll cfg initialSpeed (angularSpeed_of cueBallState) in
  let predictedDistance := simDistance sim in
  mkShotResult cueBallBody cueBallState ThrewReferenceError.

(** The speed that [shoot] gives the cue ball. *)
Definition shotSpeed (cfg : Cfg.t) (shotPower maxPower : R) : R :=
  shotPower / maxPower * (shotPower / maxPower) * 0.35 / BALL_MASS cfg.

(** The bound of the roll prediction: the stopping distance
    v^2 / (2 mu_roll g) of a ball that only rolls, plus half a step. *)
Definition rollBound (cfg : Cfg.t) (v : R) : R :=
  v * v / (2 * (Cfg.table_friction_roll (Cfg.world cfg)
                * Cfg.gravity (Cfg.world cfg)))
  + v * (1 / 120) / 2.

(** ** main.js: the aim line: [findCushionInPath], [findBallInPathPrecise] *)

(** The object that [findCushionInPath] returns. *)
Record CushionHit : Type := mkCushionHit {
  hitPoint : Vec2.t;
  hitCushion : Rail.t;
  hitNormal : Vec2.t
}.

(** The variables [closest] and [minT]. *)
Definition PathVars : Type := (option CushionHit * R)%type.

(** The bounds that [findCushionInPath] computes; its [maxZ] adds the
    offset where the cushion tests of [applyRollingFriction] subtract
    it. *)
Definition pathMinX (cfg : Cfg.t) : R :=
  TABLE_CENTER_X - TABLE_WIDTH / 2 + (BALL_RADIUS cfg + 0.002).
Definition pathMaxX (cfg : Cfg.t) : R :=
  TABLE_CENTER_X + TABLE_WIDTH / 2 - (BALL_RADIUS cfg + 0.002).
Definition pathMinZ (cfg : Cfg.t) : R :=
  TABLE_CENTER_Z - TABLE_LENGTH / 2 + (BALL_RADIUS cfg + 0.002).
Definition pathMaxZ (cfg : Cfg.t) : R :=
  TABLE_CENTER_Z + TABLE_LENGTH / 2 + (BALL_RADIUS cfg + 0.002).

(** The four blocks; [a >= b] is written [leb b a]. *)
Definition crossLeft (cfg : Cfg.t) (startPos : Vec2.t) (dirX dirZ : R)
    (v : PathVars) : PathVars :=
  let '(closest, minT) := v in
  if ltb dirX (-0.001) then
    let t := (pathMinX cfg - Vec2.x startPos) / dirX in
    if gtb t 0 && ltb t minT then
      let z := Vec2.z startPos + dirZ * t in
      if leb (pathMinZ cfg) z && leb z (pathMaxZ cfg) then
        (Some (mkCushionHit (Vec2.mk (pathMinX cfg) z) Rail.left (Vec2.mk 1 0)),
         t)
      else (closest, minT)
    else (closest, minT)
  else (closest, minT).

Definition crossRight (cfg : Cfg.t) (startPos : Vec2.t) (dirX dirZ : R)
    (v : PathVars) : PathVars :=
  let '(closest, minT) := v in
  if gtb dirX 0.001 then
    let t := (pathMaxX cfg - Vec2.x startPos) / dirX in
    if gtb t 0 && ltb t minT then
      let z := Vec2.z startPos + dirZ * t in
      if leb (pathMinZ cfg) z && leb z (pathMaxZ cfg) then
        (Some (mkCushionHit (Vec2.mk (pathMaxX cfg) z) Rail.right
                 (Vec2.mk (-1) 0)),
         t)
      else (closest, minT)
    else (closest, minT)
  else (closest, minT).

Definition crossTop (cfg : Cfg.t) (startPos : Vec2.t) (dirX dirZ : R)
    (v : PathVars) : PathVars :=
  let '(closest, minT) := v in
  if ltb dirZ (-0.001) then
    let t := (pathMinZ cfg - Vec2.z startPos) / dirZ in
    if gtb t 0 && ltb t minT then
      let x := Vec2.x startPos + dirX * t in
      if leb (pathMinX cfg) x && leb x (pathMaxX cfg) then
        (Some (mkCushionHit (Vec2.mk x (pathMinZ cfg)) Rail.top (Vec2.mk 0 1)),
         t)
      else (closest, minT)
    else (closest, minT)
  else (closest, minT).

Definition crossBottom (cfg : Cfg.t) (startPos : Vec2.t) (dirX dirZ : R)
    (v : PathVars) : PathVars :=
  let '(closest, minT) := v in
  if gtb dirZ 0.001 then
    let t := (pathMaxZ cfg - Vec2.z startPos) / dirZ in
    if gtb t 0 && ltb t minT then
      let x := Vec2.x startPos + dirX * t in
      if leb (pathMinX cfg) x && leb x (pathMaxX cfg) then
        (Some (mkCushionHit (Vec2.mk x (pathMaxZ cfg)) Rail.bottom
                 (Vec2.mk 0 (-1))),
         t)
      else (closest, minT)
    else (closest, minT)
  else (closest, minT).

(** [startPos] is read on [x] and [z] only. *)
Definition findCushionInPath (cfg : Cfg.t) (startPos : Vec2.t)
    (dirX dirZ maxDist : R) : option CushionHit :=
  let closest := None in
  let minT := maxDist in
  let '(closest, minT) :=
    crossBottom cfg startPos dirX dirZ
      (crossTop cfg startPos dirX dirZ
         (crossRight cfg startPos dirX dirZ
            (crossLeft cfg startPos dirX dirZ (closest, minT)))) in
  closest.

(** What the hit of a rail must satisfy: it is the point of the ray at
    parameter [t], on the line of the named rail and within the extent of
    that rail, with the inward normal of the rail. *)
Definition onRail (cfg : Cfg.t) (startPos : Vec2.t) (dirX dirZ : R)
    (h : CushionHit) (t : R) : Prop :=
  0 < t
  /\ Vec2.x (hitPoint h) = Vec2.x startPos + dirX * t
  /\ Vec2.z (hitPoint h) = Vec2.z startPos + dirZ * t
  /\ (Vec2.x (hitNormal h), Vec2.z (hitNormal h)) = railNormal (hitCushion h)
  /\ match hitCushion h with
     | Rail.left =>
         Vec2.x (hitPoint h) = pathMinX cfg
         /\ pathMinZ cfg <= Vec2.z (hitPoint h) <= pathMaxZ cfg
     | Rail.right =>
         Vec2.x (hitPoint h) = pathMaxX cfg
         /\ pathMinZ cfg <= Vec2.z (hitPoint h) <= pathMaxZ cfg
     | Rail.top =>
         Vec2.z (hitPoint h) = pathMinZ cfg
         /\ pathMinX cfg <= Vec2.x (hitPoint h) <= pathMaxX cfg
     | Rail.bottom =>
         Vec2.z (hitPoint h) = pathMaxZ cfg
         /\ pathMinX cfg <= Vec2.x (hitPoint h) <= pathMaxX cfg
     | Rail.other => False
     end.

(** A ball of [this.balls], as the aim line and the pocket test read it. *)
Record TableBall : Type := mkTableBall {
  isCueBall : bool;
  isPocketed : bool;
  isBeingRemoved : bool;
  ballPosition : Vec3.t
}.

(** The object that [findBallInPathPrecise] returns. *)
Record BallHit : Type := mkBallHit {
  hitBall : TableBall;
  hitDistance : R;
  contactPoint : Vec2.t;
  targetBallPos : Vec2.t;
  collisionNormal : Vec2.t;
  cutAngle : R;
  perpDist : R
}.

(** [contactDist < minDist], where [minDist] starts as [Infinity]
    ([None]). *)
Definition belowMin (contactDist : R) (minDist : option R) : bool :=
  match minDist with
  | Some m => ltb contactDist m
  | None => true
  end.

(** The body of the loop over [this.balls]; the variables are
    [closestHit] and [minDist].  [Math.acos] is taken on [-1, 1]. *)
Definition ballInPathStep (cfg : Cfg.t) (cueBallPos : Vec2.t)
    (dirX dirZ maxDistance : R) (v : option BallHit * option R)
    (ball : TableBall) : option BallHit * option R :=
  let '(closestHit, minDist) := v in
  let Rb := BALL_RADIUS cfg in
  let collisionDist := Rb * 2 in
  if isCueBall ball then (closestHit, minDist)
  else if isPocketed ball || isBeingRemoved ball then (closestHit, minDist)
  else
    let dx := Vec3.x (ballPosition ball) - Vec2.x cueBallPos in
    let dz := Vec3.z (ballPosition ball) - Vec2.z cueBallPos in
    let projection := dx * dirX + dz * dirZ in
    if leb projection 0 || gtb projection (maxDistance + collisionDist)
    then (closestHit, minDist)
    else
      let perpX := dx - dirX * projection in
      let perpZ := dz - dirZ * projection in
      let perpDistSq := perpX * perpX + perpZ * perpZ in
      if ltb perpDistSq (collisionDist * collisionDist) then
        let perpDist := sqrt perpDistSq in
        let offset := sqrt (collisionDist * collisionDist - perpDistSq) in
        let contactDist := projection - offset in
        if gtb contactDist (Rb * 0.1) && belowMin contactDist minDist then
          let minDist := Some contactDist in
          let contactX := Vec2.x cueBallPos + dirX * contactDist in
          let contactZ := Vec2.z cueBallPos + dirZ * contactDist in
          let collisionNormalX :=
            (Vec3.x (ballPosition ball) - contactX) / collisionDist in
          let collisionNormalZ :=
            (Vec3.z (ballPosition ball) - contactZ) / collisionDist in
          let cutAngle :=
            acos (Rabs (dirX * collisionNormalX + dirZ * collisionNormalZ))
            * 180 / PI in
          (Some (mkBallHit ball contactDist (Vec2.mk contactX contactZ)
                   (Vec2.mk (Vec3.x (ballPosition ball))
                            (Vec3.z (ballPosition ball)))
                   (Vec2.mk collisionNormalX collisionNormalZ)
                   cutAngle perpDist),
           minDist)
        else (closestHit, minDist)
      else (closestHit, minDist).

(** [maxDistance] defaults to 3.0; [cueBallPos] is read on [x] and [z]. *)
Definition findBallInPathPrecise (cfg : Cfg.t) (balls : list TableBall)
    (cueBallPos : Vec2.t) (dirX dirZ : R) (maxDistance : option R)
    : option BallHit :=
  let maxDistance := orDefault maxDistance 3.0 in
  fst (fold_left (ballInPathStep cfg cueBallPos dirX dirZ maxDistance) balls
         (None, None)).

(** The contact distance that the loop computes for one ball, when the
    ball passes all its tests but the comparison with [minDist]. *)
Definition contactDistOf (cfg : Cfg.t) (cueBallPos : Vec2.t)
    (dirX dirZ maxDistance : R) (ball : TableBall) : option R :=
  option_map hitDistance
    (fst (ballInPathStep cfg cueBallPos dirX dirZ maxDistance (None, None)
            ball)).

(** ** main.js: [checkPockets] *)

(** The pockets of [createTable]. *)
Definition tablePockets : list Pocket :=
  let cornerPocketRadius := 0.0445 in
  let middlePocketRadius := 0.0525 in
  let halfWidth := TABLE_WIDTH / 2 in
  let halfLength := TABLE_LENGTH / 2 in
  let middlePocketOutset := 0.04 in
  let cornerPocketOutset := 0.01 in
  [ mkPocket (TABLE_CENTER_X - halfWidth - cornerPocketOutset)
             (TABLE_CENTER_Z - halfLength - cornerPocketOutset)
             cornerPocketRadius;
    mkPocket (TABLE_CENTER_X - halfWidth - cornerPocketOutset)
             (TABLE_CENTER_Z + halfLength + cornerPocketOutset)
             cornerPocketRadius;
    mkPocket (TABLE_CENTER_X + halfWidth + cornerPocketOutset)
             (TABLE_CENTER_Z - halfLength - cornerPocketOutset)
             cornerPocketRadius;
    mkPocket (TABLE_CENTER_X + halfWidth + cornerPocketOutset)
             (TABLE_CENTER_Z + halfLength + cornerPocketOutset)
             cornerPocketRadius;
    mkPocket (TABLE_CENTER_X - halfWidth - middlePocketOutset)
             TABLE_CENTER_Z middlePocketRadius;
    mkPocket (TABLE_CENTER_X + halfWidth + middlePocketOutset)
             TABLE_CENTER_Z middlePocketRadius ].

(** The inner loop of [checkPockets]: the index of the first pocket whose
    test holds, counted from [pocketIndex]. *)
Fixpoint pocketLoop (cfg : Cfg.t) (pockets : list Pocket) (pocketIndex : nat)
    (position : Vec3.t) : option nat :=
  match pockets with
  | [] => None
  | pocket :: rest =>
      let dx := Vec3.x position - pocket_x pocket in
      let dz := Vec3.z position - pocket_z pocket in
      let dist := norm2 dx dz in
      if ltb dist (pocket_radius pocket + BALL_RADIUS cfg * 0.5)
      then Some pocketIndex
      else pocketLoop cfg rest (S pocketIndex) position
  end.

(** The body of the loop of [checkPockets] for one ball: the index that is
    passed to [pocketBall], if any. *)
Definition checkPocketsBall (cfg : Cfg.t) (pockets : list Pocket)
    (ball : TableBall) : option nat :=
  let tableMinX := TABLE_CENTER_X - TABLE_WIDTH / 2 - 0.1 in
  let tableMaxX := TABLE_CENTER_X + TABLE_WIDTH / 2 + 0.1 in
  let tableMinZ := TABLE_CENTER_Z - TABLE_LENGTH / 2 - 0.1 in
  let tableMaxZ := TABLE_CENTER_Z + TABLE_LENGTH / 2 + 0.1 in
  let position := ballPosition ball in
  if isPocketed ball then None
  else if isBeingRemoved ball then None
  else if gtb (Vec3.y position) (TABLE_SURFACE_Y + BALL_RADIUS cfg * 2)
  then None
  else if ltb (Vec3.y position) (TABLE_SURFACE_Y - 0.1) then None
  else if ltb (Vec3.x position) (tableMinX - 1)
          || gtb (Vec3.x position) (tableMaxX + 1)
          || ltb (Vec3.z position) (tableMinZ - 1)
          || gtb (Vec3.z position) (tableMaxZ + 1)
  then None
  else pocketLoop cfg pockets 0 position.

(** The invariant of the four blocks of [findCushionInPath]: [minT] never
    exceeds [maxDist], and a hit that is held lies on the ray at [minT],
    before [maxDist]. *)
Definition pathInvariant (cfg : Cfg.t) (startPos : Vec2.t)
    (dirX dirZ maxDist : R) (v : PathVars) : Prop :=
  snd v <= maxDist
  /\ forall h : CushionHit,
       fst v = Some h ->
       snd v < maxDist /\ onRail cfg startPos dirX dirZ h (snd v).

(** A start on the centre line of the shipped table and a ball in the
    mouth of the first corner pocket. *)
Definition tableCentre : Vec2.t := Vec2.mk 0.1 (-1.88).
Definition ballAhead : TableBall :=
  mkTableBall false false false (Vec3.mk 0.1 0.88625 (-1)).
Definition cornerBall : TableBall :=
  mkTableBall false false false
    (Vec3.mk (TABLE_CENTER_X - TABLE_WIDTH / 2 - 0.01) 0.88625
             (TABLE_CENTER_Z - TABLE_LENGTH / 2 - 0.01)).

(** * Properties *)

(** ** Reflection of the comparisons *)

Lemma ltb_true (a b : R) : ltb a b = true <-> a < b.
Proof. unfold ltb; destruct (Rlt_dec a b); split; intros; auto; discriminate. Qed.

Lemma ltb_false (a b : R) : ltb a b = false <-> b <= a.
Proof.
  unfold ltb; destruct (Rlt_dec a b); split; intros; auto; try discriminate; lra.
Qed.

Lemma gtb_true (a b : R) : gtb a b = true <-> b < a.
Proof.
  unfold gtb; destruct (Rgt_dec a b); split; intros; auto; try discriminate; lra.
Qed.

Lemma gtb_false (a b : R) : gtb a b = false <-> a <= b.
Proof.
  unfold gtb; destruct (Rgt_dec a b); split; intros; auto; try discriminate; lra.
Qed.

Lemma leb_true (a b : R) : leb a b = true <-> a <= b.
Proof. unfold leb; destruct (Rle_dec a b); split; intros; auto; discriminate. Qed.

Lemma leb_false (a b : R) : leb a b = false <-> b < a.
Proof.
  unfold leb; destruct (Rle_dec a b); split; intros; auto; try discriminate; lra.
Qed.

Lemma eqb_true (a b : R) : eqb a b = true <-> a = b.
Proof. unfold eqb; destruct (Req_dec_T a b); split; intros; auto; discriminate. Qed.

Lemma eqb_false (a b : R) : eqb a b = false <-> a <> b.
Proof.
  unfold eqb; destruct (Req_dec_T a b); split; intros; auto; try discriminate.
  contradiction.
Qed.

(** Case analysis on every comparison [ltb] of the goal. *)
Ltac case_ltb :=
  repeat match goal with
  | |- context [ltb ?p ?q] =>
      let H := fresh "H" in
      destruct (ltb p q) eqn:H; [apply ltb_true in H | apply ltb_false in H]
  end.

(** ** The planar norm *)

Lemma norm2_nonneg (a b : R) : 0 <= norm2 a b.
Proof. apply sqrt_pos. Qed.

Lemma norm2_sqr (a b : R) : norm2 a b * norm2 a b = a * a + b * b.
Proof. unfold norm2. apply sqrt_sqrt. nra. Qed.

Lemma norm2_scale (k a b : R) : 0 <= k -> norm2 (a * k) (b * k) = norm2 a b * k.
Proof.
  intros Hk. unfold norm2.
  replace (a * k * (a * k) + b * k * (b * k)) with ((a * a + b * b) * (k * k)) by ring.
  rewrite sqrt_mult by nra.
  now rewrite sqrt_square.
Qed.

Lemma norm2_0_r (a : R) : 0 <= a -> norm2 0 a = a.
Proof.
  intros Ha. unfold norm2.
  replace (0 * 0 + a * a) with (a * a) by ring.
  now apply sqrt_square.
Qed.

Lemma norm2_0_l (a : R) : 0 <= a -> norm2 a 0 = a.
Proof.
  intros Ha. unfold norm2.
  replace (a * a + 0 * 0) with (a * a) by ring.
  now apply sqrt_square.
Qed.

Lemma norm2_zero : norm2 0 0 = 0.
Proof. apply norm2_0_l. lra. Qed.

(** ** Ball-ball collision: which branch runs *)

Section CollisionFacts.

Variable cfg : Cfg.t.
Variables a b : BallState.

Lemma corrected_velocity :
  velocity (fst (corrected cfg a b)) = velocity a
  /\ velocity (snd (corrected cfg a b)) = velocity b.
Proof. unfold corrected. destruct (ltb _ _); split; reflexivity. Qed.

Lemma corrected_angularVelocity :
  angularVelocity (fst (corrected cfg a b)) = angularVelocity a
  /\ angularVelocity (snd (corrected cfg a b)) = angularVelocity b.
Proof. unfold corrected. destruct (ltb _ _); split; reflexivity. Qed.

Lemma corrected_phase :
  phase (fst (corrected cfg a b)) = phase a
  /\ phase (snd (corrected cfg a b)) = phase b.
Proof. unfold corrected. destruct (ltb _ _); split; reflexivity. Qed.

Lemma corrected_phaseTime :
  phaseTime (fst (corrected cfg a b)) = phaseTime a
  /\ phaseTime (snd (corrected cfg a b)) = phaseTime b.
Proof. unfold corrected. destruct (ltb _ _); split; reflexivity. Qed.

Lemma collision_out_of_range :
  centreDistance a b < 0.0001
  \/ Cfg.radius (Cfg.ball cfg) * 2.5 < centreDistance a b ->
  calculateBallCollision cfg a b = mkCollisionResult a b None None.
Proof.
  intros H. unfold calculateBallCollision. fold (centreDistance a b).
  destruct H as [H | H].
  - apply ltb_true in H. now rewrite H.
  - apply gtb_true in H. rewrite H. now rewrite orb_true_r.
Qed.

Lemma collision_separating :
  inRange cfg a b -> closingVelocity a b <= 0 ->
  calculateBallCollision cfg a b
  = mkCollisionResult (fst (corrected cfg a b)) (snd (corrected cfg a b))
      None None.
Proof.
  intros [Hlo Hhi] Hdvn. unfold calculateBallCollision.
  fold (centreDistance a b). fold (normalX a b) (normalZ a b).
  fold (corrected cfg a b).
  apply ltb_false in Hlo. apply gtb_false in Hhi. rewrite Hlo, Hhi. cbn [orb].
  destruct corrected_velocity as [Ea Eb].
  destruct (corrected cfg a b) as [a' b']. cbn [fst snd] in *. rewrite Ea, Eb.
  fold (closingVelocity a b). apply leb_true in Hdvn. now rewrite Hdvn.
Qed.

Lemma collision_exchanges :
  exchanges cfg a b ->
  calculateBallCollision cfg a b
  = impulseExchange cfg (fst (corrected cfg a b)) (snd (corrected cfg a b))
      (normalX a b) (normalZ a b)
      (closingVelocity a b) (tangentialVelocity a b).
Proof.
  intros [[Hlo Hhi] Hdvn]. unfold calculateBallCollision.
  fold (centreDistance a b). fold (normalX a b) (normalZ a b).
  fold (corrected cfg a b).
  apply ltb_false in Hlo. apply gtb_false in Hhi. rewrite Hlo, Hhi. cbn [orb].
  destruct corrected_velocity as [Ea Eb].
  destruct (corrected cfg a b) as [a' b']. cbn [fst snd] in *. rewrite Ea, Eb.
  fold (closingVelocity a b) (tangentialVelocity a b). apply leb_false in Hdvn.
  now rewrite Hdvn.
Qed.

End CollisionFacts.

(** ** Momentum *)

(** C1.  When [calculateBallCollision] performs the impulse exchange
    (distance in the gating range, closing velocity positive), the total
    linear momentum in the table plane is conserved: on x and on z,
    m vA' + m vB' = m vA + m vB; the velocity change of A is the opposite of
    the velocity change of B. *)
Theorem C1_momentum_conserved (cfg : Cfg.t) (a b : BallState) :
  exchanges cfg a b ->
  let r := calculateBallCollision cfg a b in
  let m := Cfg.mass (Cfg.ball cfg) in
  m * Vec3.x (velocity (ballA r)) + m * Vec3.x (velocity (ballB r))
  = m * Vec3.x (velocity a) + m * Vec3.x (velocity b)
  /\ m * Vec3.z (velocity (ballA r)) + m * Vec3.z (velocity (ballB r))
     = m * Vec3.z (velocity a) + m * Vec3.z (velocity b)
  /\ Vec3.x (velocity (ballA r)) - Vec3.x (velocity a)
     = - (Vec3.x (velocity (ballB r)) - Vec3.x (velocity b))
  /\ Vec3.z (velocity (ballA r)) - Vec3.z (velocity a)
     = - (Vec3.z (velocity (ballB r)) - Vec3.z (velocity b)).
Proof.
  intros Hex r m. subst r. rewrite collision_exchanges by assumption.
  destruct (corrected_velocity cfg a b) as [Ea Eb].
  unfold impulseExchange.
  destruct (gtb _ 0.01); cbn [ballA ballB velocity set_velocity set_phase
    set_phaseTime set_angularVelocity Vec3.x Vec3.z Vec3.set_xz];
    rewrite Ea, Eb; repeat split; ring.
Qed.

Lemma norm2_0_r_abs (a : R) : norm2 0 a = Rabs a.
Proof.
  unfold norm2. replace (0 * 0 + a * a) with (Rsqr a) by (unfold Rsqr; ring).
  apply sqrt_Rsqr_abs.
Qed.

Lemma centreDistance_on_z (z0 vxa vza vxb vzb : R) :
  0 <= z0 ->
  centreDistance (ballAt 0 0 vxa vza) (ballAt 0 z0 vxb vzb) = z0.
Proof.
  intros Hz. unfold centreDistance, ballAt. cbn.
  replace (0 - 0) with 0 by ring. replace (z0 - 0) with z0 by ring.
  now apply norm2_0_r.
Qed.

Lemma normal_on_z (z0 vxa vza vxb vzb : R) :
  0 < z0 ->
  normalX (ballAt 0 0 vxa vza) (ballAt 0 z0 vxb vzb) = 0
  /\ normalZ (ballAt 0 0 vxa vza) (ballAt 0 z0 vxb vzb) = 1.
Proof.
  intros Hz. unfold normalX, normalZ.
  rewrite centreDistance_on_z by lra. unfold ballAt. cbn.
  split; field; lra.
Qed.

Lemma closingVelocity_on_z (z0 vxa vza vxb vzb : R) :
  0 < z0 ->
  closingVelocity (ballAt 0 0 vxa vza) (ballAt 0 z0 vxb vzb) = vza - vzb.
Proof.
  intros Hz. unfold closingVelocity.
  destruct (normal_on_z z0 vxa vza vxb vzb Hz) as [-> ->].
  unfold ballAt. cbn. ring.
Qed.

Lemma tangentialVelocity_on_z (z0 vxa vza vxb vzb : R) :
  0 < z0 ->
  tangentialVelocity (ballAt 0 0 vxa vza) (ballAt 0 z0 vxb vzb) = - (vxa - vxb).
Proof.
  intros Hz. unfold tangentialVelocity.
  destruct (normal_on_z z0 vxa vza vxb vzb Hz) as [-> ->].
  unfold ballAt. cbn. ring.
Qed.

(** Two balls on the z axis, [z0] apart, are in the gating range of the
    shipped configuration when 0.0001 <= z0 <= 0.065625, and the first
    closes on the second when vza > vzb. *)
Lemma exchanges_on_z (z0 vxa vza vxb vzb : R) :
  0.0001 <= z0 <= 0.065625 -> vzb < vza ->
  exchanges PHYSICS_CONFIG (ballAt 0 0 vxa vza) (ballAt 0 z0 vxb vzb).
Proof.
  intros Hz Hv. split.
  - unfold inRange. rewrite centreDistance_on_z by lra. cbn. lra.
  - rewrite closingVelocity_on_z by lra. lra.
Qed.

Lemma C1_momentum_conserved_witness :
  exchanges PHYSICS_CONFIG headOnA headOnB
  /\ (let r := calculateBallCollision PHYSICS_CONFIG headOnA headOnB in
      let m := Cfg.mass (Cfg.ball PHYSICS_CONFIG) in
      m * Vec3.z (velocity (ballA r)) + m * Vec3.z (velocity (ballB r))
      = m * Vec3.z (velocity headOnA) + m * Vec3.z (velocity headOnB)).
Proof.
  split.
  - apply exchanges_on_z; lra.
  - apply (C1_momentum_conserved PHYSICS_CONFIG headOnA headOnB).
    apply exchanges_on_z; lra.
Defined.

(** ** Calls that do not exchange an impulse *)

Lemma separating_corrected_z :
  Vec3.z (position (snd (corrected PHYSICS_CONFIG separatingA separatingB)))
  = 0.05 + 0.0025 / 1.001.
Proof.
  unfold corrected, separatingA, separatingB.
  rewrite centreDistance_on_z by lra.
  destruct (normal_on_z 0.05 0 (-1) 0 0) as [Hx Hz]; [lra|]. rewrite Hx, Hz.
  replace (ltb 0.05 (Cfg.radius (Cfg.ball PHYSICS_CONFIG) * 2)) with true
    by (symmetry; apply ltb_true; cbn; lra).
  unfold penetrationCorrection, ballAt. cbn.
  rewrite norm2_0_r_abs, norm2_zero.
  replace (Rabs (-1)) with 1 by (rewrite Rabs_left; lra).
  lra.
Qed.

(** C3, as stated, fails: the pair above is separating (closing velocity
    -1), yet the call moves ball B, because the penetration correction runs
    before the test of the closing velocity. *)
Lemma C3_counterexample :
  closingVelocity separatingA separatingB <= 0
  /\ position (ballB (calculateBallCollision PHYSICS_CONFIG separatingA separatingB))
     <> position separatingB.
Proof.
  assert (Hdvn : closingVelocity separatingA separatingB <= 0).
  { unfold separatingA, separatingB. rewrite closingVelocity_on_z; lra. }
  split; [exact Hdvn|].
  rewrite collision_separating; [| | exact Hdvn].
  - cbn [ballB]. intros H.
    apply (f_equal Vec3.z) in H. rewrite separating_corrected_z in H.
    cbn in H. lra.
  - unfold inRange, separatingA, separatingB.
    rewrite centreDistance_on_z by lra. cbn. lra.
Qed.

(** C3, amended.  When the distance is below 0.0001 or above 2.5R both
    balls are returned as they were.  When the distance is in range and the
    closing velocity is not positive, velocities, angular velocities, phase
    and phaseTime are as they were, and so are the positions when the
    distance is at least 2R; below 2R the positions are those the
    penetration correction computes.  No throw angle is reported. *)
Theorem C3_no_exchange (cfg : Cfg.t) (a b : BallState) :
  centreDistance a b < 0.0001
  \/ Cfg.radius (Cfg.ball cfg) * 2.5 < centreDistance a b
  \/ closingVelocity a b <= 0 ->
  let r := calculateBallCollision cfg a b in
  let Rb := Cfg.radius (Cfg.ball cfg) in
  (velocity (ballA r) = velocity a /\ velocity (ballB r) = velocity b)
  /\ (angularVelocity (ballA r) = angularVelocity a
      /\ angularVelocity (ballB r) = angularVelocity b)
  /\ (phase (ballA r) = phase a /\ phase (ballB r) = phase b)
  /\ (phaseTime (ballA r) = phaseTime a /\ phaseTime (ballB r) = phaseTime b)
  /\ (proto (ballA r) = proto a /\ proto (ballB r) = proto b)
  /\ throwAngle r = None
  /\ (centreDistance a b < 0.0001 \/ Rb * 2.5 < centreDistance a b
      \/ Rb * 2 <= centreDistance a b ->
      ballA r = a /\ ballB r = b)
  /\ (inRange cfg a b -> centreDistance a b < Rb * 2 ->
      (ballA r, ballB r)
      = penetrationCorrection cfg a b (centreDistance a b)
          (normalX a b) (normalZ a b)).
Proof.
  intros H r Rb.
  destruct (Rlt_dec (centreDistance a b) 0.0001) as [Hlo | Hlo].
  { subst r. rewrite collision_out_of_range by (left; exact Hlo).
    cbn [ballA ballB throwAngle].
    do 5 (split; [split; reflexivity|]). split; [reflexivity|].
    split; [intros _; split; reflexivity|].
    intros [Hlo' _]. lra. }
  destruct (Rlt_dec (Cfg.radius (Cfg.ball cfg) * 2.5) (centreDistance a b))
    as [Hhi | Hhi].
  { subst r. rewrite collision_out_of_range by (right; exact Hhi).
    cbn [ballA ballB throwAngle].
    do 5 (split; [split; reflexivity|]). split; [reflexivity|].
    split; [intros _; split; reflexivity|].
    intros [_ Hhi']. lra. }
  assert (Hin : inRange cfg a b) by (unfold inRange; lra).
  destruct H as [H | [H | H]]; [lra | lra |].
  subst r. rewrite collision_separating by assumption.
  cbn [ballA ballB throwAngle].
  split; [apply corrected_velocity|].
  split; [apply corrected_angularVelocity|].
  split; [apply corrected_phase|].
  split; [apply corrected_phaseTime|].
  split; [unfold corrected; destruct (ltb _ _); split; reflexivity|].
  split; [reflexivity|].
  split.
  - subst Rb. intros [H' | [H' | H']]; [lra | lra |].
    unfold corrected. apply ltb_false in H'. rewrite H'.
    split; reflexivity.
  - subst Rb. intros _ H'. unfold corrected. apply ltb_true in H'.
    rewrite H'. now destruct (penetrationCorrection _ _ _ _ _ _).
Qed.

Lemma C3_no_exchange_witness :
  (centreDistance separatingA separatingB < 0.0001
   \/ Cfg.radius (Cfg.ball PHYSICS_CONFIG) * 2.5
      < centreDistance separatingA separatingB
   \/ closingVelocity separatingA separatingB <= 0)
  /\ velocity (ballB (calculateBallCollision PHYSICS_CONFIG separatingA separatingB))
     = velocity separatingB.
Proof.
  assert (H : centreDistance separatingA separatingB < 0.0001
   \/ Cfg.radius (Cfg.ball PHYSICS_CONFIG) * 2.5
      < centreDistance separatingA separatingB
   \/ closingVelocity separatingA separatingB <= 0).
  { right; right. unfold separatingA, separatingB.
    rewrite closingVelocity_on_z; lra. }
  split; [exact H|].
  exact (proj2 (proj1 (C3_no_exchange PHYSICS_CONFIG separatingA separatingB H))).
Defined.

Lemma div_nonneg (a b : R) : 0 <= a -> 0 < b -> 0 <= a / b.
Proof.
  intros Ha Hb. unfold Rdiv. apply Rmult_le_pos; [exact Ha|].
  left. now apply Rinv_0_lt_compat.
Qed.

(** ** What the impulse exchange leaves alone *)

Lemma impulseExchange_frame (cfg : Cfg.t) (a b : BallState) (nx nz dvn dvt : R) :
  let r := impulseExchange cfg a b nx nz dvn dvt in
  (position (ballA r) = position a /\ position (ballB r) = position b)
  /\ (proto (ballA r) = proto a /\ proto (ballB r) = proto b)
  /\ (Vec3.y (velocity (ballA r)) = Vec3.y (velocity a)
      /\ Vec3.y (velocity (ballB r)) = Vec3.y (velocity b)).
Proof.
  unfold impulseExchange. destruct (gtb _ 0.01); cbn; repeat split; reflexivity.
Qed.

(** ** Penetration correction *)

Lemma norm2_along (dx dz k : R) :
  0 < norm2 dx dz -> 0 <= k ->
  norm2 (dx + dx / norm2 dx dz * k) (dz + dz / norm2 dx dz * k)
  = norm2 dx dz + k.
Proof.
  intros Hd Hk.
  replace (dx + dx / norm2 dx dz * k) with (dx * (1 + k / norm2 dx dz))
    by (field; lra).
  replace (dz + dz / norm2 dx dz * k) with (dz * (1 + k / norm2 dx dz))
    by (field; lra).
  rewrite norm2_scale.
  - field; lra.
  - assert (0 <= k / norm2 dx dz) by (apply div_nonneg; lra). lra.
Qed.

(** The correction moves the centres apart along the normal by
    [penetration * (speedA + speedB) / (speedA + speedB + 0.001)]. *)
Lemma penetrationCorrection_distance (cfg : Cfg.t) (a b : BallState) :
  0 < centreDistance a b ->
  centreDistance a b < Cfg.radius (Cfg.ball cfg) * 2 ->
  let p := penetrationCorrection cfg a b (centreDistance a b)
             (normalX a b) (normalZ a b) in
  let S := speed_of a + speed_of b in
  centreDistance (fst p) (snd p)
  = centreDistance a b
    + (Cfg.radius (Cfg.ball cfg) * 2 - centreDistance a b) * (S / (S + 0.001)).
Proof.
  intros Hd Hlt p S. subst p.
  assert (HS : 0 <= S).
  { subst S. unfold speed_of. pose proof (norm2_nonneg (Vec3.x (velocity a)) (Vec3.z (velocity a))).
    pose proof (norm2_nonneg (Vec3.x (velocity b)) (Vec3.z (velocity b))). lra. }
  assert (Hk : 0 <= (Cfg.radius (Cfg.ball cfg) * 2 - centreDistance a b) * (S / (S + 0.001))).
  { apply Rmult_le_pos; [lra|]. apply div_nonneg; lra. }
  rewrite <- (norm2_along _ _ _ Hd Hk) at 1.
  unfold centreDistance at 1. unfold penetrationCorrection. cbn.
  unfold normalX, normalZ. fold (speed_of a) (speed_of b).
  f_equal; subst S; unfold centreDistance in *; field; lra.
Qed.

Lemma penetrationCorrection_short (cfg : Cfg.t) (a b : BallState) :
  0 < centreDistance a b ->
  centreDistance a b < Cfg.radius (Cfg.ball cfg) * 2 ->
  let p := penetrationCorrection cfg a b (centreDistance a b)
             (normalX a b) (normalZ a b) in
  centreDistance (fst p) (snd p) < Cfg.radius (Cfg.ball cfg) * 2.
Proof.
  intros Hd Hlt p. subst p. rewrite penetrationCorrection_distance by assumption.
  cbv zeta.
  set (S := speed_of a + speed_of b).
  assert (HS : 0 <= S).
  { subst S. unfold speed_of. pose proof (norm2_nonneg (Vec3.x (velocity a)) (Vec3.z (velocity a))).
    pose proof (norm2_nonneg (Vec3.x (velocity b)) (Vec3.z (velocity b))). lra. }
  assert (Hq : S / (S + 0.001) < 1).
  { apply Rmult_lt_reg_r with (S + 0.001); [lra|].
    unfold Rdiv. rewrite Rmult_assoc, Rinv_l by lra. lra. }
  nra.
Qed.

(** The contact normal is a unit vector when the centres are apart. *)
Lemma normal_unit (a b : BallState) :
  0 < centreDistance a b ->
  normalX a b * normalX a b + normalZ a b * normalZ a b = 1.
Proof.
  intros Hd. unfold normalX, normalZ.
  pose proof (norm2_sqr (Vec3.x (position b) - Vec3.x (position a))
                        (Vec3.z (position b) - Vec3.z (position a))) as Hn.
  fold (centreDistance a b) in Hn.
  set (d := centreDistance a b) in *.
  set (dx := Vec3.x (position b) - Vec3.x (position a)) in *.
  set (dz := Vec3.z (position b) - Vec3.z (position a)) in *.
  replace (dx / d * (dx / d) + dz / d * (dz / d))
    with ((dx * dx + dz * dz) / (d * d)) by (field; lra).
  rewrite <- Hn. field. lra.
Qed.

(** The split of the displacement: A is moved by
    [penetration * speedB / totalSpeed] and B by
    [penetration * speedA / totalSpeed], so the faster ball is moved
    less. *)
Lemma penetrationCorrection_split (cfg : Cfg.t) (a b : BallState) :
  0 < centreDistance a b ->
  centreDistance a b < Cfg.radius (Cfg.ball cfg) * 2 ->
  let p := penetrationCorrection cfg a b (centreDistance a b)
             (normalX a b) (normalZ a b) in
  let pen := Cfg.radius (Cfg.ball cfg) * 2 - centreDistance a b in
  let total := speed_of a + speed_of b + 0.001 in
  centreDistance a (fst p) = pen * (speed_of b / total)
  /\ centreDistance b (snd p) = pen * (speed_of a / total)
  /\ (speed_of b <= speed_of a ->
      centreDistance a (fst p) <= centreDistance b (snd p)).
Proof.
  intros Hd Hlt p pen total.
  pose proof (norm2_nonneg (Vec3.x (velocity a)) (Vec3.z (velocity a))) as Ha.
  pose proof (norm2_nonneg (Vec3.x (velocity b)) (Vec3.z (velocity b))) as Hb.
  fold (speed_of a) in Ha. fold (speed_of b) in Hb.
  assert (Ht : 0 < total) by (subst total; lra).
  assert (Hp : 0 < pen) by (subst pen; lra).
  assert (Hn : norm2 (normalX a b) (normalZ a b) = 1).
  { pose proof (normal_unit a b Hd) as Hu.
    unfold norm2. rewrite Hu. apply sqrt_1. }
  assert (Hmove : forall k, 0 <= k ->
            norm2 (- (normalX a b * pen * k)) (- (normalZ a b * pen * k))
            = pen * k).
  { intros k Hk. unfold norm2.
    replace (- (normalX a b * pen * k) * - (normalX a b * pen * k)
             + - (normalZ a b * pen * k) * - (normalZ a b * pen * k))
      with (normalX a b * (pen * k) * (normalX a b * (pen * k))
            + normalZ a b * (pen * k) * (normalZ a b * (pen * k))) by ring.
    fold (norm2 (normalX a b * (pen * k)) (normalZ a b * (pen * k))).
    rewrite norm2_scale by (apply Rmult_le_pos; lra).
    rewrite Hn. ring. }
  assert (HA : centreDistance a (fst p) = pen * (speed_of b / total)).
  { rewrite <- Hmove by (apply div_nonneg; lra).
    subst p. unfold centreDistance at 1, penetrationCorrection.
    cbn [fst position set_position Vec3.x Vec3.z Vec3.set_xz].
    fold (speed_of a) (speed_of b). fold pen. fold total.
    f_equal; ring. }
  assert (HB : centreDistance b (snd p) = pen * (speed_of a / total)).
  { replace (pen * (speed_of a / total))
      with (norm2 (- (normalX a b * pen * (speed_of a / total)))
                  (- (normalZ a b * pen * (speed_of a / total))))
      by (apply Hmove; apply div_nonneg; lra).
    subst p. unfold centreDistance at 1, penetrationCorrection.
    cbn [snd position set_position Vec3.x Vec3.z Vec3.set_xz].
    fold (speed_of a) (speed_of b). fold pen. fold total.
    unfold norm2. f_equal. ring. }
  split; [exact HA|]. split; [exact HB|].
  intros Hle. rewrite HA, HB.
  apply Rmult_le_compat_l; [lra|].
  unfold Rdiv. apply Rmult_le_compat_r; [|exact Hle].
  left. now apply Rinv_0_lt_compat.
Qed.

Lemma centreDistance_ext (a b a' b' : BallState) :
  position a = position a' -> position b = position b' ->
  centreDistance a b = centreDistance a' b'.
Proof. intros Ha Hb. unfold centreDistance. now rewrite Ha, Hb. Qed.

(** After a call that exchanges an impulse on an overlapping pair, the
    centres are still closer than 2R. *)
Lemma collision_overlap_remains (cfg : Cfg.t) (a b : BallState) :
  exchanges cfg a b ->
  centreDistance a b < Cfg.radius (Cfg.ball cfg) * 2 ->
  let r := calculateBallCollision cfg a b in
  centreDistance (ballA r) (ballB r) < Cfg.radius (Cfg.ball cfg) * 2.
Proof.
  intros Hex Hlt r. subst r. rewrite collision_exchanges by assumption.
  destruct (impulseExchange_frame cfg (fst (corrected cfg a b))
              (snd (corrected cfg a b)) (normalX a b) (normalZ a b)
              (closingVelocity a b) (tangentialVelocity a b)) as [[Pa Pb] _].
  rewrite (centreDistance_ext _ _ _ _ Pa Pb).
  unfold corrected. apply ltb_true in Hlt. rewrite Hlt.
  apply ltb_true in Hlt. destruct Hex as [[Hlo _] _].
  apply penetrationCorrection_short; lra.
Qed.

(** The distance after a call that exchanges an impulse on an overlapping
    pair, from the distance and the speeds before it. *)
Lemma collision_overlap_distance (cfg : Cfg.t) (a b : BallState) :
  exchanges cfg a b ->
  centreDistance a b < Cfg.radius (Cfg.ball cfg) * 2 ->
  let r := calculateBallCollision cfg a b in
  let S := speed_of a + speed_of b in
  centreDistance (ballA r) (ballB r)
  = centreDistance a b
    + (Cfg.radius (Cfg.ball cfg) * 2 - centreDistance a b) * (S / (S + 0.001)).
Proof.
  intros Hex Hlt r S. subst r. rewrite collision_exchanges by assumption.
  destruct (impulseExchange_frame cfg (fst (corrected cfg a b))
              (snd (corrected cfg a b)) (normalX a b) (normalZ a b)
              (closingVelocity a b) (tangentialVelocity a b)) as [[Pa Pb] _].
  rewrite (centreDistance_ext _ _ _ _ Pa Pb).
  unfold corrected. apply ltb_true in Hlt. rewrite Hlt.
  apply ltb_true in Hlt. destruct Hex as [[Hlo _] _].
  apply penetrationCorrection_distance; lra.
Qed.

(** C4.  The code at an overlapping, closing pair (centres 0.05 apart, A
    at 1 m/s, B at rest, 2R = 0.0525): the call exchanges an impulse and
    leaves the centres 0.05 + 0.0025 / 1.001 apart, which is strictly less
    than 2R, not 2R plus a margin. *)
Theorem C4_correction_falls_short :
  exchanges PHYSICS_CONFIG overlapA overlapB
  /\ centreDistance overlapA overlapB = 0.05
  /\ centreDistance
       (ballA (calculateBallCollision PHYSICS_CONFIG overlapA overlapB))
       (ballB (calculateBallCollision PHYSICS_CONFIG overlapA overlapB))
     = 0.05 + 0.0025 / 1.001
  /\ centreDistance
       (ballA (calculateBallCollision PHYSICS_CONFIG overlapA overlapB))
       (ballB (calculateBallCollision PHYSICS_CONFIG overlapA overlapB))
     < Cfg.radius (Cfg.ball PHYSICS_CONFIG) * 2.
Proof.
  assert (Hex : exchanges PHYSICS_CONFIG overlapA overlapB)
    by (apply exchanges_on_z; lra).
  assert (Hd : centreDistance overlapA overlapB = 0.05)
    by (apply centreDistance_on_z; lra).
  assert (Hlt : centreDistance overlapA overlapB
                < Cfg.radius (Cfg.ball PHYSICS_CONFIG) * 2)
    by (rewrite Hd; cbn; lra).
  split; [exact Hex|]. split; [exact Hd|].
  split; [|apply collision_overlap_remains; assumption].
  rewrite collision_overlap_distance by assumption.
  rewrite Hd. unfold speed_of, overlapA, overlapB, ballAt.
  cbn [velocity Vec3.x Vec3.z Cfg.radius Cfg.ball PHYSICS_CONFIG].
  rewrite norm2_0_r by lra. rewrite norm2_zero. lra.
Qed.

(** ** Phase and spin after an impulse exchange *)

(** C6, as stated, fails: in the gentle head-on contact the call exchanges
    an impulse, ball B leaves at 0.00495 m/s, which is not above 0.01, and
    its phase stays [stationary]. *)
Lemma C6_counterexample :
  exchanges PHYSICS_CONFIG gentleA gentleB
  /\ phase (ballB (calculateBallCollision PHYSICS_CONFIG gentleA gentleB))
     <> sliding.
Proof.
  assert (Hex : exchanges PHYSICS_CONFIG gentleA gentleB)
    by (apply exchanges_on_z; lra).
  split; [exact Hex|].
  rewrite collision_exchanges by exact Hex.
  unfold corrected, gentleA, gentleB.
  rewrite centreDistance_on_z by lra.
  replace (ltb 0.0525 (Cfg.radius (Cfg.ball PHYSICS_CONFIG) * 2)) with false
    by (symmetry; apply ltb_false; cbn; lra).
  cbn [fst snd].
  destruct (normal_on_z 0.0525 0 0.005 0 0) as [Hx Hz]; [lra|]. rewrite Hx, Hz.
  rewrite closingVelocity_on_z, tangentialVelocity_on_z by lra.
  unfold impulseExchange, frictionImpulseOf, ballAt.
  cbn [velocity angularVelocity set_velocity set_angularVelocity Vec3.x Vec3.y
       Vec3.z Vec3.set_xz Vec3.set_y Vec3.zero phase].
  replace (gtb (Rabs (- (0 - 0) + 0 * Cfg.radius (Cfg.ball PHYSICS_CONFIG))) 0.01)
    with false.
  2:{ symmetry. apply gtb_false.
      replace (- (0 - 0) + 0 * Cfg.radius (Cfg.ball PHYSICS_CONFIG)) with 0 by ring.
      rewrite Rabs_R0. lra. }
  match goal with |- context [gtb ?s 0.01] => replace (gtb s 0.01) with false end.
  - cbn. discriminate.
  - symmetry. apply gtb_false. cbn.
    match goal with |- norm2 ?u ?v <= _ =>
      replace u with 0 by lra; replace v with 0.00495 by lra end.
    rewrite norm2_0_r; lra.
Qed.

(** C6, amended.  After an impulse exchange ball A is [sliding], both balls
    have phaseTime 0, and when ball B leaves faster than 0.01 it is
    [sliding] with its rolling-plane spin at 92% of the natural roll of its
    new velocity; when it does not, its phase and rolling-plane spin are as
    they were. *)
Theorem C6_phase_after_exchange (cfg : Cfg.t) (a b : BallState) :
  exchanges cfg a b ->
  let r := calculateBallCollision cfg a b in
  let Rb := Cfg.radius (Cfg.ball cfg) in
  phase (ballA r) = sliding
  /\ phaseTime (ballA r) = 0
  /\ phaseTime (ballB r) = 0
  /\ (0.01 < speed_of (ballB r) ->
      phase (ballB r) = sliding
      /\ Vec3.x (angularVelocity (ballB r))
         = - Vec3.z (velocity (ballB r)) / Rb * 0.92
      /\ Vec3.z (angularVelocity (ballB r))
         = Vec3.x (velocity (ballB r)) / Rb * 0.92)
  /\ (speed_of (ballB r) <= 0.01 ->
      phase (ballB r) = phase b
      /\ Vec3.x (angularVelocity (ballB r)) = Vec3.x (angularVelocity b)
      /\ Vec3.z (angularVelocity (ballB r)) = Vec3.z (angularVelocity b)).
Proof.
  intros Hex r Rb. subst r Rb. rewrite collision_exchanges by assumption.
  destruct (corrected_angularVelocity cfg a b) as [_ Wb].
  destruct (corrected_phase cfg a b) as [_ Pb].
  unfold impulseExchange.
  match goal with |- context [gtb ?s 0.01] =>
    destruct (gtb s 0.01) eqn:Hs; [apply gtb_true in Hs | apply gtb_false in Hs]
  end;
  cbn [ballA ballB velocity angularVelocity phase phaseTime set_velocity
       set_angularVelocity set_phase set_phaseTime Vec3.x Vec3.y Vec3.z
       Vec3.set_xz Vec3.set_y speed_of] in *.
  - do 3 (split; [reflexivity|]). split.
    + intros _. repeat split; reflexivity.
    + intros H. exfalso. unfold speed_of in H.
      cbn [velocity set_velocity set_angularVelocity set_phase set_phaseTime
           Vec3.x Vec3.z Vec3.set_xz] in H. lra.
  - rewrite Wb, Pb. do 3 (split; [reflexivity|]). split.
    + intros H. exfalso. unfold speed_of in H.
      cbn [velocity set_velocity set_angularVelocity set_phase set_phaseTime
           Vec3.x Vec3.z Vec3.set_xz] in H. lra.
    + intros _. repeat split; reflexivity.
Qed.

(** A head-on hit along z at distance 2R, no spin, B at rest. *)
Lemma headOn_result (v : R) :
  0 < v ->
  let r := calculateBallCollision PHYSICS_CONFIG
             (ballAt 0 0 0 v) (ballAt 0 0.0525 0 0) in
  velocity (ballA r) = Vec3.mk 0 0 (0.01 * v)
  /\ velocity (ballB r) = Vec3.mk 0 0 (0.99 * v)
  /\ angularVelocity (ballA r) = Vec3.mk 0 0 0
  /\ Vec3.y (angularVelocity (ballB r)) = 0.
Proof.
  intros Hv r. subst r.
  rewrite collision_exchanges by (apply exchanges_on_z; lra).
  unfold corrected.
  rewrite centreDistance_on_z by lra.
  replace (ltb 0.0525 (Cfg.radius (Cfg.ball PHYSICS_CONFIG) * 2)) with false
    by (symmetry; apply ltb_false; cbn; lra).
  cbn [fst snd].
  destruct (normal_on_z 0.0525 0 v 0 0) as [Hx Hz]; [lra|]. rewrite Hx, Hz.
  rewrite closingVelocity_on_z, tangentialVelocity_on_z by lra.
  unfold impulseExchange, frictionImpulseOf, ballAt.
  cbn [velocity angularVelocity set_velocity set_angularVelocity Vec3.x Vec3.y
       Vec3.z Vec3.set_xz Vec3.set_y Vec3.zero phase].
  replace (gtb (Rabs (- (0 - 0) + 0 * Cfg.radius (Cfg.ball PHYSICS_CONFIG))) 0.01)
    with false.
  2:{ symmetry. apply gtb_false.
      replace (- (0 - 0) + 0 * Cfg.radius (Cfg.ball PHYSICS_CONFIG)) with 0 by ring.
      rewrite Rabs_R0. lra. }
  match goal with |- context [gtb ?s 0.01] => destruct (gtb s 0.01) end;
    unfold MOMENT_OF_INERTIA, Vec3.set_xz, Vec3.set_y, Vec3.zero; cbn;
    (split; [f_equal; lra|]); (split; [f_equal; lra|]);
    (split; [f_equal; lra|]); lra.
Qed.

Lemma C6_phase_after_exchange_witness :
  exchanges PHYSICS_CONFIG headOnA headOnB
  /\ phase (ballA (calculateBallCollision PHYSICS_CONFIG headOnA headOnB))
     = sliding
  /\ phase (ballB (calculateBallCollision PHYSICS_CONFIG headOnA headOnB))
     = sliding.
Proof.
  assert (Hex : exchanges PHYSICS_CONFIG headOnA headOnB)
    by (apply exchanges_on_z; lra).
  split; [exact Hex|].
  destruct (C6_phase_after_exchange PHYSICS_CONFIG headOnA headOnB Hex)
    as (HA & _ & _ & HB & _).
  split; [exact HA|].
  apply HB. unfold speed_of, headOnA, headOnB.
  destruct (headOn_result 2) as (_ & -> & _); [lra|].
  cbn. rewrite norm2_0_r; lra.
Defined.

(** ** The vertical velocity *)

Section VerticalVelocity.

Variable cfg : Cfg.t.

Lemma slidingStep_vy (s : BallState) (slip : Vec2.t) (ss dt : R) :
  Vec3.y (velocity (slidingStep cfg s slip ss dt)) = Vec3.y (velocity s).
Proof. unfold slidingStep. destruct (gtb _ 0.01); reflexivity. Qed.

Lemma rollingStep_vy (s : BallState) (dt : R) :
  Vec3.y (velocity (rollingStep cfg s dt)) = Vec3.y (velocity s).
Proof.
  unfold rollingStep. destruct (speed _); [|reflexivity].
  destruct (gtb r 0.001); [|reflexivity].
  destruct (gtb r 0.0001); reflexivity.
Qed.

Lemma sideSpinStep_vy (s : BallState) (dt : R) :
  Vec3.y (velocity (sideSpinStep s dt)) = Vec3.y (velocity s).
Proof. reflexivity. Qed.

Lemma swerveStep_vy (s : BallState) (dt : R) :
  Vec3.y (velocity (swerveStep s dt)) = Vec3.y (velocity s).
Proof.
  unfold swerveStep. destruct (_ && _); [|reflexivity].
  destruct (speed s); reflexivity.
Qed.

Lemma applyNapEffect_vy (s : BallState) (dt : R) :
  Vec3.y (velocity (applyNapEffect cfg s dt)) = Vec3.y (velocity s).
Proof.
  unfold applyNapEffect. destruct (_ || _); [reflexivity|].
  destruct (speed s); [|reflexivity].
  destruct (ltb _ _); reflexivity.
Qed.

Lemma integrateStep_vy (s : BallState) (dt : R) :
  Vec3.y (velocity (integrateStep s dt)) = Vec3.y (velocity s).
Proof. reflexivity. Qed.

Lemma updateBallPhysics_moving (s : BallState) (dt : R) :
  stopCondition cfg s = false ->
  Vec3.y (velocity (updateBallPhysics cfg s dt)) = Vec3.y (velocity s).
Proof.
  intros Hstop. unfold updateBallPhysics. fold (stopCondition cfg s).
  rewrite Hstop.
  rewrite integrateStep_vy, applyNapEffect_vy, swerveStep_vy, sideSpinStep_vy.
  destruct (slipSpeed cfg s) as [ss|]; [|apply rollingStep_vy].
  destruct (slipVelocity cfg s) as [sl|]; [|apply rollingStep_vy].
  destruct (gtb ss _); [apply slidingStep_vy | apply rollingStep_vy].
Qed.

Lemma updateBallPhysics_stopped (s : BallState) (dt : R) :
  stopCondition cfg s = true ->
  updateBallPhysics cfg s dt
  = mkBallState (proto s) (position s) (Vec3.mk 0 0 0) (Vec3.mk 0 0 0)
      stationary (phaseTime s).
Proof.
  intros Hstop. unfold updateBallPhysics. fold (stopCondition cfg s).
  now rewrite Hstop.
Qed.

Lemma calculateBallCollision_vy (a b : BallState) :
  let r := calculateBallCollision cfg a b in
  Vec3.y (velocity (ballA r)) = Vec3.y (velocity a)
  /\ Vec3.y (velocity (ballB r)) = Vec3.y (velocity b).
Proof.
  intros r. subst r. unfold calculateBallCollision.
  destruct (_ || _); [split; reflexivity|].
  fold (centreDistance a b). fold (normalX a b) (normalZ a b).
  fold (corrected cfg a b).
  destruct (corrected_velocity cfg a b) as [Ea Eb].
  destruct (corrected cfg a b) as [a' b']. cbn [fst snd] in *.
  destruct (leb _ 0).
  - cbn [ballA ballB]. now rewrite Ea, Eb.
  - match goal with |- context [impulseExchange cfg a' b' ?nx ?nz ?dvn ?dvt] =>
      destruct (impulseExchange_frame cfg a' b' nx nz dvn dvt) as (_ & _ & Ya & Yb)
    end.
    now rewrite Ya, Yb, Ea, Eb.
Qed.

Lemma calculateCushionRebound_vy (ball : BallState) (cushion : Rail.t)
    (impactSpeed : R) :
  Vec3.y (velocity (calculateCushionRebound cfg ball cushion impactSpeed))
  = Vec3.y (velocity ball).
Proof.
  unfold calculateCushionRebound. destruct (railNormal cushion). reflexivity.
Qed.

Lemma applyShot_vy (ball : BallState) (power angle spinX spinY : R)
    (maxSpeed : option R) :
  Vec3.y (velocity (applyShot cfg ball power angle spinX spinY maxSpeed))
  = Vec3.y (velocity ball).
Proof. reflexivity. Qed.

End VerticalVelocity.

Lemma liftedBall_stops : stopCondition PHYSICS_CONFIG liftedBall = true.
Proof.
  unfold stopCondition, speed, angularSpeed, getter, liftedBall. cbn.
  unfold speed_of, angularSpeed_of. cbn.
  rewrite norm2_zero.
  replace (0 * 0 + 0 * 0 + 0 * 0) with 0 by ring. rewrite sqrt_0.
  apply andb_true_intro; split; apply ltb_true; lra.
Qed.

(** C5, as stated, fails: [updateBallPhysics] on a ball below both stop
    thresholds assigns a fresh zero vector to [velocity], so a vertical
    velocity of 0.5 becomes 0. *)
Lemma C5_counterexample :
  Vec3.y (velocity (updateBallPhysics PHYSICS_CONFIG liftedBall (1 / 120)))
  <> Vec3.y (velocity liftedBall).
Proof.
  rewrite updateBallPhysics_stopped by apply liftedBall_stops.
  cbn. lra.
Qed.

(** C5, amended.  [velocity.y] after the call equals [velocity.y] before
    it for [calculateBallCollision] (both balls), [calculateCushionRebound]
    and [applyShot], and for [updateBallPhysics] whenever the stop test
    (speed below velocity_stop and angular speed below angular_stop) does
    not hold; when it holds the velocity is set to (0, 0, 0). *)
Theorem C5_vy_carried (cfg : Cfg.t) :
  (forall s dt, stopCondition cfg s = false ->
     Vec3.y (velocity (updateBallPhysics cfg s dt)) = Vec3.y (velocity s))
  /\ (forall s dt, stopCondition cfg s = true ->
     velocity (updateBallPhysics cfg s dt) = Vec3.mk 0 0 0)
  /\ (forall a b,
     Vec3.y (velocity (ballA (calculateBallCollision cfg a b)))
     = Vec3.y (velocity a)
     /\ Vec3.y (velocity (ballB (calculateBallCollision cfg a b)))
        = Vec3.y (velocity b))
  /\ (forall ball cushion impactSpeed,
     Vec3.y (velocity (calculateCushionRebound cfg ball cushion impactSpeed))
     = Vec3.y (velocity ball))
  /\ (forall ball power angle spinX spinY maxSpeed,
     Vec3.y (velocity (applyShot cfg ball power angle spinX spinY maxSpeed))
     = Vec3.y (velocity ball)).
Proof.
  split; [intros s dt; apply updateBallPhysics_moving|].
  split.
  { intros s dt H. now rewrite updateBallPhysics_stopped. }
  split; [intros a b; apply calculateBallCollision_vy|].
  split; [apply calculateCushionRebound_vy | apply applyShot_vy].
Qed.

Lemma headOnA_moves : stopCondition PHYSICS_CONFIG headOnA = false.
Proof.
  unfold stopCondition, speed, getter, headOnA, ballAt. cbn.
  unfold speed_of. cbn. rewrite norm2_0_r by lra.
  replace (ltb 2 0.002) with false by (symmetry; apply ltb_false; lra).
  reflexivity.
Qed.

Lemma C5_vy_carried_witness :
  stopCondition PHYSICS_CONFIG headOnA = false
  /\ Vec3.y (velocity (updateBallPhysics PHYSICS_CONFIG headOnA (1 / 120)))
     = Vec3.y (velocity headOnA).
Proof.
  split; [exact headOnA_moves|].
  exact (proj1 (C5_vy_carried PHYSICS_CONFIG) headOnA (1 / 120) headOnA_moves).
Defined.

(** ** applyShot *)

(** C10.  [applyShot] sets the rolling-plane spin to the axis
    (-cos angle, sin angle), which is perpendicular to the shot direction
    (sin angle, cos angle), times spinY (power maxSpeed / R) 2.5, to which
    0.4 (power maxSpeed / R) is added when spinY = 0 and nothing is added
    for any other spinY.  So at spinY = 0 the factor is 0.4 (power maxSpeed
    / R), while for spinY <> 0 it is 2.5 spinY (power maxSpeed / R), which
    tends to 0 with spinY. *)
Theorem C10_rolling_spin_of_shot (cfg : Cfg.t) (ball : BallState)
    (power angle spinX spinY : R) (maxSpeed : option R) :
  let ball' := applyShot cfg ball power angle spinX spinY maxSpeed in
  let natural := power * orDefault maxSpeed 8 / Cfg.radius (Cfg.ball cfg) in
  let w := spinY * natural * 2.5 + (if eqb spinY 0 then natural * 0.4 else 0) in
  Vec3.x (angularVelocity ball') = - cos angle * w
  /\ Vec3.z (angularVelocity ball') = sin angle * w
  /\ Vec3.x (velocity ball') = sin angle * (power * orDefault maxSpeed 8)
  /\ Vec3.z (velocity ball') = cos angle * (power * orDefault maxSpeed 8)
  /\ (- cos angle) * sin angle + sin angle * cos angle = 0
  /\ (spinY = 0 -> w = 0.4 * natural)
  /\ (spinY <> 0 -> w = spinY * natural * 2.5).
Proof.
  intros ball' natural w. subst ball'.
  unfold applyShot. cbn [angularVelocity velocity set_velocity
    set_angularVelocity set_phase set_phaseTime Vec3.x Vec3.z Vec3.set_xz].
  fold natural. fold w.
  repeat (split; [reflexivity || ring|]).
  split; intros H; subst w.
  - apply eqb_true in H as Hb. rewrite Hb, H. ring.
  - apply eqb_false in H as Hb. rewrite Hb. ring.
Qed.

(** A centre-ball shot at full power along z with the default maxSpeed. *)
Lemma C10_rolling_spin_of_shot_witness :
  (0 : R) = 0
  /\ Vec3.x (angularVelocity
       (applyShot PHYSICS_CONFIG newBallState 1 0 0 0 None))
     = - cos 0 * (0.4 * (1 * 8 / 0.02625)).
Proof.
  split; [reflexivity|].
  destruct (C10_rolling_spin_of_shot PHYSICS_CONFIG newBallState 1 0 0 0 None)
    as (Hx & _ & _ & _ & _ & H0 & _).
  rewrite Hx. rewrite (H0 eq_refl). reflexivity.
Defined.

(** ** Cushion restitution *)

Lemma clamp_mono (lo hi u v : R) :
  u <= v -> Rmax lo (Rmin hi u) <= Rmax lo (Rmin hi v).
Proof.
  intros H. unfold Rmin.
  destruct (Rle_dec hi u), (Rle_dec hi v); unfold Rmax;
    repeat match goal with |- context [Rle_dec ?p ?q] => destruct (Rle_dec p q) end;
    lra.
Qed.

Lemma clamp_bounds (lo hi u : R) :
  lo <= hi -> lo <= Rmax lo (Rmin hi u) <= hi.
Proof.
  intros H. unfold Rmin.
  destruct (Rle_dec hi u); unfold Rmax;
    repeat match goal with |- context [Rle_dec ?p ?q] => destruct (Rle_dec p q) end;
    lra.
Qed.

(** The clamp makes the coefficient lie in [0.65, 0.96] for every
    configuration, angle and impact speed. *)
Lemma effectiveCorOf_bounds (cfg : Cfg.t) (angleDeg impactSpeed : R) :
  0.65 <= effectiveCorOf cfg angleDeg impactSpeed <= 0.96.
Proof. unfold effectiveCorOf. apply clamp_bounds. lra. Qed.

(** The compression factor [1 - compressionLoss] of the shipped
    configuration is positive whatever the impact speed. *)
Lemma compression_factor_pos (impactSpeed : R) :
  0 < 1 - 0.08 * Rmin 1 (impactSpeed / 6) * 0.3.
Proof. pose proof (Rmin_l 1 (impactSpeed / 6)). lra. Qed.

(** C8.  With the shipped cushion configuration and a fixed impact speed,
    the effective coefficient of restitution is a non-decreasing function
    of the incidence angle (in degrees) on [8, 90). *)
Theorem C8_cor_monotone (impactSpeed a1 a2 : R) :
  8 <= a1 -> a1 <= a2 -> a2 < 90 ->
  effectiveCorOf PHYSICS_CONFIG a1 impactSpeed
  <= effectiveCorOf PHYSICS_CONFIG a2 impactSpeed.
Proof.
  intros H8 H12 H90. unfold effectiveCorOf. cbn.
  apply clamp_mono.
  apply Rmult_le_compat_r; [left; apply compression_factor_pos|].
  case_ltb; lra.
Qed.

Lemma C8_cor_monotone_witness :
  8 <= 20 /\ 20 <= 45 /\ 45 < 90
  /\ effectiveCorOf PHYSICS_CONFIG 20 1 <= effectiveCorOf PHYSICS_CONFIG 45 1.
Proof.
  split; [lra|]. split; [lra|]. split; [lra|].
  apply (C8_cor_monotone 1 20 45); lra.
Defined.

(** The coefficient is the factor of the reflected normal component: on the
    left rail the new x velocity is minus the old one times the coefficient
    at the incidence angle. *)
Lemma cushion_left_normal (cfg : Cfg.t) (ball : BallState) (impactSpeed : R) :
  Vec3.x (velocity (calculateCushionRebound cfg ball Rail.left impactSpeed))
  = - Vec3.x (velocity ball)
    * effectiveCorOf cfg
        (incidenceAngleDeg (Vec3.x (velocity ball)) (Vec3.z (velocity ball)))
        impactSpeed.
Proof.
  unfold calculateCushionRebound. cbn.
  replace (Vec3.x (velocity ball) * 1 + Vec3.z (velocity ball) * 0)
    with (Vec3.x (velocity ball)) by ring.
  replace (Vec3.x (velocity ball) * - 0 + Vec3.z (velocity ball) * 1)
    with (Vec3.z (velocity ball)) by ring.
  ring.
Qed.

(** ** Trajectory prediction *)

Section Prediction.

Variable cfg : Cfg.t.

Lemma slidingStep_proto (s : BallState) (slip : Vec2.t) (ss dt : R) :
  proto (slidingStep cfg s slip ss dt) = proto s.
Proof. unfold slidingStep. destruct (gtb _ 0.01); reflexivity. Qed.

Lemma rollingStep_proto (s : BallState) (dt : R) :
  proto (rollingStep cfg s dt) = proto s.
Proof.
  unfold rollingStep. destruct (speed _); [|reflexivity].
  destruct (gtb r 0.001); [|reflexivity].
  destruct (gtb r 0.0001); reflexivity.
Qed.

Lemma swerveStep_proto (s : BallState) (dt : R) :
  proto (swerveStep s dt) = proto s.
Proof.
  unfold swerveStep. destruct (_ && _); [|reflexivity].
  destruct (speed s); reflexivity.
Qed.

Lemma applyNapEffect_proto (s : BallState) (dt : R) :
  proto (applyNapEffect cfg s dt) = proto s.
Proof.
  unfold applyNapEffect. destruct (_ || _); [reflexivity|].
  destruct (speed s); [|reflexivity].
  destruct (ltb _ _); reflexivity.
Qed.

Lemma updateBallPhysics_proto (s : BallState) (dt : R) :
  proto (updateBallPhysics cfg s dt) = proto s.
Proof.
  unfold updateBallPhysics. destruct (_ && _); [reflexivity|].
  unfold integrateStep. cbn [proto set_position set_phaseTime].
  rewrite applyNapEffect_proto, swerveStep_proto.
  unfold sideSpinStep. cbn [proto set_angularVelocity].
  destruct (slipSpeed cfg s) as [ss|]; [|apply rollingStep_proto].
  destruct (slipVelocity cfg s) as [sl|]; [|apply rollingStep_proto].
  destruct (gtb ss _); [apply slidingStep_proto | apply rollingStep_proto].
Qed.

(** On a plain object [state.speed] is [undefined], so the test
    [state.speed < velocity_stop] that ends the loop is false. *)
Lemma plain_never_below (s : BallState) (v : R) :
  proto s = ObjectProto -> ltbU (speed s) v = false.
Proof. intros H. unfold speed, getter. now rewrite H. Qed.

Lemma predictLoop_plain_length (n : nat) (s : BallState) (dt : R) :
  proto s = ObjectProto -> length (predictLoop cfg n s dt) = n.
Proof.
  revert s. induction n as [|n IH]; intros s Hs; [reflexivity|].
  cbn [predictLoop].
  assert (Hs' : proto (updateBallPhysics cfg s dt) = ObjectProto)
    by now rewrite updateBallPhysics_proto.
  rewrite (plain_never_below _ _ Hs'). cbn [length].
  now rewrite IH.
Qed.

(** The trajectory always has [Math.ceil(duration / dt)] samples. *)
Lemma predictTrajectory_length (s : BallState) (duration dt : option R) :
  length (predictTrajectory cfg s duration dt)
  = Z.to_nat (ceil (orDefault duration 2 / orDefault dt 0.01)).
Proof. unfold predictTrajectory. now apply predictLoop_plain_length. Qed.

End Prediction.

Lemma ceil_IZR (k : Z) (a : R) : a = IZR k -> ceil a = k.
Proof.
  intros ->. unfold ceil.
  rewrite <- (tech_up (- IZR k) (1 - k)%Z).
  - lia.
  - rewrite minus_IZR. lra.
  - rewrite minus_IZR. lra.
Qed.

(** The loop itself does stop after one sample when it runs on an instance
    of the class that is at rest. *)
Lemma predictLoop_instance_at_rest (n : nat) (dt : R) :
  length (predictLoop PHYSICS_CONFIG (S n) newBallState dt) = 1%nat.
Proof.
  cbn [predictLoop].
  assert (Hstop : stopCondition PHYSICS_CONFIG newBallState = true).
  { unfold stopCondition, speed, angularSpeed, getter, newBallState. cbn.
    unfold speed_of, angularSpeed_of. cbn. rewrite norm2_zero.
    replace (0 * 0 + 0 * 0 + 0 * 0) with 0 by ring. rewrite sqrt_0.
    apply andb_true_intro; split; apply ltb_true; lra. }
  rewrite updateBallPhysics_stopped by exact Hstop.
  unfold speed, getter, newBallState. cbn. unfold speed_of. cbn.
  rewrite norm2_zero.
  replace (ltb 0 0.002) with true by (symmetry; apply ltb_true; lra).
  reflexivity.
Qed.

(** C9.  The code on a ball at rest, [new BallState()], with the default
    duration 2 and step 0.01: its planar speed 0 is below velocity_stop,
    and the trajectory has 200 samples, not at most one. *)
Theorem C9_trajectory_of_resting_ball :
  speed_of newBallState < Cfg.velocity_stop (Cfg.thresholds PHYSICS_CONFIG)
  /\ length (predictTrajectory PHYSICS_CONFIG newBallState None None) = 200%nat.
Proof.
  split.
  - unfold speed_of, newBallState. cbn. rewrite norm2_zero. lra.
  - rewrite predictTrajectory_length. cbn [orDefault].
    rewrite (ceil_IZR 200); [reflexivity|]. lra.
Qed.

(** ** Pure rolling *)

Lemma speed_instance (s : BallState) :
  proto s = BallStateProto -> speed s = Some (speed_of s).
Proof. intros H. unfold speed, getter. now rewrite H. Qed.

Lemma pureRolling_no_slip (s : BallState) :
  pureRolling PHYSICS_CONFIG s -> slipSpeed_of PHYSICS_CONFIG s = 0.
Proof.
  intros [Hx Hz]. unfold slipSpeed_of, slipVelocity_of, surfaceVelocity_of.
  cbn in *. rewrite Hx, Hz.
  replace (Vec3.x (velocity s) - Vec3.x (velocity s) / 0.02625 * 0.02625)
    with 0 by lra.
  replace (Vec3.z (velocity s) - - (- Vec3.z (velocity s) / 0.02625) * 0.02625)
    with 0 by lra.
  apply norm2_zero.
Qed.

(** Up to the nap effect, one step of a pure-rolling instance without side
    spin that is not below velocity_stop. *)
Lemma rolling_prefix (s : BallState) (dt : R) :
  proto s = BallStateProto ->
  pureRolling PHYSICS_CONFIG s ->
  Vec3.y (angularVelocity s) = 0 ->
  0.002 <= speed_of s ->
  updateBallPhysics PHYSICS_CONFIG s dt
  = integrateStep (applyNapEffect PHYSICS_CONFIG (rolled PHYSICS_CONFIG s dt) dt) dt.
Proof.
  intros Hp Hroll Hy Hv.
  unfold updateBallPhysics.
  rewrite (speed_instance s Hp).
  unfold slipSpeed, slipVelocity, angularSpeed, getter. rewrite Hp.
  cbn [ltbU Cfg.thresholds Cfg.velocity_stop Cfg.angular_stop
       Cfg.slip_threshold PHYSICS_CONFIG].
  replace (ltb (speed_of s) 0.002) with false
    by (symmetry; apply ltb_false; lra).
  cbn [andb].
  rewrite (pureRolling_no_slip s Hroll).
  replace (gtb 0 0.008) with false by (symmetry; apply gtb_false; lra).
  do 2 f_equal.
  unfold rollingStep.
  rewrite speed_instance by exact Hp.
  replace (speed_of (set_phase s rolling)) with (speed_of s) by reflexivity.
  replace (gtb (speed_of s) 0.001) with true by (symmetry; apply gtb_true; lra).
  replace (gtb (speed_of s) 0.0001) with true by (symmetry; apply gtb_true; lra).
  unfold sideSpinStep, swerveStep.
  cbn [angularVelocity velocity set_velocity set_angularVelocity set_phase
       Vec3.x Vec3.y Vec3.z Vec3.set_xz Vec3.set_y].
  rewrite Hy. rewrite Rmult_0_l, Rabs_R0.
  replace (gtb 0 0.5) with false by (symmetry; apply gtb_false; lra).
  cbn [andb]. reflexivity.
Qed.

Lemma rolled_speed (s : BallState) (dt : R) :
  0 < speed_of s ->
  speed_of (rolled PHYSICS_CONFIG s dt)
  = Rmax 0 (speed_of s - rollingDelta PHYSICS_CONFIG dt).
Proof.
  intros Hv. unfold rolled. unfold speed_of at 1. cbn [velocity Vec3.x Vec3.z].
  rewrite norm2_scale.
  - fold (speed_of s). field. lra.
  - apply div_nonneg; [apply Rmax_l | exact Hv].
Qed.

(** The nap effect does nothing when the direction does not oppose the nap
    beyond the threshold. *)
Lemma applyNapEffect_idle (s : BallState) (dt : R) :
  proto s = BallStateProto ->
  Vec3.z (velocity s) <= 0.3 * speed_of s ->
  applyNapEffect PHYSICS_CONFIG s dt = s.
Proof.
  intros Hp Hz. unfold applyNapEffect. rewrite (speed_instance s Hp).
  cbn [ltbU gtbU].
  destruct (ltb (speed_of s) 0.05) eqn:Hlo; [reflexivity|].
  destruct (gtb (speed_of s) 0.5); [reflexivity|].
  cbn [orb]. apply ltb_false in Hlo.
  match goal with |- (if ltb ?d _ then _ else _) = _ =>
    replace (ltb d (-0.3)) with false; [reflexivity|]
  end.
  symmetry. apply ltb_false. cbn.
  assert (Hq : Vec3.z (velocity s) / speed_of s <= 0.3).
  { apply Rmult_le_reg_r with (speed_of s); [lra|].
    unfold Rdiv. rewrite Rmult_assoc, Rinv_l by lra. lra. }
  lra.
Qed.

(** One step of a freely rolling ball: the speed drops by
    [rollingDelta], clamped at zero, the velocity is rescaled, the spin is
    the natural roll of the new velocity. *)
Lemma rolling_step (s : BallState) (dt : R) :
  rollsFreely s -> 0.002 <= speed_of s ->
  updateBallPhysics PHYSICS_CONFIG s dt
  = integrateStep (rolled PHYSICS_CONFIG s dt) dt.
Proof.
  intros (Hp & Hroll & Hy & Hz) Hv.
  rewrite rolling_prefix by assumption.
  rewrite applyNapEffect_idle; [reflexivity | exact Hp |].
  rewrite rolled_speed by lra.
  unfold rolled. cbn [velocity Vec3.z].
  set (d := Rmax 0 (speed_of s - rollingDelta PHYSICS_CONFIG dt)).
  assert (Hd : 0 <= d) by apply Rmax_l.
  replace (Vec3.z (velocity s) * (d / speed_of s))
    with (Vec3.z (velocity s) / speed_of s * d) by (field; lra).
  assert (Hq : Vec3.z (velocity s) / speed_of s <= 0.3).
  { apply Rmult_le_reg_r with (speed_of s); [lra|].
    unfold Rdiv. rewrite Rmult_assoc, Rinv_l by lra. lra. }
  nra.
Qed.

Lemma rolling_step_facts (s : BallState) (dt : R) :
  rollsFreely s -> 0.002 <= speed_of s ->
  rollingDelta PHYSICS_CONFIG dt <= speed_of s ->
  let s' := updateBallPhysics PHYSICS_CONFIG s dt in
  rollsFreely s'
  /\ speed_of s' = speed_of s - rollingDelta PHYSICS_CONFIG dt
  /\ Vec3.x (velocity s') = Vec3.x (velocity s) * (speed_of s' / speed_of s)
  /\ Vec3.z (velocity s') = Vec3.z (velocity s) * (speed_of s' / speed_of s).
Proof.
  intros Hfree Hv Hd s'. subst s'. rewrite rolling_step by assumption.
  destruct Hfree as (Hp & Hroll & Hy & Hz).
  assert (Hs : speed_of (integrateStep (rolled PHYSICS_CONFIG s dt) dt)
               = speed_of s - rollingDelta PHYSICS_CONFIG dt).
  { replace (speed_of (integrateStep (rolled PHYSICS_CONFIG s dt) dt))
      with (speed_of (rolled PHYSICS_CONFIG s dt)) by reflexivity.
    rewrite rolled_speed by lra. apply Rmax_right. lra. }
  rewrite Hs.
  assert (Hmax : Rmax 0 (speed_of s - rollingDelta PHYSICS_CONFIG dt)
                 = speed_of s - rollingDelta PHYSICS_CONFIG dt)
    by (apply Rmax_right; lra).
  unfold rollsFreely, pureRolling. rewrite Hs.
  unfold integrateStep, rolled.
  cbn [proto velocity angularVelocity set_position set_phaseTime
       Vec3.x Vec3.y Vec3.z Cfg.radius Cfg.ball PHYSICS_CONFIG].
  rewrite Hmax.
  repeat split; try reflexivity; try assumption.
  set (d := speed_of s - rollingDelta PHYSICS_CONFIG dt) in *.
  replace (Vec3.z (velocity s) * (d / speed_of s))
    with (Vec3.z (velocity s) / speed_of s * d) by (field; lra).
  assert (Hq : Vec3.z (velocity s) / speed_of s <= 0.3).
  { apply Rmult_le_reg_r with (speed_of s); [lra|].
    unfold Rdiv. rewrite Rmult_assoc, Rinv_l by lra. lra. }
  apply Rmult_le_compat_r; [subst d; lra | exact Hq].
Qed.

Lemma rollingDelta_shipped : rollingDelta PHYSICS_CONFIG (1 / 120) = 0.0001635.
Proof. unfold rollingDelta. cbn. lra. Qed.

Lemma norm2_ge_abs_r (a b : R) : Rabs b <= norm2 a b.
Proof.
  pose proof (norm2_nonneg a b) as Hn. pose proof (norm2_sqr a b) as Hs.
  unfold Rabs. destruct (Rcase_abs b); nra.
Qed.

(** The three ways in which [applyNapEffect] does nothing. *)
Lemma applyNapEffect_off (s : BallState) (dt : R) :
  proto s = BallStateProto ->
  0 < speed_of s ->
  Vec3.z (velocity s) <= 0.3 * speed_of s
  \/ speed_of s < 0.05 \/ 0.5 < speed_of s ->
  applyNapEffect PHYSICS_CONFIG s dt = s.
Proof.
  intros Hp Hv [Hz | [Hlo | Hhi]].
  - apply applyNapEffect_idle; assumption.
  - unfold applyNapEffect. rewrite (speed_instance s Hp). cbn [ltbU gtbU].
    apply ltb_true in Hlo. now rewrite Hlo.
  - unfold applyNapEffect. rewrite (speed_instance s Hp). cbn [ltbU gtbU].
    apply gtb_true in Hhi. rewrite Hhi. now rewrite orb_true_r.
Qed.

Lemma rolled_facts (s : BallState) :
  0.002 <= speed_of s ->
  let s1 := rolled PHYSICS_CONFIG s (1 / 120) in
  let k := (speed_of s - 0.0001635) / speed_of s in
  0 < k
  /\ speed_of s1 = speed_of s - 0.0001635
  /\ velocity s1
     = Vec3.mk (Vec3.x (velocity s) * k) (Vec3.y (velocity s))
               (Vec3.z (velocity s) * k)
  /\ angularVelocity s1
     = Vec3.mk (- (Vec3.z (velocity s) * k) / 0.02625) 0
               (Vec3.x (velocity s) * k / 0.02625)
  /\ proto s1 = proto s.
Proof.
  intros Hv s1 k. subst s1.
  assert (Hk : 0 < k) by (subst k; apply Rdiv_lt_0_compat; lra).
  split; [exact Hk|]. split.
  - rewrite rolled_speed by lra. rewrite rollingDelta_shipped.
    apply Rmax_right. lra.
  - unfold rolled. rewrite rollingDelta_shipped.
    rewrite Rmax_right by lra. fold k.
    cbn [velocity angularVelocity proto Cfg.ball Cfg.radius PHYSICS_CONFIG].
    repeat split; reflexivity.
Qed.

(** One step on which the nap is idle. *)
Lemma idle_step (s : BallState) :
  rollsPurely s ->
  0.002 <= speed_of s ->
  napIdleAt s 0 ->
  let s' := updateBallPhysics PHYSICS_CONFIG s (1 / 120) in
  rollsPurely s'
  /\ speed_of s' = speed_of s - 0.0001635
  /\ Vec3.x (velocity s') = Vec3.x (velocity s) * (speed_of s' / speed_of s)
  /\ Vec3.z (velocity s') = Vec3.z (velocity s) * (speed_of s' / speed_of s).
Proof.
  intros (Hp & Hroll & Hy) Hv Hidle s'. subst s'.
  rewrite rolling_prefix by assumption.
  destruct (rolled_facts s Hv) as (Hk & Hs1 & Hv1 & Hw1 & Hp1).
  cbv zeta in Hk, Hv1, Hw1.
  set (s1 := rolled PHYSICS_CONFIG s (1 / 120)) in *.
  set (k := (speed_of s - 0.0001635) / speed_of s) in *.
  assert (Hoff : applyNapEffect PHYSICS_CONFIG s1 (1 / 120) = s1).
  { apply applyNapEffect_off; [rewrite Hp1; exact Hp | rewrite Hs1; lra |].
    unfold napIdleAt in Hidle. rewrite rollingDelta_shipped in Hidle.
    cbn [INR] in Hidle. rewrite Hs1, Hv1. cbn [Vec3.z].
    destruct Hidle as [Hz | [Hlo | Hhi]]; [left|right; left; lra|right; right; lra].
    replace (speed_of s - 0.0001635) with (speed_of s * k)
      by (subst k; field; lra).
    nra. }
  rewrite Hoff.
  assert (Hs : speed_of (integrateStep s1 (1 / 120)) = speed_of s - 0.0001635)
    by exact Hs1.
  rewrite Hs. unfold rollsPurely, pureRolling.
  unfold integrateStep.
  cbn [proto velocity angularVelocity set_position set_phaseTime
       Cfg.radius Cfg.ball PHYSICS_CONFIG].
  rewrite Hv1, Hw1, Hp1. cbn [Vec3.x Vec3.y Vec3.z]. fold k.
  repeat split; try reflexivity; assumption.
Qed.

(** Repeated steps on which the nap is idle, by induction on their
    number. *)
Lemma idle_steps (n : nat) :
  forall s : BallState,
  rollsPurely s ->
  0.002 <= speed_of s - INR n * 0.0001635 ->
  (forall k : nat, (k <= n)%nat -> napIdleAt s k) ->
  let s' := advance PHYSICS_CONFIG (S n) s (1 / 120) in
  rollsPurely s'
  /\ speed_of s' = speed_of s - INR (S n) * 0.0001635
  /\ Vec3.x (velocity s') = Vec3.x (velocity s) * (speed_of s' / speed_of s)
  /\ Vec3.z (velocity s') = Vec3.z (velocity s) * (speed_of s' / speed_of s).
Proof.
  induction n as [|n IH]; intros s Hpure Hv Hidle.
  - cbn [advance INR] in *.
    destruct (idle_step s Hpure) as (F & Hs & Hx & Hz);
      [lra | apply Hidle; lia |].
    repeat split; try assumption; try apply F. rewrite Hs. lra.
  - pose proof (pos_INR n) as Hn. rewrite S_INR in Hv.
    destruct (idle_step s Hpure) as (F & Hs & Hx & Hz);
      [lra | apply Hidle; lia |].
    set (s1 := updateBallPhysics PHYSICS_CONFIG s (1 / 120)) in *.
    assert (Hidle1 : forall k : nat, (k <= n)%nat -> napIdleAt s1 k).
    { intros k Hk. specialize (Hidle (S k) ltac:(lia)).
      unfold napIdleAt in *. rewrite rollingDelta_shipped in *.
      rewrite Hs. rewrite (S_INR (S k)) in Hidle.
      destruct Hidle as [Hd | [Hlo | Hhi]];
        [left | right; left; lra | right; right; lra].
      rewrite Hz, Hs.
      replace (speed_of s - 0.0001635)
        with (speed_of s * ((speed_of s - 0.0001635) / speed_of s))
        by (field; lra).
      assert (0 < (speed_of s - 0.0001635) / speed_of s)
        by (apply Rdiv_lt_0_compat; lra).
      replace (speed_of s * ((speed_of s - 0.0001635) / speed_of s)
               / speed_of s)
        with ((speed_of s - 0.0001635) / speed_of s) by (field; lra).
      nra. }
    destruct (IH s1 F) as (F' & Hs' & Hx' & Hz'); [lra | exact Hidle1 |].
    change (advance PHYSICS_CONFIG (S (S n)) s (1 / 120))
      with (advance PHYSICS_CONFIG (S n) s1 (1 / 120)).
    set (s2 := advance PHYSICS_CONFIG (S n) s1 (1 / 120)) in *.
    rewrite S_INR in Hs'.
    split; [exact F'|].
    split; [rewrite Hs', Hs, !S_INR; lra|].
    split.
    + rewrite Hx', Hx. field. lra.
    + rewrite Hz', Hz. field. lra.
Qed.

(** One step on which the nap acts: it takes a further
    nap_drift_factor |napDot| g dt off the speed after the spin has been
    synchronised with the velocity. *)
Lemma active_step (s : BallState) :
  rollsPurely s ->
  0.002 <= speed_of s ->
  ~ napIdleAt s 0 ->
  let s' := updateBallPhysics PHYSICS_CONFIG s (1 / 120) in
  speed_of s' < speed_of s - 0.0001635
  /\ ~ pureRolling PHYSICS_CONFIG s'.
Proof.
  intros (Hp & Hroll & Hy) Hv Hact s'. subst s'.
  unfold napIdleAt in Hact. rewrite rollingDelta_shipped in Hact.
  cbn [INR] in Hact.
  assert (Hdir : 0.3 * speed_of s < Vec3.z (velocity s)).
  { apply Rnot_le_lt. intros H. apply Hact. now left. }
  assert (Hlo : 0.05 <= speed_of s - 0.0001635).
  { apply Rnot_lt_le. intros H. apply Hact. right; left. lra. }
  assert (Hhi : speed_of s - 0.0001635 <= 0.5).
  { apply Rnot_lt_le. intros H. apply Hact. right; right. lra. }
  rewrite rolling_prefix by assumption.
  destruct (rolled_facts s Hv) as (Hk & Hs1 & Hv1 & Hw1 & Hp1).
  cbv zeta in Hk, Hv1, Hw1.
  set (s1 := rolled PHYSICS_CONFIG s (1 / 120)) in *.
  set (k := (speed_of s - 0.0001635) / speed_of s) in *.
  set (v1 := speed_of s - 0.0001635) in *.
  set (vx := Vec3.x (velocity s)) in *.
  set (vz := Vec3.z (velocity s)) in *.
  assert (Hv1k : v1 = speed_of s * k) by (subst v1 k; field; lra).
  (* the direction of the rolled velocity is that of the velocity *)
  assert (Hq : vz * k / v1 = vz / speed_of s)
    by (rewrite Hv1k; field; split; lra).
  assert (Hq3 : 0.3 < vz / speed_of s).
  { apply Rmult_lt_reg_r with (speed_of s); [lra|].
    unfold Rdiv. rewrite Rmult_assoc, Rinv_l by lra. lra. }
  assert (Hq1 : vz / speed_of s <= 1).
  { pose proof (norm2_ge_abs_r vx vz) as Hn.
    change (Rabs vz <= speed_of s) in Hn.
    pose proof (Rle_abs vz) as Ha.
    apply Rmult_le_reg_r with (speed_of s); [lra|].
    unfold Rdiv. rewrite Rmult_assoc, Rinv_l by lra. lra. }
  set (d := vz / speed_of s) in *.
  set (E := 0.0002 * d * 9.81 * (1 / 120)).
  assert (HE : 0 < E <= 0.00001635) by (subst E; split; nra).
  assert (Hnapv : velocity (applyNapEffect PHYSICS_CONFIG s1 (1 / 120))
                  = Vec3.mk (vx * k * (1 - E / v1)) (Vec3.y (velocity s))
                            (vz * k * (1 - E / v1))).
  { unfold applyNapEffect. rewrite speed_instance by (rewrite Hp1; exact Hp).
    cbn [ltbU gtbU]. rewrite Hs1.
    replace (ltb v1 0.05) with false by (symmetry; apply ltb_false; lra).
    replace (gtb v1 0.5) with false by (symmetry; apply gtb_false; lra).
    cbn [orb]. rewrite Hv1.
    cbn [Vec3.x Vec3.z Cfg.world Cfg.nap_direction Cfg.nap_drift_factor
         Cfg.gravity PHYSICS_CONFIG Vec2.x Vec2.z].
    replace (vx * k / v1 * 0 + vz * k / v1 * -1) with (- d)
      by (rewrite Hq; ring).
    replace (ltb (- d) (-0.3)) with true by (symmetry; apply ltb_true; lra).
    rewrite Rabs_Ropp, (Rabs_right d) by lra.
    cbn [velocity set_velocity]. unfold Vec3.set_xz.
    cbn [Vec3.x Vec3.y Vec3.z]. fold E.
    f_equal; field; lra. }
  assert (Hnapw : angularVelocity (applyNapEffect PHYSICS_CONFIG s1 (1 / 120))
                  = angularVelocity s1).
  { unfold applyNapEffect. destruct (_ || _); [reflexivity|].
    destruct (speed _); [|reflexivity]. destruct (ltb _ _); reflexivity. }
  assert (Hf : 0 < 1 - E / v1 < 1).
  { assert (0 < E / v1) by (apply Rdiv_lt_0_compat; lra).
    assert (E / v1 < 1).
    { apply Rmult_lt_reg_r with v1; [lra|].
      unfold Rdiv. rewrite Rmult_assoc, Rinv_l by lra. lra. }
    lra. }
  split.
  - unfold speed_of, integrateStep.
    cbn [velocity set_position set_phaseTime]. rewrite Hnapv.
    cbn [Vec3.x Vec3.z].
    rewrite norm2_scale by lra.
    assert (Hn1 : norm2 (vx * k) (vz * k) = v1).
    { rewrite norm2_scale by lra. change (norm2 vx vz) with (speed_of s).
      lra. }
    rewrite Hn1. nra.
  - intros [Hx _]. unfold integrateStep in Hx.
    cbn [velocity angularVelocity set_position set_phaseTime] in Hx.
    rewrite Hnapv, Hnapw, Hw1 in Hx.
    cbn [Vec3.x Vec3.z Cfg.ball Cfg.radius PHYSICS_CONFIG] in Hx.
    assert (Hvz : 0 < vz * k) by (apply Rmult_lt_0_compat; lra).
    assert (Heq : vz * k = vz * k * (1 - E / v1)) by lra.
    nra.
Qed.

(** C7, as stated, fails: a ball in pure rolling (slip 0) without side
    spin, moving at 0.3 m/s against the nap, loses in one step of 1/120 s
    more than mu_roll g dt, because [applyNapEffect] takes off a further
    nap_drift_factor g dt after the spin was synchronised; its spin then no
    longer satisfies the no-slip condition. *)
Lemma C7_counterexample :
  pureRolling PHYSICS_CONFIG napSlowBall
  /\ Vec3.y (angularVelocity napSlowBall) = 0
  /\ slipSpeed_of PHYSICS_CONFIG napSlowBall = 0
  /\ Cfg.velocity_stop (Cfg.thresholds PHYSICS_CONFIG) <= speed_of napSlowBall
  /\ speed_of (updateBallPhysics PHYSICS_CONFIG napSlowBall (1 / 120))
     < speed_of napSlowBall - rollingDelta PHYSICS_CONFIG (1 / 120)
  /\ ~ pureRolling PHYSICS_CONFIG
         (updateBallPhysics PHYSICS_CONFIG napSlowBall (1 / 120)).
Proof.
  assert (Hroll : pureRolling PHYSICS_CONFIG napSlowBall)
    by (split; cbn; lra).
  assert (Hsp : speed_of napSlowBall = 0.3).
  { unfold speed_of, napSlowBall. cbn. apply norm2_0_r. lra. }
  split; [exact Hroll|]. split; [reflexivity|].
  split; [now apply pureRolling_no_slip|].
  split; [rewrite Hsp; cbn; lra|].
  rewrite rolling_prefix; [| reflexivity | exact Hroll | reflexivity | lra].
  assert (Hrs : speed_of (rolled PHYSICS_CONFIG napSlowBall (1 / 120))
                = 0.3 - 0.0001635).
  { rewrite rolled_speed by lra. rewrite Hsp, rollingDelta_shipped.
    apply Rmax_right. lra. }
  assert (Hvel : velocity (rolled PHYSICS_CONFIG napSlowBall (1 / 120))
                 = Vec3.mk 0 0 (0.3 - 0.0001635)).
  { unfold rolled. rewrite Hsp, rollingDelta_shipped.
    rewrite Rmax_right by lra. cbn. f_equal; lra. }
  assert (Hnap : velocity (applyNapEffect PHYSICS_CONFIG
                   (rolled PHYSICS_CONFIG napSlowBall (1 / 120)) (1 / 120))
                 = Vec3.mk 0 0 (0.3 - 0.0001635 - 0.00001635)).
  { unfold applyNapEffect. rewrite speed_instance by reflexivity.
    cbn [ltbU gtbU]. rewrite Hrs.
    replace (ltb (0.3 - 0.0001635) 0.05) with false
      by (symmetry; apply ltb_false; lra).
    replace (gtb (0.3 - 0.0001635) 0.5) with false
      by (symmetry; apply gtb_false; lra).
    cbn [orb]. rewrite Hvel.
    cbn [Vec3.x Vec3.z Cfg.world Cfg.nap_direction Cfg.nap_drift_factor
         Cfg.gravity PHYSICS_CONFIG Vec2.x Vec2.z].
    replace (0 / (0.3 - 0.0001635) * 0
             + (0.3 - 0.0001635) / (0.3 - 0.0001635) * -1) with (-1) by lra.
    replace (ltb (-1) (-0.3)) with true by (symmetry; apply ltb_true; lra).
    replace (Rabs (-1)) with 1 by (rewrite Rabs_left; lra).
    cbn [velocity set_velocity]. unfold Vec3.set_xz. cbn [Vec3.y].
    f_equal; lra. }
  assert (Hw : angularVelocity (applyNapEffect PHYSICS_CONFIG
                   (rolled PHYSICS_CONFIG napSlowBall (1 / 120)) (1 / 120))
               = angularVelocity (rolled PHYSICS_CONFIG napSlowBall (1 / 120))).
  { unfold applyNapEffect. destruct (_ || _); [reflexivity|].
    destruct (speed _); [|reflexivity]. destruct (ltb _ _); reflexivity. }
  split.
  - rewrite Hsp, rollingDelta_shipped.
    unfold speed_of, integrateStep.
    cbn [velocity set_position set_phaseTime]. rewrite Hnap.
    cbn [Vec3.x Vec3.z]. rewrite norm2_0_r by lra. lra.
  - intros [Hx _]. unfold integrateStep in Hx.
    cbn [velocity angularVelocity set_position set_phaseTime] in Hx.
    rewrite Hnap, Hw in Hx. unfold rolled in Hx.
    rewrite Hsp, rollingDelta_shipped in Hx.
    rewrite Rmax_right in Hx by lra. cbn in Hx. lra.
Qed.

(** C7, amended.  A ball instance in pure rolling without side spin,
    advanced by [updateBallPhysics] with dt = 1/120.  As long as the speed
    before a step is not below velocity_stop and [applyNapEffect] does
    nothing in the step (the speed after the rolling deceleration is below
    0.05 or above 0.5, or the direction does not oppose the nap beyond the
    threshold, vz <= 0.3 speed), every step takes exactly mu_roll g dt off
    the speed (the clamp at zero is not reached), the velocity keeps its
    direction, the spin is the natural roll of the velocity and the side
    spin stays 0.  In a step in which [applyNapEffect] acts the speed
    drops by more than mu_roll g dt and the spin is no longer the natural
    roll of the velocity. *)
Theorem C7_pure_rolling_decay (s : BallState) :
  rollsPurely s ->
  (forall n : nat,
     Cfg.velocity_stop (Cfg.thresholds PHYSICS_CONFIG)
     <= speed_of s - INR n * rollingDelta PHYSICS_CONFIG (1 / 120) ->
     (forall k : nat, (k <= n)%nat -> napIdleAt s k) ->
     let s' := advance PHYSICS_CONFIG (S n) s (1 / 120) in
     speed_of s'
     = speed_of s - INR (S n) * rollingDelta PHYSICS_CONFIG (1 / 120)
     /\ Vec3.x (velocity s') = Vec3.x (velocity s) * (speed_of s' / speed_of s)
     /\ Vec3.z (velocity s') = Vec3.z (velocity s) * (speed_of s' / speed_of s)
     /\ pureRolling PHYSICS_CONFIG s'
     /\ Vec3.y (angularVelocity s') = 0)
  /\ (Cfg.velocity_stop (Cfg.thresholds PHYSICS_CONFIG) <= speed_of s ->
      ~ napIdleAt s 0 ->
      let s' := updateBallPhysics PHYSICS_CONFIG s (1 / 120) in
      speed_of s' < speed_of s - rollingDelta PHYSICS_CONFIG (1 / 120)
      /\ ~ pureRolling PHYSICS_CONFIG s').
Proof.
  intros Hpure. rewrite rollingDelta_shipped. split.
  - intros n Hv Hidle s'. cbn in Hv.
    destruct (idle_steps n s Hpure Hv Hidle) as (F & Hs & Hx & Hz).
    fold s' in F, Hs, Hx, Hz.
    destruct F as (_ & Hroll & Hy).
    repeat split; try assumption; apply Hroll.
  - intros Hv Hact. cbn in Hv. exact (active_step s Hpure Hv Hact).
Qed.

Lemma withNapBall_rollsFreely : rollsFreely withNapBall.
Proof.
  unfold rollsFreely, pureRolling, withNapBall, speed_of. cbn.
  rewrite norm2_0_r_abs. rewrite Rabs_left by lra.
  repeat split; lra.
Qed.

Lemma napCreepBall_speed : speed_of napCreepBall = 0.04.
Proof. unfold speed_of, napCreepBall. cbn. apply norm2_0_r. lra. Qed.

Lemma napSlowBall_speed : speed_of napSlowBall = 0.3.
Proof. unfold speed_of, napSlowBall. cbn. apply norm2_0_r. lra. Qed.

Lemma C7_pure_rolling_decay_witness :
  (rollsPurely napCreepBall
   /\ Cfg.velocity_stop (Cfg.thresholds PHYSICS_CONFIG)
      <= speed_of napCreepBall
         - INR 2 * rollingDelta PHYSICS_CONFIG (1 / 120)
   /\ (forall k : nat, (k <= 2)%nat -> napIdleAt napCreepBall k)
   /\ speed_of (advance PHYSICS_CONFIG 3 napCreepBall (1 / 120))
      = speed_of napCreepBall
        - INR 3 * rollingDelta PHYSICS_CONFIG (1 / 120))
  /\ (rollsPurely napSlowBall
      /\ Cfg.velocity_stop (Cfg.thresholds PHYSICS_CONFIG)
         <= speed_of napSlowBall
      /\ ~ napIdleAt napSlowBall 0
      /\ speed_of (updateBallPhysics PHYSICS_CONFIG napSlowBall (1 / 120))
         < speed_of napSlowBall - rollingDelta PHYSICS_CONFIG (1 / 120)).
Proof.
  assert (Hp1 : rollsPurely napCreepBall).
  { unfold rollsPurely, pureRolling, napCreepBall. cbn. repeat split; lra. }
  assert (Hv1 : Cfg.velocity_stop (Cfg.thresholds PHYSICS_CONFIG)
                <= speed_of napCreepBall
                   - INR 2 * rollingDelta PHYSICS_CONFIG (1 / 120)).
  { rewrite rollingDelta_shipped, napCreepBall_speed. cbn. lra. }
  assert (Hi1 : forall k : nat, (k <= 2)%nat -> napIdleAt napCreepBall k).
  { intros k _. right; left.
    rewrite rollingDelta_shipped, napCreepBall_speed.
    pose proof (pos_INR (S k)). nra. }
  assert (Hp2 : rollsPurely napSlowBall).
  { unfold rollsPurely, pureRolling, napSlowBall. cbn. repeat split; lra. }
  assert (Hv2 : Cfg.velocity_stop (Cfg.thresholds PHYSICS_CONFIG)
                <= speed_of napSlowBall).
  { rewrite napSlowBall_speed. cbn. lra. }
  assert (Hi2 : ~ napIdleAt napSlowBall 0).
  { unfold napIdleAt. rewrite rollingDelta_shipped, napSlowBall_speed.
    cbn. lra. }
  split.
  - split; [exact Hp1|]. split; [exact Hv1|]. split; [exact Hi1|].
    exact (proj1 (proj1 (C7_pure_rolling_decay napCreepBall Hp1) 2%nat
                    Hv1 Hi1)).
  - split; [exact Hp2|]. split; [exact Hv2|]. split; [exact Hi2|].
    exact (proj1 (proj2 (C7_pure_rolling_decay napSlowBall Hp2) Hv2 Hi2)).
Defined.

(** ** Energy *)

Lemma speed_of_sqr (s : BallState) :
  speed_of s * speed_of s
  = Vec3.x (velocity s) * Vec3.x (velocity s)
    + Vec3.z (velocity s) * Vec3.z (velocity s).
Proof. apply norm2_sqr. Qed.





Lemma impulseExchange_velocity (cfg : Cfg.t) (a b : BallState)
    (nx nz dvn dvt : R) :
  let r := impulseExchange cfg a b nx nz dvn dvt in
  let m := Cfg.mass (Cfg.ball cfg) in
  let nI := (1 + Cfg.restitution_ball_ball (Cfg.ball cfg)) * m * dvn / 2 in
  let f := frictionImpulseOf cfg nI dvn
             (dvt + Vec3.y (angularVelocity a) * Cfg.radius (Cfg.ball cfg)) in
  Vec3.x (velocity (ballA r)) = Vec3.x (velocity a) - (nI * nx + f * - nz) / m
  /\ Vec3.z (velocity (ballA r)) = Vec3.z (velocity a) - (nI * nz + f * nx) / m
  /\ Vec3.x (velocity (ballB r)) = Vec3.x (velocity b) + (nI * nx + f * - nz) / m
  /\ Vec3.z (velocity (ballB r)) = Vec3.z (velocity b) + (nI * nz + f * nx) / m.
Proof.
  unfold impulseExchange. destruct (gtb _ 0.01); cbn; repeat split; reflexivity.
Qed.


(** *** Cushion rebound *)

Lemma atan_nonneg (u : R) : 0 <= u -> 0 <= atan u.
Proof.
  intros [H | <-].
  - left. rewrite <- atan_0. now apply atan_increasing.
  - rewrite atan_0. lra.
Qed.











(** *** Where the energy grows *)








(** * Further properties of the engine *)

(** ** The stop state of [updateBallPhysics] *)

Lemma stopCondition_instance (cfg : Cfg.t) (s : BallState) :
  stopCondition cfg s = true -> proto s = BallStateProto.
Proof.
  unfold stopCondition, speed, getter. destruct (proto s); [reflexivity|].
  cbn. discriminate.
Qed.

Lemma stopped_state_stops (cfg : Cfg.t) (p : Vec3.t) (t : R) :
  0 < Cfg.velocity_stop (Cfg.thresholds cfg) ->
  0 < Cfg.angular_stop (Cfg.thresholds cfg) ->
  stopCondition cfg
    (mkBallState BallStateProto p (Vec3.mk 0 0 0) (Vec3.mk 0 0 0) stationary t)
  = true.
Proof.
  intros Hv Hw. unfold stopCondition, speed, angularSpeed, getter.
  cbn [proto ltbU]. unfold speed_of, angularSpeed_of.
  cbn [velocity angularVelocity Vec3.x Vec3.y Vec3.z].
  rewrite norm2_zero.
  replace (0 * 0 + 0 * 0 + 0 * 0) with 0 by ring. rewrite sqrt_0.
  apply andb_true_intro; split; apply ltb_true; assumption.
Qed.

(** X1.  A ball below both stop thresholds is set to rest by one call of
    [updateBallPhysics]: velocity and angular velocity are exactly zero and
    the phase is [stationary], while position and phaseTime are left as
    they were; with positive thresholds a further call, with any time step,
    changes nothing. *)
Theorem X1_stop_is_fixed_point (cfg : Cfg.t) (s : BallState) (dt dt' : R) :
  0 < Cfg.velocity_stop (Cfg.thresholds cfg) ->
  0 < Cfg.angular_stop (Cfg.thresholds cfg) ->
  stopCondition cfg s = true ->
  let s1 := updateBallPhysics cfg s dt in
  velocity s1 = Vec3.mk 0 0 0
  /\ angularVelocity s1 = Vec3.mk 0 0 0
  /\ phase s1 = stationary
  /\ position s1 = position s
  /\ phaseTime s1 = phaseTime s
  /\ updateBallPhysics cfg s1 dt' = s1.
Proof.
  intros Hv Hw Hstop s1. subst s1.
  rewrite (updateBallPhysics_stopped cfg s dt Hstop).
  cbn [velocity angularVelocity phase position phaseTime].
  do 5 (split; [reflexivity|]).
  rewrite (stopCondition_instance cfg s Hstop).
  now rewrite updateBallPhysics_stopped by now apply stopped_state_stops.
Qed.

Lemma X1_stop_is_fixed_point_witness :
  0 < Cfg.velocity_stop (Cfg.thresholds PHYSICS_CONFIG)
  /\ 0 < Cfg.angular_stop (Cfg.thresholds PHYSICS_CONFIG)
  /\ stopCondition PHYSICS_CONFIG liftedBall = true
  /\ updateBallPhysics PHYSICS_CONFIG
       (updateBallPhysics PHYSICS_CONFIG liftedBall (1 / 120)) (1 / 60)
     = updateBallPhysics PHYSICS_CONFIG liftedBall (1 / 120).
Proof.
  assert (Hv : 0 < Cfg.velocity_stop (Cfg.thresholds PHYSICS_CONFIG))
    by (cbn; lra).
  assert (Hw : 0 < Cfg.angular_stop (Cfg.thresholds PHYSICS_CONFIG))
    by (cbn; lra).
  split; [exact Hv|]. split; [exact Hw|]. split; [exact liftedBall_stops|].
  apply (X1_stop_is_fixed_point PHYSICS_CONFIG liftedBall (1 / 120) (1 / 60)
           Hv Hw liftedBall_stops).
Defined.

(** ** The phase that [updateBallPhysics] leaves *)

Section PhaseAfterUpdate.

Variable cfg : Cfg.t.

Lemma slidingStep_phase (s : BallState) (slip : Vec2.t) (ss dt : R) :
  phase (slidingStep cfg s slip ss dt) = sliding.
Proof. unfold slidingStep. destruct (gtb _ 0.01); reflexivity. Qed.

Lemma rollingStep_phase (s : BallState) (dt : R) :
  phase (rollingStep cfg s dt) = rolling.
Proof.
  unfold rollingStep. destruct (speed _); [|reflexivity].
  destruct (gtb r 0.001); [|reflexivity].
  destruct (gtb r 0.0001); reflexivity.
Qed.

Lemma swerveStep_phase (s : BallState) (dt : R) :
  phase (swerveStep s dt) = phase s.
Proof.
  unfold swerveStep. destruct (_ && _); [|reflexivity].
  destruct (speed s); reflexivity.
Qed.

Lemma applyNapEffect_phase (s : BallState) (dt : R) :
  phase (applyNapEffect cfg s dt) = phase s.
Proof.
  unfold applyNapEffect. destruct (_ || _); [reflexivity|].
  destruct (speed s); [|reflexivity].
  destruct (ltb _ _); reflexivity.
Qed.

(** After the friction branch the phase is not touched any more. *)
Lemma updateBallPhysics_phase_moving (s : BallState) (dt : R) :
  stopCondition cfg s = false ->
  phase (updateBallPhysics cfg s dt)
  = phase
      (match slipSpeed cfg s, slipVelocity cfg s with
       | Some ss, Some sl =>
           if gtb ss (Cfg.slip_threshold (Cfg.thresholds cfg))
           then slidingStep cfg s sl ss dt
           else rollingStep cfg s dt
       | _, _ => rollingStep cfg s dt
       end).
Proof.
  intros Hstop. unfold updateBallPhysics. fold (stopCondition cfg s).
  rewrite Hstop. unfold integrateStep.
  cbn [phase set_position set_phaseTime].
  rewrite applyNapEffect_phase, swerveStep_phase. reflexivity.
Qed.

End PhaseAfterUpdate.

(** X2.  For a ball instance that is not stopped by the call, the phase
    after [updateBallPhysics] is decided by the slip speed at entry alone:
    [sliding] when it exceeds slip_threshold, [rolling] otherwise; in
    particular a ball for which [isRolling()] holds leaves the call
    [rolling], and the phase is never [stationary]. *)
Theorem X2_phase_follows_slip (cfg : Cfg.t) (s : BallState) (dt : R) :
  proto s = BallStateProto ->
  stopCondition cfg s = false ->
  (Cfg.slip_threshold (Cfg.thresholds cfg) < slipSpeed_of cfg s ->
   phase (updateBallPhysics cfg s dt) = sliding)
  /\ (slipSpeed_of cfg s <= Cfg.slip_threshold (Cfg.thresholds cfg) ->
      phase (updateBallPhysics cfg s dt) = rolling)
  /\ (isRolling cfg s = true -> phase (updateBallPhysics cfg s dt) = rolling)
  /\ phase (updateBallPhysics cfg s dt) <> stationary.
Proof.
  intros Hp Hstop. rewrite (updateBallPhysics_phase_moving cfg s dt Hstop).
  unfold slipSpeed, slipVelocity, getter. rewrite Hp.
  assert (Hhi : Cfg.slip_threshold (Cfg.thresholds cfg) < slipSpeed_of cfg s ->
                phase (if gtb (slipSpeed_of cfg s)
                            (Cfg.slip_threshold (Cfg.thresholds cfg))
                       then slidingStep cfg s (slipVelocity_of cfg s)
                              (slipSpeed_of cfg s) dt
                       else rollingStep cfg s dt) = sliding).
  { intros H. apply gtb_true in H. rewrite H. apply slidingStep_phase. }
  assert (Hlo : slipSpeed_of cfg s <= Cfg.slip_threshold (Cfg.thresholds cfg) ->
                phase (if gtb (slipSpeed_of cfg s)
                            (Cfg.slip_threshold (Cfg.thresholds cfg))
                       then slidingStep cfg s (slipVelocity_of cfg s)
                              (slipSpeed_of cfg s) dt
                       else rollingStep cfg s dt) = rolling).
  { intros H. apply gtb_false in H. rewrite H. apply rollingStep_phase. }
  split; [exact Hhi|]. split; [exact Hlo|]. split.
  - intros H. apply Hlo. unfold isRolling in H. apply ltb_true in H. lra.
  - destruct (Rlt_dec (Cfg.slip_threshold (Cfg.thresholds cfg))
                (slipSpeed_of cfg s)) as [H | H].
    + rewrite (Hhi H). discriminate.
    + rewrite Hlo by lra. discriminate.
Qed.

Lemma X2_phase_follows_slip_witness :
  proto withNapBall = BallStateProto
  /\ stopCondition PHYSICS_CONFIG withNapBall = false
  /\ isRolling PHYSICS_CONFIG withNapBall = true
  /\ phase (updateBallPhysics PHYSICS_CONFIG withNapBall (1 / 120)) = rolling.
Proof.
  assert (Hsp : speed_of withNapBall = 1).
  { unfold speed_of, withNapBall. cbn. rewrite norm2_0_r_abs.
    rewrite Rabs_left; lra. }
  assert (Hstop : stopCondition PHYSICS_CONFIG withNapBall = false).
  { unfold stopCondition. rewrite speed_instance by reflexivity.
    cbn [ltbU]. rewrite Hsp.
    replace (ltb 1 (Cfg.velocity_stop (Cfg.thresholds PHYSICS_CONFIG)))
      with false by (symmetry; apply ltb_false; cbn; lra).
    reflexivity. }
  assert (Hroll : isRolling PHYSICS_CONFIG withNapBall = true).
  { unfold isRolling.
    rewrite (pureRolling_no_slip withNapBall)
      by (destruct withNapBall_rollsFreely as (_ & H & _); exact H).
    apply ltb_true. cbn. lra. }
  split; [reflexivity|]. split; [exact Hstop|]. split; [exact Hroll|].
  destruct (X2_phase_follows_slip PHYSICS_CONFIG withNapBall (1 / 120)
              eq_refl Hstop) as (_ & _ & H & _).
  exact (H Hroll).
Defined.

(** ** Side spin under [updateBallPhysics] *)

Section SideSpin.

Variable cfg : Cfg.t.

Lemma slidingStep_wy (s : BallState) (slip : Vec2.t) (ss dt : R) :
  Vec3.y (angularVelocity (slidingStep cfg s slip ss dt))
  = Vec3.y (angularVelocity s).
Proof. unfold slidingStep. destruct (gtb _ 0.01); reflexivity. Qed.

Lemma rollingStep_wy (s : BallState) (dt : R) :
  Vec3.y (angularVelocity (rollingStep cfg s dt)) = Vec3.y (angularVelocity s).
Proof.
  unfold rollingStep. destruct (speed _); [|reflexivity].
  destruct (gtb r 0.001); [|reflexivity].
  destruct (gtb r 0.0001); reflexivity.
Qed.

Lemma swerveStep_w (s : BallState) (dt : R) :
  angularVelocity (swerveStep s dt) = angularVelocity s.
Proof.
  unfold swerveStep. destruct (_ && _); [|reflexivity].
  destruct (speed s); reflexivity.
Qed.

Lemma applyNapEffect_w (s : BallState) (dt : R) :
  angularVelocity (applyNapEffect cfg s dt) = angularVelocity s.
Proof.
  unfold applyNapEffect. destruct (_ || _); [reflexivity|].
  destruct (speed s); [|reflexivity].
  destruct (ltb _ _); reflexivity.
Qed.

(** A call that does not stop the ball multiplies the side spin by
    0.995 ^ (60 dt) and does nothing else to it. *)
Lemma updateBallPhysics_wy (s : BallState) (dt : R) :
  stopCondition cfg s = false ->
  Vec3.y (angularVelocity (updateBallPhysics cfg s dt))
  = Vec3.y (angularVelocity s) * pow 0.995 (dt * 60).
Proof.
  intros Hstop. unfold updateBallPhysics. fold (stopCondition cfg s).
  rewrite Hstop. unfold integrateStep.
  cbn [angularVelocity set_position set_phaseTime].
  rewrite applyNapEffect_w, swerveStep_w. unfold sideSpinStep.
  cbn [angularVelocity set_angularVelocity Vec3.y Vec3.set_y].
  f_equal.
  destruct (slipSpeed cfg s) as [ss|]; [|apply rollingStep_wy].
  destruct (slipVelocity cfg s) as [sl|]; [|apply rollingStep_wy].
  destruct (gtb ss _); [apply slidingStep_wy | apply rollingStep_wy].
Qed.

End SideSpin.

Lemma sideSpinDecay_range (dt : R) : 0 <= dt -> 0 < pow 0.995 (dt * 60) <= 1.
Proof.
  intros Hdt. unfold pow, Rpower. split; [apply exp_pos|].
  assert (Hln : ln 0.995 < 0).
  { rewrite <- ln_1. apply ln_increasing; lra. }
  assert (Hle : dt * 60 * ln 0.995 <= 0) by nra.
  rewrite <- exp_0.
  destruct Hle as [Hlt | Heq].
  - left. now apply exp_increasing.
  - rewrite Heq. lra.
Qed.

(** X3.  A call of [updateBallPhysics] with dt >= 0 that does not stop the
    ball never increases the magnitude of the side spin, never reverses it
    and never brings a non-zero side spin to zero. *)
Theorem X3_side_spin_decays (cfg : Cfg.t) (s : BallState) (dt : R) :
  stopCondition cfg s = false -> 0 <= dt ->
  let wy := Vec3.y (angularVelocity s) in
  let wy' := Vec3.y (angularVelocity (updateBallPhysics cfg s dt)) in
  Rabs wy' <= Rabs wy
  /\ 0 <= wy * wy'
  /\ (wy <> 0 -> wy' <> 0).
Proof.
  intros Hstop Hdt wy wy'. subst wy'.
  rewrite (updateBallPhysics_wy cfg s dt Hstop). fold wy.
  destruct (sideSpinDecay_range dt Hdt) as [Hpos Hle].
  set (k := pow 0.995 (dt * 60)) in *. clearbody k wy.
  split; [|split].
  - rewrite Rabs_mult, (Rabs_right k) by lra.
    pose proof (Rabs_pos wy). nra.
  - assert (0 <= wy * wy) by nra.
    replace (wy * (wy * k)) with (wy * wy * k) by ring.
    apply Rmult_le_pos; lra.
  - intros Hne Hz. apply Rmult_integral in Hz. destruct Hz; lra.
Qed.

Lemma X3_side_spin_decays_witness :
  stopCondition PHYSICS_CONFIG spinningBall = false
  /\ 0 <= 1 / 120
  /\ Rabs (Vec3.y (angularVelocity
             (updateBallPhysics PHYSICS_CONFIG spinningBall (1 / 120))))
     <= Rabs (Vec3.y (angularVelocity spinningBall)).
Proof.
  assert (Hstop : stopCondition PHYSICS_CONFIG spinningBall = false).
  { unfold stopCondition. rewrite speed_instance by reflexivity.
    cbn [ltbU].
    replace (ltb (speed_of spinningBall)
               (Cfg.velocity_stop (Cfg.thresholds PHYSICS_CONFIG)))
      with false; [reflexivity|].
    symmetry. apply ltb_false. cbn.
    assert (H : 1 <= speed_of spinningBall * speed_of spinningBall).
    { rewrite speed_of_sqr. unfold spinningBall. cbn. lra. }
    pose proof (norm2_nonneg (Vec3.x (velocity spinningBall))
                             (Vec3.z (velocity spinningBall))) as Hn.
    fold (speed_of spinningBall) in Hn. nra. }
  split; [exact Hstop|]. split; [lra|].
  apply (X3_side_spin_decays PHYSICS_CONFIG spinningBall (1 / 120) Hstop).
  lra.
Defined.

(** X4.  The decay of the side spin does not depend on how the time is cut
    into steps: two successive calls with steps dt1 and dt2, none of which
    stops the ball, leave the same side spin as one call with step
    dt1 + dt2. *)
Theorem X4_side_spin_step_independent (cfg : Cfg.t) (s : BallState)
    (dt1 dt2 : R) :
  stopCondition cfg s = false ->
  stopCondition cfg (updateBallPhysics cfg s dt1) = false ->
  Vec3.y (angularVelocity
            (updateBallPhysics cfg (updateBallPhysics cfg s dt1) dt2))
  = Vec3.y (angularVelocity (updateBallPhysics cfg s (dt1 + dt2))).
Proof.
  intros H1 H2.
  rewrite (updateBallPhysics_wy cfg _ dt2 H2).
  rewrite (updateBallPhysics_wy cfg s dt1 H1).
  rewrite (updateBallPhysics_wy cfg s (dt1 + dt2) H1).
  unfold pow. rewrite Rmult_assoc. f_equal.
  rewrite <- Rpower_plus. f_equal. ring.
Qed.

Lemma moving_not_stopped (cfg : Cfg.t) (s : BallState) :
  Cfg.velocity_stop (Cfg.thresholds cfg) <= speed_of s ->
  stopCondition cfg s = false.
Proof.
  intros H. unfold stopCondition, speed, getter.
  destruct (proto s); [|reflexivity]. cbn [ltbU].
  apply ltb_false in H. now rewrite H.
Qed.

Lemma X4_side_spin_step_independent_witness :
  stopCondition PHYSICS_CONFIG withNapBall = false
  /\ stopCondition PHYSICS_CONFIG
       (updateBallPhysics PHYSICS_CONFIG withNapBall (1 / 120)) = false
  /\ Vec3.y (angularVelocity
       (updateBallPhysics PHYSICS_CONFIG
          (updateBallPhysics PHYSICS_CONFIG withNapBall (1 / 120)) (1 / 120)))
     = Vec3.y (angularVelocity
         (updateBallPhysics PHYSICS_CONFIG withNapBall (1 / 120 + 1 / 120))).
Proof.
  assert (Hsp : speed_of withNapBall = 1).
  { unfold speed_of, withNapBall. cbn. rewrite norm2_0_r_abs.
    rewrite Rabs_left; lra. }
  assert (H1 : stopCondition PHYSICS_CONFIG withNapBall = false)
    by (apply moving_not_stopped; rewrite Hsp; cbn; lra).
  assert (H2 : stopCondition PHYSICS_CONFIG
                 (updateBallPhysics PHYSICS_CONFIG withNapBall (1 / 120))
               = false).
  { apply moving_not_stopped.
    destruct (rolling_step_facts withNapBall (1 / 120)
                withNapBall_rollsFreely) as (_ & Hs & _).
    - rewrite Hsp. lra.
    - rewrite Hsp, rollingDelta_shipped. lra.
    - rewrite Hs, Hsp, rollingDelta_shipped. cbn. lra. }
  split; [exact H1|]. split; [exact H2|].
  exact (X4_side_spin_step_independent PHYSICS_CONFIG withNapBall
           (1 / 120) (1 / 120) H1 H2).
Defined.

(** ** [updateBallPhysics] and [predictTrajectory] on a plain object *)

Section PlainObject.

Variable cfg : Cfg.t.

(** On an object without the getters a call applies no friction, no swerve
    and no nap drag: the velocity is kept, the position moves along it, the
    side spin decays and the phase becomes [rolling]. *)
Lemma updateBallPhysics_plain (s : BallState) (dt : R) :
  proto s = ObjectProto ->
  updateBallPhysics cfg s dt
  = mkBallState ObjectProto
      (Vec3.set_xz (position s)
         (Vec3.x (position s) + Vec3.x (velocity s) * dt)
         (Vec3.z (position s) + Vec3.z (velocity s) * dt))
      (velocity s)
      (Vec3.set_y (angularVelocity s)
         (Vec3.y (angularVelocity s) * pow 0.995 (dt * 60)))
      rolling (phaseTime s + dt).
Proof.
  destruct s as [p pos v w ph t]. cbn [proto]. intros ->.
  unfold updateBallPhysics, speed, angularSpeed, slipSpeed, slipVelocity,
    getter.
  cbn [proto ltbU andb].
  unfold rollingStep, speed, getter. cbn [proto set_phase].
  unfold sideSpinStep. cbn [angularVelocity set_angularVelocity].
  unfold swerveStep, speed, getter. cbn [proto gtbU].
  rewrite andb_false_r.
  unfold applyNapEffect, speed, getter. cbn [proto ltbU gtbU orb].
  reflexivity.
Qed.

(** The loop on a plain object, sample by sample. *)
Lemma predictLoop_plain_nth (n : nat) :
  forall (s : BallState) (dt : R) (i : nat),
  proto s = ObjectProto -> (i < n)%nat ->
  nth_error (predictLoop cfg n s dt) i
  = Some (mkSample
            (Vec3.x (position s) + INR i * (Vec3.x (velocity s) * dt))
            (Vec3.z (position s) + INR i * (Vec3.z (velocity s) * dt))
            (match i with O => phase s | S _ => rolling end)).
Proof.
  induction n as [|n IH]; intros s dt i Hp Hi; [lia|].
  cbn [predictLoop].
  assert (Hp' : proto (updateBallPhysics cfg s dt) = ObjectProto)
    by now rewrite updateBallPhysics_proto.
  rewrite (plain_never_below _ _ Hp').
  destruct i as [|i].
  - cbn [nth_error INR]. do 2 f_equal; ring.
  - cbn [nth_error]. rewrite IH by (assumption || lia).
    rewrite (updateBallPhysics_plain s dt Hp).
    cbn [position velocity phase Vec3.x Vec3.z Vec3.set_xz].
    rewrite S_INR.
    replace (match i with O => rolling | S _ => rolling end) with rolling
      by (destruct i; reflexivity).
    do 2 f_equal; ring.
Qed.

End PlainObject.

(** X5.  [predictTrajectory] predicts straight-line motion at the initial
    velocity: it returns [Math.ceil(duration / dt)] samples, and sample i is
    the initial position plus i dt times the initial velocity, whatever the
    spin, the friction coefficients and the thresholds; the phase of the
    first sample is the initial phase and that of every later sample is
    [rolling]. *)
Theorem X5_trajectory_is_a_straight_line (cfg : Cfg.t) (s : BallState)
    (duration dt : option R) (i : nat) :
  let step := orDefault dt 0.01 in
  let steps := Z.to_nat (ceil (orDefault duration 2 / step)) in
  (i < steps)%nat ->
  length (predictTrajectory cfg s duration dt) = steps
  /\ nth_error (predictTrajectory cfg s duration dt) i
     = Some (mkSample
               (Vec3.x (position s) + INR i * (Vec3.x (velocity s) * step))
               (Vec3.z (position s) + INR i * (Vec3.z (velocity s) * step))
               (match i with O => phase s | S _ => rolling end)).
Proof.
  intros step steps Hi. split; [apply predictTrajectory_length|].
  unfold predictTrajectory. fold step. fold steps.
  now rewrite predictLoop_plain_nth.
Qed.

Lemma X5_trajectory_is_a_straight_line_witness :
  (3 < Z.to_nat (ceil (orDefault None 2 / orDefault None 0.01)))%nat
  /\ nth_error (predictTrajectory PHYSICS_CONFIG headOnA None None) 3
     = Some (mkSample (0 + INR 3 * (0 * 0.01)) (0 + INR 3 * (2 * 0.01))
               rolling).
Proof.
  assert (H : (3 < Z.to_nat (ceil (orDefault None 2 / orDefault None 0.01)))%nat).
  { cbn [orDefault]. rewrite (ceil_IZR 200) by lra. lia. }
  split; [exact H|].
  exact (proj2 (X5_trajectory_is_a_straight_line PHYSICS_CONFIG headOnA
                  None None 3 H)).
Defined.

(** ** The normal component in a cushion rebound *)

Lemma cushion_normalComponent (cfg : Cfg.t) (ball : BallState)
    (cushion : Rail.t) (impactSpeed : R) :
  cushion <> Rail.other ->
  exists c : R,
    0.65 <= c <= 0.96
    /\ normalComponent
         (velocity (calculateCushionRebound cfg ball cushion impactSpeed))
         cushion
       = - normalComponent (velocity ball) cushion * c.
Proof.
  intros Hc. unfold calculateCushionRebound, normalComponent.
  destruct cushion; [| | | |contradiction]; cbn [railNormal fst snd];
    match goal with |- context [effectiveCorOf cfg ?a ?s] =>
      exists (effectiveCorOf cfg a s);
      split; [apply effectiveCorOf_bounds|]
    end;
    cbn [velocity set_velocity set_angularVelocity set_phase set_phaseTime
         Vec3.x Vec3.z Vec3.set_xz]; ring.
Qed.

(** X6.  On each of the four rails [calculateCushionRebound] reverses the
    velocity component along the rail normal and scales it by a factor
    between 0.65 and 0.96, whatever the configuration, the impact speed and
    the spin: a ball moving into the rail leaves it moving away, and the
    function does not test the direction, so a ball that moves away from
    the rail is turned towards it. *)
Theorem X6_cushion_reverses_normal (cfg : Cfg.t) (ball : BallState)
    (cushion : Rail.t) (impactSpeed : R) :
  cushion <> Rail.other ->
  let vn := normalComponent (velocity ball) cushion in
  let vn' := normalComponent
               (velocity (calculateCushionRebound cfg ball cushion impactSpeed))
               cushion in
  0.65 * Rabs vn <= Rabs vn' <= 0.96 * Rabs vn
  /\ (vn < 0 -> 0 < vn')
  /\ (0 < vn -> vn' < 0).
Proof.
  intros Hc vn vn'.
  destruct (cushion_normalComponent cfg ball cushion impactSpeed Hc)
    as (c & Hb & Heq).
  fold vn vn' in Heq. clearbody vn vn'. subst vn'.
  split; [|split].
  - rewrite Rabs_mult, Rabs_Ropp, (Rabs_right c) by lra.
    pose proof (Rabs_pos vn). split; nra.
  - intros H. nra.
  - intros H. nra.
Qed.

Lemma X6_cushion_reverses_normal_witness :
  Rail.left <> Rail.other
  /\ normalComponent (velocity spinningBall) Rail.left < 0
  /\ 0 < normalComponent
           (velocity (calculateCushionRebound PHYSICS_CONFIG spinningBall
                        Rail.left 1))
           Rail.left.
Proof.
  assert (Hc : Rail.left <> Rail.other) by discriminate.
  assert (Hv : normalComponent (velocity spinningBall) Rail.left < 0)
    by (unfold normalComponent, spinningBall; cbn; lra).
  split; [exact Hc|]. split; [exact Hv|].
  destruct (X6_cushion_reverses_normal PHYSICS_CONFIG spinningBall Rail.left 1
              Hc) as (_ & H & _).
  exact (H Hv).
Defined.

(** X7.  A rail name that is none of 'left', 'right', 'top' and 'bottom'
    selects no case of the switch: normal and tangent are both zero and the
    call sets the planar velocity to zero, while it still damps the spin
    and sets the phase to [sliding] with phaseTime 0. *)
Theorem X7_unknown_rail_stops_the_ball (cfg : Cfg.t) (ball : BallState)
    (impactSpeed : R) :
  let ball' := calculateCushionRebound cfg ball Rail.other impactSpeed in
  Vec3.x (velocity ball') = 0
  /\ Vec3.z (velocity ball') = 0
  /\ speed_of ball' = 0
  /\ angularVelocity ball'
     = Vec3.mk (Vec3.x (angularVelocity ball) * 0.95)
               (Vec3.y (angularVelocity ball) * 0.80)
               (Vec3.z (angularVelocity ball) * 0.95)
  /\ phase ball' = sliding
  /\ phaseTime ball' = 0.
Proof.
  intros ball'. subst ball'. unfold calculateCushionRebound.
  cbn [railNormal].
  cbn [velocity angularVelocity phase phaseTime set_velocity
       set_angularVelocity set_phase set_phaseTime Vec3.x Vec3.z Vec3.set_xz].
  assert (Hx : forall p q : R, p * 0 + q * - 0 = 0) by (intros; ring).
  assert (Hz : forall p q : R, p * 0 + q * 0 = 0) by (intros; ring).
  split; [apply Hx|]. split; [apply Hz|]. split.
  - unfold speed_of. cbn [velocity Vec3.x Vec3.z Vec3.set_xz].
    rewrite Hx, Hz. apply norm2_zero.
  - repeat split; reflexivity.
Qed.

(** ** The throw impulse and the throw angle *)

Lemma frictionImpulseOf_coulomb (cfg : Cfg.t) (normalImpulse dvn tv : R) :
  0 <= Cfg.friction_ball_ball (Cfg.ball cfg) ->
  0 <= Cfg.friction_accumulation (Cfg.collision cfg) ->
  0 <= normalImpulse -> 0 < dvn ->
  Rabs (frictionImpulseOf cfg normalImpulse dvn tv)
  <= Cfg.friction_ball_ball (Cfg.ball cfg) * normalImpulse
     * Cfg.friction_accumulation (Cfg.collision cfg).
Proof.
  intros Hmu Hacc Hn Hdvn. unfold frictionImpulseOf.
  set (M := Cfg.friction_ball_ball (Cfg.ball cfg) * normalImpulse
            * Cfg.friction_accumulation (Cfg.collision cfg)).
  assert (HM : 0 <= M) by (subst M; apply Rmult_le_pos;
                           [apply Rmult_le_pos|]; assumption).
  set (k := 1 + (Rmin 1 (2 / (dvn + 0.5)) - 1) * 0.3).
  assert (Hk : 0 < k <= 1).
  { subst k. assert (0 < 2 / (dvn + 0.5)) by (apply Rdiv_lt_0_compat; lra).
    pose proof (Rmin_l 1 (2 / (dvn + 0.5))).
    assert (0 < Rmin 1 (2 / (dvn + 0.5))) by (apply Rmin_glb_lt; lra).
    lra. }
  destruct (gtb (Rabs tv) 0.01); [|rewrite Rabs_R0; exact HM].
  set (q := Rmin M (Rabs (Cfg.mass (Cfg.ball cfg) * tv * 0.5))).
  assert (Hq : 0 <= q <= M).
  { subst q. split; [apply Rmin_glb; [exact HM | apply Rabs_pos] | apply Rmin_l]. }
  assert (Hs : Rabs (sign tv) <= 1).
  { unfold sign. destruct (Rlt_dec 0 tv); [rewrite Rabs_R1; lra|].
    destruct (Rlt_dec tv 0); [rewrite Rabs_left; lra | rewrite Rabs_R0; lra]. }
  clearbody q k M.
  rewrite !Rabs_mult, (Rabs_right q), (Rabs_right k) by lra.
  pose proof (Rabs_pos (sign tv)) as Hs0.
  assert (Rabs (sign tv) * q <= q) by nra.
  assert (0 <= Rabs (sign tv) * q) by (apply Rmult_le_pos; lra).
  nra.
Qed.

Lemma atan_le (u v : R) : u <= v -> atan u <= atan v.
Proof.
  intros [H | ->]; [left; now apply atan_increasing | lra].
Qed.

Lemma impulseExchange_throwAngle (cfg : Cfg.t) (a b : BallState)
    (nx nz dvn dvt : R) :
  let m := Cfg.mass (Cfg.ball cfg) in
  let nI := (1 + Cfg.restitution_ball_ball (Cfg.ball cfg)) * m * dvn / 2 in
  let f := frictionImpulseOf cfg nI dvn
             (dvt + Vec3.y (angularVelocity a) * Cfg.radius (Cfg.ball cfg)) in
  throwAngle (impulseExchange cfg a b nx nz dvn dvt)
  = Some (atan2 (Rabs f) nI * 180 / PI).
Proof. unfold impulseExchange. destruct (gtb _ 0.01); reflexivity. Qed.

(** X8.  The throw is limited by the friction law: in every impulse
    exchange (positive mass, restitution above -1, non-negative friction
    coefficient and accumulation factor) the tangential velocity change of
    the struck ball is at most mu accum times its normal velocity change,
    and the reported throw angle lies between 0 and
    atan (mu accum) in degrees, hence below 90. *)
Theorem X8_throw_is_friction_limited (cfg : Cfg.t) (a b : BallState) :
  0 < Cfg.mass (Cfg.ball cfg) ->
  -1 < Cfg.restitution_ball_ball (Cfg.ball cfg) ->
  0 <= Cfg.friction_ball_ball (Cfg.ball cfg) ->
  0 <= Cfg.friction_accumulation (Cfg.collision cfg) ->
  exchanges cfg a b ->
  let r := calculateBallCollision cfg a b in
  let limit := Cfg.friction_ball_ball (Cfg.ball cfg)
               * Cfg.friction_accumulation (Cfg.collision cfg) in
  let dBx := Vec3.x (velocity (ballB r)) - Vec3.x (velocity b) in
  let dBz := Vec3.z (velocity (ballB r)) - Vec3.z (velocity b) in
  Rabs (dBx * - normalZ a b + dBz * normalX a b)
  <= limit * (dBx * normalX a b + dBz * normalZ a b)
  /\ exists t : R,
       throwAngle r = Some t
       /\ 0 <= t <= atan limit * 180 / PI
       /\ t < 90.
Proof.
  intros Hm He Hmu Hacc Hex r limit dBx dBz. subst r dBx dBz.
  rewrite collision_exchanges by exact Hex.
  destruct (corrected_velocity cfg a b) as [Ea Eb].
  destruct (impulseExchange_velocity cfg (fst (corrected cfg a b))
              (snd (corrected cfg a b)) (normalX a b) (normalZ a b)
              (closingVelocity a b) (tangentialVelocity a b))
    as (_ & _ & -> & ->).
  rewrite impulseExchange_throwAngle. rewrite Eb.
  destruct Hex as [[Hlo _] Hdvn].
  pose proof (normal_unit a b ltac:(lra)) as Hunit.
  set (m := Cfg.mass (Cfg.ball cfg)) in *.
  set (e := Cfg.restitution_ball_ball (Cfg.ball cfg)) in *.
  set (nI := (1 + e) * m * closingVelocity a b / 2).
  assert (HnI : 0 < nI).
  { subst nI. apply Rmult_lt_0_compat; [|lra].
    apply Rmult_lt_0_compat; [|lra]. apply Rmult_lt_0_compat; lra. }
  pose proof (frictionImpulseOf_coulomb cfg nI (closingVelocity a b)
      (tangentialVelocity a b
       + Vec3.y (angularVelocity (fst (corrected cfg a b)))
         * Cfg.radius (Cfg.ball cfg))
      Hmu Hacc ltac:(lra) Hdvn) as Hc.
  set (f := frictionImpulseOf cfg nI (closingVelocity a b) _) in *.
  replace (Cfg.friction_ball_ball (Cfg.ball cfg) * nI
           * Cfg.friction_accumulation (Cfg.collision cfg))
    with (limit * nI) in Hc by (subst limit; ring).
  assert (Hlim : 0 <= limit) by (subst limit; apply Rmult_le_pos; assumption).
  set (nx := normalX a b) in *. set (nz := normalZ a b) in *.
  clearbody f nI limit nx nz. split.
  - replace ((Vec3.x (velocity b) + (nI * nx + f * - nz) / m
              - Vec3.x (velocity b)) * - nz
             + (Vec3.z (velocity b) + (nI * nz + f * nx) / m
                - Vec3.z (velocity b)) * nx)
      with (f * (nx * nx + nz * nz) / m) by (field; lra).
    replace ((Vec3.x (velocity b) + (nI * nx + f * - nz) / m
              - Vec3.x (velocity b)) * nx
             + (Vec3.z (velocity b) + (nI * nz + f * nx) / m
                - Vec3.z (velocity b)) * nz)
      with (nI * (nx * nx + nz * nz) / m) by (field; lra).
    rewrite Hunit, !Rmult_1_r.
    unfold Rdiv. rewrite Rabs_mult, (Rabs_right (/ m))
      by (left; now apply Rinv_0_lt_compat).
    rewrite <- Rmult_assoc. apply Rmult_le_compat_r; [|exact Hc].
    left. now apply Rinv_0_lt_compat.
  - exists (atan2 (Rabs f) nI * 180 / PI). split; [reflexivity|].
    pose proof PI_RGT_0 as Hpi.
    unfold atan2. destruct (Rlt_dec 0 nI); [|lra].
    assert (Hq : 0 <= Rabs f / nI <= limit).
    { split; [apply div_nonneg; [apply Rabs_pos | lra]|].
      apply Rmult_le_reg_r with nI; [lra|].
      unfold Rdiv. rewrite Rmult_assoc, Rinv_l by lra. lra. }
    pose proof (atan_nonneg _ (proj1 Hq)) as H0.
    pose proof (atan_le _ _ (proj2 Hq)) as H1.
    pose proof (atan_bound limit) as [_ H2].
    assert (Hinv : 0 < / PI) by now apply Rinv_0_lt_compat.
    unfold Rdiv in *. split; [split|].
    + apply Rmult_le_pos; [|lra]. apply Rmult_le_pos; lra.
    + apply Rmult_le_compat_r; [lra|]. apply Rmult_le_compat_r; lra.
    + apply Rmult_lt_reg_r with PI; [lra|].
      rewrite Rmult_assoc, Rinv_l by lra. lra.
Qed.

Lemma X8_throw_is_friction_limited_witness :
  (0 < Cfg.mass (Cfg.ball PHYSICS_CONFIG)
   /\ -1 < Cfg.restitution_ball_ball (Cfg.ball PHYSICS_CONFIG)
   /\ 0 <= Cfg.friction_ball_ball (Cfg.ball PHYSICS_CONFIG)
   /\ 0 <= Cfg.friction_accumulation (Cfg.collision PHYSICS_CONFIG)
   /\ exchanges PHYSICS_CONFIG headOnA headOnB)
  /\ exists t : R,
       throwAngle (calculateBallCollision PHYSICS_CONFIG headOnA headOnB)
       = Some t
       /\ t < 90.
Proof.
  assert (Hm : 0 < Cfg.mass (Cfg.ball PHYSICS_CONFIG)) by (cbn; lra).
  assert (He : -1 < Cfg.restitution_ball_ball (Cfg.ball PHYSICS_CONFIG))
    by (cbn; lra).
  assert (Hmu : 0 <= Cfg.friction_ball_ball (Cfg.ball PHYSICS_CONFIG))
    by (cbn; lra).
  assert (Hacc : 0 <= Cfg.friction_accumulation (Cfg.collision PHYSICS_CONFIG))
    by (cbn; lra).
  assert (Hex : exchanges PHYSICS_CONFIG headOnA headOnB)
    by (apply exchanges_on_z; lra).
  split; [do 4 (split; [assumption|]); exact Hex|].
  destruct (X8_throw_is_friction_limited PHYSICS_CONFIG headOnA headOnB
              Hm He Hmu Hacc Hex) as (_ & t & Ht & _ & Hlt).
  exists t. split; assumption.
Defined.

(** ** Restitution, and a second call on the same pair *)

Lemma relative_normal_velocity (cfg : Cfg.t) (a b : BallState) :
  Cfg.mass (Cfg.ball cfg) <> 0 ->
  exchanges cfg a b ->
  let r := calculateBallCollision cfg a b in
  (Vec3.x (velocity (ballA r)) - Vec3.x (velocity (ballB r))) * normalX a b
  + (Vec3.z (velocity (ballA r)) - Vec3.z (velocity (ballB r))) * normalZ a b
  = - Cfg.restitution_ball_ball (Cfg.ball cfg) * closingVelocity a b.
Proof.
  intros Hm Hex r. subst r.
  rewrite collision_exchanges by exact Hex.
  destruct (corrected_velocity cfg a b) as [Ea Eb].
  destruct (impulseExchange_velocity cfg (fst (corrected cfg a b))
              (snd (corrected cfg a b)) (normalX a b) (normalZ a b)
              (closingVelocity a b) (tangentialVelocity a b))
    as (-> & -> & -> & ->).
  rewrite Ea, Eb.
  destruct Hex as [[Hlo _] Hdvn].
  pose proof (normal_unit a b ltac:(lra)) as Hunit.
  set (f := frictionImpulseOf cfg _ _ _).
  unfold closingVelocity.
  set (nx := normalX a b) in *. set (nz := normalZ a b) in *.
  set (m := Cfg.mass (Cfg.ball cfg)) in *.
  set (e := Cfg.restitution_ball_ball (Cfg.ball cfg)).
  set (dv := (Vec3.x (velocity a) - Vec3.x (velocity b)) * nx
             + (Vec3.z (velocity a) - Vec3.z (velocity b)) * nz).
  clearbody f nx nz m e.
  match goal with |- ?L = _ =>
    replace L with (dv - (1 + e) * dv * (nx * nx + nz * nz))
      by (subst dv; field; exact Hm)
  end.
  rewrite Hunit. ring.
Qed.

(** X9.  The normal impulse realises the coefficient of restitution: after
    an impulse exchange the relative velocity of the two balls along the
    line of centres is minus e times the closing velocity before it, so for
    e >= 0 the balls no longer approach each other. *)
Theorem X9_restitution_along_the_normal (cfg : Cfg.t) (a b : BallState) :
  Cfg.mass (Cfg.ball cfg) <> 0 ->
  exchanges cfg a b ->
  let r := calculateBallCollision cfg a b in
  let e := Cfg.restitution_ball_ball (Cfg.ball cfg) in
  let after :=
    (Vec3.x (velocity (ballA r)) - Vec3.x (velocity (ballB r))) * normalX a b
    + (Vec3.z (velocity (ballA r)) - Vec3.z (velocity (ballB r))) * normalZ a b in
  after = - e * closingVelocity a b
  /\ (0 <= e -> after <= 0).
Proof.
  intros Hm Hex r e after. subst after r.
  rewrite (relative_normal_velocity cfg a b Hm Hex). fold e.
  split; [reflexivity|]. intros He. destruct Hex as [_ Hdvn]. nra.
Qed.

Lemma X9_restitution_along_the_normal_witness :
  Cfg.mass (Cfg.ball PHYSICS_CONFIG) <> 0
  /\ exchanges PHYSICS_CONFIG headOnA headOnB
  /\ (Vec3.x (velocity (ballA (calculateBallCollision PHYSICS_CONFIG headOnA headOnB)))
      - Vec3.x (velocity (ballB (calculateBallCollision PHYSICS_CONFIG headOnA headOnB))))
     * normalX headOnA headOnB
     + (Vec3.z (velocity (ballA (calculateBallCollision PHYSICS_CONFIG headOnA headOnB)))
        - Vec3.z (velocity (ballB (calculateBallCollision PHYSICS_CONFIG headOnA headOnB))))
       * normalZ headOnA headOnB
     = - Cfg.restitution_ball_ball (Cfg.ball PHYSICS_CONFIG)
       * closingVelocity headOnA headOnB.
Proof.
  assert (Hm : Cfg.mass (Cfg.ball PHYSICS_CONFIG) <> 0) by (cbn; lra).
  assert (Hex : exchanges PHYSICS_CONFIG headOnA headOnB)
    by (apply exchanges_on_z; lra).
  split; [exact Hm|]. split; [exact Hex|].
  exact (proj1 (X9_restitution_along_the_normal PHYSICS_CONFIG headOnA headOnB
                  Hm Hex)).
Defined.

(** The penetration correction moves the centres along the normal only:
    the normal of the corrected pair is the normal of the pair, and the
    centres are not closer than before. *)
Lemma corrected_geometry (cfg : Cfg.t) (a b : BallState) :
  0 < centreDistance a b ->
  let a' := fst (corrected cfg a b) in
  let b' := snd (corrected cfg a b) in
  centreDistance a b <= centreDistance a' b'
  /\ normalX a' b' = normalX a b
  /\ normalZ a' b' = normalZ a b.
Proof.
  intros Hd a' b'. subst a' b'. unfold corrected.
  destruct (ltb (centreDistance a b) (Cfg.radius (Cfg.ball cfg) * 2)) eqn:Hlt;
    [apply ltb_true in Hlt | cbn [fst snd]; repeat split; lra].
  pose proof (penetrationCorrection_distance cfg a b Hd Hlt) as Hdist.
  cbv zeta in Hdist.
  set (S := speed_of a + speed_of b) in *.
  assert (HS : 0 <= S).
  { subst S. unfold speed_of.
    pose proof (norm2_nonneg (Vec3.x (velocity a)) (Vec3.z (velocity a))).
    pose proof (norm2_nonneg (Vec3.x (velocity b)) (Vec3.z (velocity b))).
    lra. }
  set (k := (Cfg.radius (Cfg.ball cfg) * 2 - centreDistance a b)
            * (S / (S + 0.001))) in *.
  assert (Hk : 0 <= k).
  { subst k. apply Rmult_le_pos; [lra|]. apply div_nonneg; lra. }
  split; [lra|].
  assert (HT : speed_of a + speed_of b + 0.001 <> 0) by (subst S; lra).
  assert (Hden : centreDistance a b * (speed_of a + speed_of b + 0.001)
                 + (Cfg.radius (Cfg.ball cfg) * 2 - centreDistance a b)
                   * (speed_of a + speed_of b) <> 0).
  { fold S.
    assert (0 < centreDistance a b * (S + 0.001))
      by (apply Rmult_lt_0_compat; lra).
    assert (0 <= (Cfg.radius (Cfg.ball cfg) * 2 - centreDistance a b) * S)
      by (apply Rmult_le_pos; lra).
    lra. }
  split.
  - unfold normalX at 1. rewrite Hdist.
    unfold penetrationCorrection.
    cbn [fst snd position set_position Vec3.x Vec3.z Vec3.set_xz].
    fold (speed_of a) (speed_of b). unfold normalX.
    subst k S. field. repeat split; try assumption; lra.
  - unfold normalZ at 1. rewrite Hdist.
    unfold penetrationCorrection.
    cbn [fst snd position set_position Vec3.x Vec3.z Vec3.set_xz].
    fold (speed_of a) (speed_of b). unfold normalZ.
    subst k S. field. repeat split; try assumption; lra.
Qed.

Lemma normal_ext (a b a' b' : BallState) :
  position a = position a' -> position b = position b' ->
  normalX a b = normalX a' b' /\ normalZ a b = normalZ a' b'.
Proof.
  intros Ha Hb. unfold normalX, normalZ, centreDistance.
  now rewrite Ha, Hb.
Qed.

(** What a call that returns before the impulses leaves alone. *)
Lemma collision_without_exchange (cfg : Cfg.t) (a b : BallState) :
  0.0001 <= centreDistance a b ->
  closingVelocity a b <= 0 ->
  let r := calculateBallCollision cfg a b in
  throwAngle r = None
  /\ (velocity (ballA r) = velocity a /\ velocity (ballB r) = velocity b)
  /\ (angularVelocity (ballA r) = angularVelocity a
      /\ angularVelocity (ballB r) = angularVelocity b)
  /\ (phase (ballA r) = phase a /\ phase (ballB r) = phase b)
  /\ (phaseTime (ballA r) = phaseTime a /\ phaseTime (ballB r) = phaseTime b).
Proof.
  intros Hlo Hdvn r. subst r.
  destruct (Rlt_dec (Cfg.radius (Cfg.ball cfg) * 2.5) (centreDistance a b))
    as [Hhi | Hhi].
  - rewrite collision_out_of_range by (right; exact Hhi).
    cbn [ballA ballB throwAngle]. repeat split; reflexivity.
  - rewrite collision_separating by (try exact Hdvn; unfold inRange; lra).
    cbn [ballA ballB throwAngle].
    split; [reflexivity|].
    split; [apply corrected_velocity|].
    split; [apply corrected_angularVelocity|].
    split; [apply corrected_phase | apply corrected_phaseTime].
Qed.

(** After an impulse exchange the pair, as the call returns it, has the
    same contact normal and closes at minus e times the former closing
    velocity. *)
Lemma collision_result_geometry (cfg : Cfg.t) (a b : BallState) :
  Cfg.mass (Cfg.ball cfg) <> 0 ->
  exchanges cfg a b ->
  let r := calculateBallCollision cfg a b in
  centreDistance a b <= centreDistance (ballA r) (ballB r)
  /\ closingVelocity (ballA r) (ballB r)
     = - Cfg.restitution_ball_ball (Cfg.ball cfg) * closingVelocity a b.
Proof.
  intros Hm Hex r.
  pose proof (relative_normal_velocity cfg a b Hm Hex) as Hrel.
  cbv zeta in Hrel. fold r in Hrel.
  assert (Hpos : position (ballA r) = position (fst (corrected cfg a b))
                 /\ position (ballB r) = position (snd (corrected cfg a b))).
  { subst r. rewrite collision_exchanges by exact Hex.
    apply impulseExchange_frame. }
  destruct Hpos as [Pa Pb].
  destruct Hex as [[Hlo _] _].
  destruct (corrected_geometry cfg a b ltac:(lra)) as (Hd & Hnx & Hnz).
  destruct (normal_ext _ _ _ _ Pa Pb) as [Nx Nz].
  split.
  - rewrite (centreDistance_ext _ _ _ _ Pa Pb). exact Hd.
  - unfold closingVelocity at 1. rewrite Nx, Nz, Hnx, Hnz. exact Hrel.
Qed.

(** X10.  Calling [calculateBallCollision] again on the pair it has just
    returned after an impulse exchange does not exchange a second impulse
    (non-zero mass, e >= 0): the second call reports no throw angle and
    leaves velocities, angular velocities, phases and phaseTimes as the
    first call set them. *)
Theorem X10_no_second_exchange (cfg : Cfg.t) (a b : BallState) :
  Cfg.mass (Cfg.ball cfg) <> 0 ->
  0 <= Cfg.restitution_ball_ball (Cfg.ball cfg) ->
  exchanges cfg a b ->
  let r := calculateBallCollision cfg a b in
  let r2 := calculateBallCollision cfg (ballA r) (ballB r) in
  throwAngle r2 = None
  /\ (velocity (ballA r2) = velocity (ballA r)
      /\ velocity (ballB r2) = velocity (ballB r))
  /\ (angularVelocity (ballA r2) = angularVelocity (ballA r)
      /\ angularVelocity (ballB r2) = angularVelocity (ballB r))
  /\ (phase (ballA r2) = phase (ballA r) /\ phase (ballB r2) = phase (ballB r))
  /\ (phaseTime (ballA r2) = phaseTime (ballA r)
      /\ phaseTime (ballB r2) = phaseTime (ballB r)).
Proof.
  intros Hm He Hex r r2. subst r2.
  destruct (collision_result_geometry cfg a b Hm Hex) as [Hd Hc].
  fold r in Hd, Hc.
  destruct Hex as [[Hlo _] Hdvn].
  apply collision_without_exchange; [lra|].
  rewrite Hc. nra.
Qed.

Lemma X10_no_second_exchange_witness :
  Cfg.mass (Cfg.ball PHYSICS_CONFIG) <> 0
  /\ 0 <= Cfg.restitution_ball_ball (Cfg.ball PHYSICS_CONFIG)
  /\ exchanges PHYSICS_CONFIG headOnA headOnB
  /\ throwAngle
       (calculateBallCollision PHYSICS_CONFIG
          (ballA (calculateBallCollision PHYSICS_CONFIG headOnA headOnB))
          (ballB (calculateBallCollision PHYSICS_CONFIG headOnA headOnB)))
     = None.
Proof.
  assert (Hm : Cfg.mass (Cfg.ball PHYSICS_CONFIG) <> 0) by (cbn; lra).
  assert (He : 0 <= Cfg.restitution_ball_ball (Cfg.ball PHYSICS_CONFIG))
    by (cbn; lra).
  assert (Hex : exchanges PHYSICS_CONFIG headOnA headOnB)
    by (apply exchanges_on_z; lra).
  split; [exact Hm|]. split; [exact He|]. split; [exact Hex|].
  exact (proj1 (X10_no_second_exchange PHYSICS_CONFIG headOnA headOnB
                  Hm He Hex)).
Defined.

(** ** The state that [applyShot] builds *)

Lemma norm2_scale_abs (k a b : R) :
  norm2 (a * k) (b * k) = norm2 a b * Rabs k.
Proof.
  unfold norm2.
  replace (a * k * (a * k) + b * k * (b * k))
    with ((a * a + b * b) * (k * k)) by ring.
  rewrite sqrt_mult by nra.
  replace (k * k) with (Rsqr k) by reflexivity.
  now rewrite sqrt_Rsqr_abs.
Qed.

Lemma norm2_sin_cos (angle : R) : norm2 (sin angle) (cos angle) = 1.
Proof.
  unfold norm2.
  replace (sin angle * sin angle + cos angle * cos angle)
    with (Rsqr (sin angle) + Rsqr (cos angle)) by reflexivity.
  rewrite sin2_cos2. apply sqrt_1.
Qed.

(** X11.  After [applyShot] the planar speed of the ball is exactly
    |power maxSpeed| in the direction (sin angle, cos angle), whatever the
    ball's velocity was before, so for 0 <= power <= 1 it never exceeds
    maxSpeed; the side spin is spinX power maxSpeed 8, the phase is
    [sliding] with phaseTime 0 and the position is not moved. *)
Theorem X11_shot_speed (cfg : Cfg.t) (ball : BallState)
    (power angle spinX spinY : R) (maxSpeed : option R) :
  let ball' := applyShot cfg ball power angle spinX spinY maxSpeed in
  let M := orDefault maxSpeed 8 in
  speed_of ball' = Rabs (power * M)
  /\ (0 <= power <= 1 -> 0 <= M -> speed_of ball' <= M)
  /\ Vec3.y (angularVelocity ball') = spinX * (power * M) * 8
  /\ phase ball' = sliding
  /\ phaseTime ball' = 0
  /\ position ball' = position ball.
Proof.
  intros ball' M. subst ball'.
  assert (Hs : speed_of (applyShot cfg ball power angle spinX spinY maxSpeed)
               = Rabs (power * M)).
  { unfold speed_of, applyShot.
    cbn [velocity set_velocity set_angularVelocity set_phase set_phaseTime
         Vec3.x Vec3.z Vec3.set_xz].
    fold M. rewrite norm2_scale_abs, norm2_sin_cos. ring. }
  split; [exact Hs|]. split.
  - intros Hp HM. rewrite Hs. rewrite Rabs_right by nra. nra.
  - repeat split; reflexivity.
Qed.

Lemma X11_shot_speed_witness :
  0 <= 0.5 <= 1 /\ 0 <= orDefault None 8
  /\ speed_of (applyShot PHYSICS_CONFIG newBallState 0.5 1 0 0 None)
     <= orDefault None 8.
Proof.
  assert (Hp : 0 <= 0.5 <= 1) by lra.
  assert (HM : 0 <= orDefault None 8) by (cbn; lra).
  split; [exact Hp|]. split; [exact HM|].
  destruct (X11_shot_speed PHYSICS_CONFIG newBallState 0.5 1 0 0 None)
    as (_ & H & _).
  exact (H Hp HM).
Defined.

(** The slip velocity of the ball that [applyShot] builds. *)
Lemma applyShot_slip (cfg : Cfg.t) (ball : BallState)
    (power angle spinX spinY : R) (maxSpeed : option R) :
  Cfg.radius (Cfg.ball cfg) <> 0 ->
  let ball' := applyShot cfg ball power angle spinX spinY maxSpeed in
  let v := power * orDefault maxSpeed 8 in
  let gain := spinY * 2.5 + (if eqb spinY 0 then 0.4 else 0) in
  slipVelocity_of cfg ball'
  = Vec2.mk (sin angle * (v * (1 - gain))) (cos angle * (v * (1 - gain))).
Proof.
  intros HR ball' v gain. subst ball'.
  unfold slipVelocity_of, surfaceVelocity_of, applyShot.
  cbn [velocity angularVelocity set_velocity set_angularVelocity set_phase
       set_phaseTime Vec3.x Vec3.z Vec3.set_xz Vec2.x Vec2.z].
  fold v. subst gain.
  destruct (eqb spinY 0); f_equal; field; exact HR.
Qed.

(** X12.  The ball that [applyShot] builds slips on the cloth with speed
    |power maxSpeed| |1 - 2.5 spinY| for spinY <> 0 and
    0.6 |power maxSpeed| for a centre-ball hit (spinY = 0): it starts in
    natural roll exactly when it does not move or spinY = 0.4. *)
Theorem X12_shot_slip (cfg : Cfg.t) (ball : BallState)
    (power angle spinX spinY : R) (maxSpeed : option R) :
  Cfg.radius (Cfg.ball cfg) <> 0 ->
  let ball' := applyShot cfg ball power angle spinX spinY maxSpeed in
  let v := power * orDefault maxSpeed 8 in
  (spinY <> 0 -> slipSpeed_of cfg ball' = Rabs v * Rabs (1 - 2.5 * spinY))
  /\ (spinY = 0 -> slipSpeed_of cfg ball' = 0.6 * Rabs v)
  /\ (slipSpeed_of cfg ball' = 0 <-> v = 0 \/ spinY = 0.4).
Proof.
  intros HR ball' v.
  assert (Hs : slipSpeed_of cfg ball'
               = Rabs v * Rabs (1 - (spinY * 2.5
                                     + (if eqb spinY 0 then 0.4 else 0)))).
  { unfold slipSpeed_of. subst ball'.
    rewrite (applyShot_slip cfg ball power angle spinX spinY maxSpeed HR).
    cbn [Vec2.x Vec2.z]. fold v.
    rewrite norm2_scale_abs, norm2_sin_cos, Rabs_mult. ring. }
  split; [|split].
  - intros Hne. rewrite Hs. apply eqb_false in Hne. rewrite Hne.
    do 2 f_equal. ring.
  - intros He. rewrite Hs. apply eqb_true in He as Hb. rewrite Hb, He.
    replace (1 - (0 * 2.5 + 0.4)) with 0.6 by lra.
    rewrite (Rabs_right 0.6) by lra. ring.
  - rewrite Hs. split.
    + intros H. apply Rmult_integral in H. destruct H as [H | H].
      * left. destruct (Req_dec v 0) as [|Hv]; [assumption|].
        apply Rabs_no_R0 in Hv. contradiction.
      * right. destruct (eqb spinY 0) eqn:Hb.
        -- exfalso. apply eqb_true in Hb. subst spinY.
           replace (1 - (0 * 2.5 + 0.4)) with 0.6 in H by lra.
           rewrite Rabs_right in H by lra. lra.
        -- destruct (Req_dec (1 - (spinY * 2.5 + 0)) 0) as [H0 | H0]; [lra|].
           apply Rabs_no_R0 in H0. contradiction.
    + intros [H | H].
      * rewrite H, Rabs_R0. ring.
      * subst spinY.
        replace (eqb 0.4 0) with false by (symmetry; apply eqb_false; lra).
        replace (1 - (0.4 * 2.5 + 0)) with 0 by lra.
        rewrite Rabs_R0. ring.
Qed.

Lemma X12_shot_slip_witness :
  Cfg.radius (Cfg.ball PHYSICS_CONFIG) <> 0
  /\ (0 : R) = 0
  /\ slipSpeed_of PHYSICS_CONFIG
       (applyShot PHYSICS_CONFIG newBallState 0.5 1 0 0 None)
     = 0.6 * Rabs (0.5 * orDefault None 8).
Proof.
  assert (HR : Cfg.radius (Cfg.ball PHYSICS_CONFIG) <> 0) by (cbn; lra).
  split; [exact HR|]. split; [reflexivity|].
  destruct (X12_shot_slip PHYSICS_CONFIG newBallState 0.5 1 0 0 None HR)
    as (_ & H & _).
  exact (H eq_refl).
Defined.

(** ** The spin description *)

Module DiagnosticsFacts.
Import String.
Import JSMath.

(** X13.  A ball instance that rolls without slipping
    ((wx, wz) = (-vz / R, vx / R), R <> 0) and whose side spin is at most
    1 rad/s in magnitude is described as ['Natural roll'], at every
    speed. *)
Theorem X13_rolling_ball_is_natural_roll (cfg : Cfg.t) (s : BallState) :
  Cfg.radius (Cfg.ball cfg) <> 0 ->
  pureRolling cfg s ->
  Rabs (Vec3.y (angularVelocity s)) <= 1 ->
  Diagnostics.getSpinDescription cfg s = "Natural roll"%string.
Proof.
  intros HR [Hx Hz] Hy. unfold Diagnostics.getSpinDescription.
  apply gtb_false in Hy. rewrite Hy.
  unfold speed, getter. destruct (proto s); [|reflexivity].
  destruct (gtb (speed_of s) 0.01) eqn:Hs; [|reflexivity].
  apply gtb_true in Hs.
  match goal with |- context [gtb (Rabs ?d) 1] =>
    replace d with 0; [rewrite Rabs_R0|]
  end.
  - replace (gtb 0 1) with false by (symmetry; apply gtb_false; lra).
    reflexivity.
  - rewrite Hx, Hz. pose proof (speed_of_sqr s) as Hsq.
    set (sp := speed_of s) in *.
    set (vx := Vec3.x (velocity s)) in *. set (vz := Vec3.z (velocity s)) in *.
    set (Rb := Cfg.radius (Cfg.ball cfg)) in *. clearbody sp vx vz Rb.
    replace (- vz / Rb * - (vz / sp) + vx / Rb * (vx / sp) - sp / Rb)
      with ((vx * vx + vz * vz - sp * sp) / (Rb * sp)) by (field; lra).
    rewrite <- Hsq. unfold Rdiv. ring.
Qed.

Lemma X13_rolling_ball_is_natural_roll_witness :
  Cfg.radius (Cfg.ball PHYSICS_CONFIG) <> 0
  /\ pureRolling PHYSICS_CONFIG withNapBall
  /\ Rabs (Vec3.y (angularVelocity withNapBall)) <= 1
  /\ Diagnostics.getSpinDescription PHYSICS_CONFIG withNapBall
     = "Natural roll"%string.
Proof.
  assert (HR : Cfg.radius (Cfg.ball PHYSICS_CONFIG) <> 0) by (cbn; lra).
  assert (Hroll : pureRolling PHYSICS_CONFIG withNapBall)
    by (destruct withNapBall_rollsFreely as (_ & H & _); exact H).
  assert (Hy : Rabs (Vec3.y (angularVelocity withNapBall)) <= 1)
    by (cbn; rewrite Rabs_R0; lra).
  split; [exact HR|]. split; [exact Hroll|]. split; [exact Hy|].
  exact (X13_rolling_ball_is_natural_roll PHYSICS_CONFIG withNapBall
           HR Hroll Hy).
Defined.

Lemma applyShot_speed (cfg : Cfg.t) (ball : BallState)
    (power angle spinX spinY : R) (maxSpeed : option R) :
  speed_of (applyShot cfg ball power angle spinX spinY maxSpeed)
  = Rabs (power * orDefault maxSpeed 8).
Proof.
  unfold speed_of, applyShot.
  cbn [velocity set_velocity set_angularVelocity set_phase set_phaseTime
       Vec3.x Vec3.z Vec3.set_xz].
  rewrite norm2_scale_abs, norm2_sin_cos. ring.
Qed.

(** The label of the ball that [applyShot] builds on an instance, from the
    difference d between its spin about the rolling axis and the natural
    roll. *)
Lemma applyShot_description (cfg : Cfg.t) (ball : BallState)
    (power angle spinX spinY : R) (maxSpeed : option R) :
  proto ball = BallStateProto ->
  0 < Cfg.radius (Cfg.ball cfg) ->
  let v := power * orDefault maxSpeed 8 in
  let gain := spinY * 2.5 + (if eqb spinY 0 then 0.4 else 0) in
  let d := (gain - 1) * v / Cfg.radius (Cfg.ball cfg) in
  0.01 < v ->
  Rabs (spinX * v * 8) <= 1 ->
  Diagnostics.getSpinDescription cfg
    (applyShot cfg ball power angle spinX spinY maxSpeed)
  = if gtb (Rabs d) 1
    then (if gtb d 0 then "Top spin"%string else "Back spin"%string)
    else "Natural roll"%string.
Proof.
  intros Hp HR v gain d Hv Hside.
  pose proof (applyShot_speed cfg ball power angle spinX spinY maxSpeed)
    as Hs.
  fold v in Hs. rewrite Rabs_right in Hs by lra.
  unfold Diagnostics.getSpinDescription.
  rewrite speed_instance by (unfold applyShot; exact Hp).
  rewrite Hs.
  replace (gtb v 0.01) with true by (symmetry; apply gtb_true; lra).
  replace (Vec3.y (angularVelocity
             (applyShot cfg ball power angle spinX spinY maxSpeed)))
    with (spinX * v * 8) by reflexivity.
  apply gtb_false in Hside. rewrite Hside.
  match goal with |- context [gtb (Rabs ?e) 1] =>
    replace e with d
  end.
  - destruct (gtb (Rabs d) 1); [destruct (gtb d 0)|]; reflexivity.
  - unfold applyShot.
    cbn [velocity angularVelocity set_velocity set_angularVelocity set_phase
         set_phaseTime Vec3.x Vec3.z Vec3.set_xz].
    fold v. fold gain.
    pose proof (sin2_cos2 angle) as Hsc. unfold Rsqr in Hsc.
    set (sn := sin angle) in *. set (cs := cos angle) in *.
    set (Rb := Cfg.radius (Cfg.ball cfg)) in *.
    subst d. subst gain.
    destruct (eqb spinY 0); clearbody sn cs Rb v.
    + replace (- cs * (spinY * (v / Rb) * 2.5 + v / Rb * 0.4)
               * - (cs * v / v)
               + sn * (spinY * (v / Rb) * 2.5 + v / Rb * 0.4) * (sn * v / v)
               - v / Rb)
        with (((spinY * 2.5 + 0.4) * (sn * sn + cs * cs) - 1) * v / Rb)
        by (field; lra).
      rewrite Hsc. field. lra.
    + replace (- cs * (spinY * (v / Rb) * 2.5 + 0) * - (cs * v / v)
               + sn * (spinY * (v / Rb) * 2.5 + 0) * (sn * v / v)
               - v / Rb)
        with (((spinY * 2.5 + 0) * (sn * sn + cs * cs) - 1) * v / Rb)
        by (field; lra).
      rewrite Hsc. field. lra.
Qed.

(** X14.  The description of a ball right after [applyShot] (moving faster
    than 0.01, side spin at most 1 rad/s) is decided by
    d = (2.5 spinY + [0.4 if spinY = 0] - 1) power maxSpeed / R: 'Top spin'
    for d > 1, 'Back spin' for d < -1, 'Natural roll' in between.  In
    particular a centre-ball hit (spinY = 0) with 0.6 power maxSpeed / R > 1
    is described as 'Back spin'. *)
Theorem X14_description_after_shot (cfg : Cfg.t) (ball : BallState)
    (power angle spinX spinY : R) (maxSpeed : option R) :
  proto ball = BallStateProto ->
  0 < Cfg.radius (Cfg.ball cfg) ->
  let v := power * orDefault maxSpeed 8 in
  let gain := spinY * 2.5 + (if eqb spinY 0 then 0.4 else 0) in
  let d := (gain - 1) * v / Cfg.radius (Cfg.ball cfg) in
  let text := Diagnostics.getSpinDescription cfg
                (applyShot cfg ball power angle spinX spinY maxSpeed) in
  0.01 < v ->
  Rabs (spinX * v * 8) <= 1 ->
  (1 < d -> text = "Top spin"%string)
  /\ (d < -1 -> text = "Back spin"%string)
  /\ (-1 <= d <= 1 -> text = "Natural roll"%string)
  /\ (spinY = 0 -> 1 < 0.6 * v / Cfg.radius (Cfg.ball cfg) ->
      text = "Back spin"%string).
Proof.
  intros Hp HR v gain d text Hv Hside. subst text.
  rewrite (applyShot_description cfg ball power angle spinX spinY maxSpeed
             Hp HR Hv Hside).
  fold v. fold gain. fold d.
  assert (Htop : 1 < d ->
            (if gtb (Rabs d) 1
             then if gtb d 0 then "Top spin"%string else "Back spin"%string
             else "Natural roll"%string) = "Top spin"%string).
  { intros H.
    replace (gtb (Rabs d) 1) with true
      by (symmetry; apply gtb_true; rewrite Rabs_right; lra).
    replace (gtb d 0) with true by (symmetry; apply gtb_true; lra).
    reflexivity. }
  assert (Hback : d < -1 ->
            (if gtb (Rabs d) 1
             then if gtb d 0 then "Top spin"%string else "Back spin"%string
             else "Natural roll"%string) = "Back spin"%string).
  { intros H.
    replace (gtb (Rabs d) 1) with true
      by (symmetry; apply gtb_true; rewrite Rabs_left; lra).
    replace (gtb d 0) with false by (symmetry; apply gtb_false; lra).
    reflexivity. }
  split; [exact Htop|]. split; [exact Hback|]. split.
  - intros H.
    replace (gtb (Rabs d) 1) with false; [reflexivity|].
    symmetry. apply gtb_false. apply Rabs_le. lra.
  - intros H0 Hbig. apply Hback. subst d gain.
    apply eqb_true in H0 as Hb. rewrite Hb, H0.
    unfold Rdiv in *. nra.
Qed.

Lemma X14_description_after_shot_witness :
  (proto newBallState = BallStateProto
   /\ 0 < Cfg.radius (Cfg.ball PHYSICS_CONFIG)
   /\ 0.01 < 0.5 * orDefault None 8
   /\ Rabs (0 * (0.5 * orDefault None 8) * 8) <= 1
   /\ (0 : R) = 0
   /\ 1 < 0.6 * (0.5 * orDefault None 8) / Cfg.radius (Cfg.ball PHYSICS_CONFIG))
  /\ Diagnostics.getSpinDescription PHYSICS_CONFIG
       (applyShot PHYSICS_CONFIG newBallState 0.5 1 0 0 None)
     = "Back spin"%string.
Proof.
  assert (HR : 0 < Cfg.radius (Cfg.ball PHYSICS_CONFIG)) by (cbn; lra).
  assert (Hv : 0.01 < 0.5 * orDefault None 8) by (cbn; lra).
  assert (Hside : Rabs (0 * (0.5 * orDefault None 8) * 8) <= 1).
  { replace (0 * (0.5 * orDefault None 8) * 8) with 0 by ring.
    rewrite Rabs_R0. lra. }
  assert (Hbig : 1 < 0.6 * (0.5 * orDefault None 8)
                     / Cfg.radius (Cfg.ball PHYSICS_CONFIG)) by (cbn; lra).
  split; [repeat split; assumption || reflexivity|].
  destruct (X14_description_after_shot PHYSICS_CONFIG newBallState 0.5 1 0 0
              None eq_refl HR Hv Hside) as (_ & _ & _ & H).
  exact (H eq_refl Hbig).
Defined.

End DiagnosticsFacts.

(** * Properties of the game loop *)

(** ** main.js: [handleBallCollisions] on one pair *)

Lemma syncState_fields (entry : option BallState) (body : Body) :
  position (syncState entry body) = translation body
  /\ velocity (syncState entry body) = linvel body
  /\ angularVelocity (syncState entry body) = angvel body.
Proof.
  unfold syncState, set_position, set_velocity, set_angularVelocity.
  cbn [position velocity angularVelocity].
  destruct (translation body), (linvel body), (angvel body).
  repeat split; reflexivity.
Qed.

Lemma syncState_geometry (entryA entryB : option BallState)
    (bodyA bodyB : Body) :
  centreDistance (syncState entryA bodyA) (syncState entryB bodyB)
  = bodyDistance bodyA bodyB
  /\ closingVelocity (syncState entryA bodyA) (syncState entryB bodyB)
     = bodyClosingVelocity bodyA bodyB.
Proof.
  destruct (syncState_fields entryA bodyA) as (Pa & Va & _).
  destruct (syncState_fields entryB bodyB) as (Pb & Vb & _).
  unfold closingVelocity, normalX, normalZ, centreDistance,
    bodyClosingVelocity, bodyDistance.
  rewrite Pa, Pb, Va, Vb. split; reflexivity.
Qed.

Lemma collidePair_translations (cfg : Cfg.t) (bodyA bodyB : Body)
    (entryA entryB : option BallState) :
  0.0001 < bodyDistance bodyA bodyB ->
  bodyDistance bodyA bodyB < Cfg.radius (Cfg.ball cfg) * 2 ->
  let out := collidePair cfg bodyA bodyB entryA entryB in
  let d := bodyDistance bodyA bodyB in
  let overlap := (Cfg.radius (Cfg.ball cfg) * 2 - d) / 2 + 0.001 in
  let nx := (Vec3.x (translation bodyB) - Vec3.x (translation bodyA)) / d in
  let nz := (Vec3.z (translation bodyB) - Vec3.z (translation bodyA)) / d in
  translation (pairBodyA out)
  = Vec3.mk (Vec3.x (translation bodyA) - nx * overlap)
            (Vec3.y (translation bodyA))
            (Vec3.z (translation bodyA) - nz * overlap)
  /\ translation (pairBodyB out)
     = Vec3.mk (Vec3.x (translation bodyB) + nx * overlap)
               (Vec3.y (translation bodyB))
               (Vec3.z (translation bodyB) + nz * overlap).
Proof.
  intros Hlo Hhi out d overlap nx nz. subst out.
  unfold collidePair. fold (bodyDistance bodyA bodyB). fold d.
  apply ltb_true in Hhi. apply gtb_true in Hlo. fold d in Hhi, Hlo.
  rewrite Hhi, Hlo. cbn [andb].
  destruct (gtb _ 0.001); cbn [pairBodyA pairBodyB translation];
    split; reflexivity.
Qed.

(** The pair step when the balls overlap and approach: the bodies get the
    planar velocities and the spins of the collision result, and the
    entries of [ballStates] are the two returned states. *)
Lemma collidePair_exchange (cfg : Cfg.t) (bodyA bodyB : Body)
    (entryA entryB : option BallState) :
  0.0001 < bodyDistance bodyA bodyB ->
  bodyDistance bodyA bodyB < Cfg.radius (Cfg.ball cfg) * 2 ->
  0.001 < bodyClosingVelocity bodyA bodyB ->
  let out := collidePair cfg bodyA bodyB entryA entryB in
  let r := calculateBallCollision cfg (syncState entryA bodyA)
             (syncState entryB bodyB) in
  linvel (pairBodyA out)
  = Vec3.mk (Vec3.x (velocity (ballA r))) 0 (Vec3.z (velocity (ballA r)))
  /\ linvel (pairBodyB out)
     = Vec3.mk (Vec3.x (velocity (ballB r))) 0 (Vec3.z (velocity (ballB r)))
  /\ pairStateA out = Some (ballA r)
  /\ pairStateB out = Some (ballB r).
Proof.
  intros Hlo Hhi Hdvn out r. subst out r.
  unfold collidePair. fold (bodyDistance bodyA bodyB).
  fold (bodyClosingVelocity bodyA bodyB).
  apply ltb_true in Hhi. apply gtb_true in Hlo. apply gtb_true in Hdvn.
  rewrite Hhi, Hlo, Hdvn. cbn [andb].
  cbn [pairBodyA pairBodyB pairStateA pairStateB linvel].
  repeat split; reflexivity.
Qed.

Lemma bodyDistance_overlap : bodyDistance overlapBodyA overlapBodyB = 0.05.
Proof.
  unfold bodyDistance, overlapBodyA, overlapBodyB.
  cbn [translation Vec3.x Vec3.z].
  replace (0 - 0) with 0 by lra. replace (0.05 - 0) with 0.05 by lra.
  apply norm2_0_r. lra.
Qed.

Lemma bodyClosingVelocity_overlap :
  bodyClosingVelocity overlapBodyA overlapBodyB = 1.
Proof.
  unfold bodyClosingVelocity. rewrite bodyDistance_overlap.
  unfold overlapBodyA, overlapBodyB.
  cbn [translation linvel Vec3.x Vec3.z]. lra.
Qed.

(** X15.  One pair step of [handleBallCollisions] (the body of its double
    loop, run for one pair of bodies) on an overlapping pair
    (0.0001 < distance < 2R) leaves the two bodies of that pair, at the end
    of the step, exactly 2R + 0.002 apart in the table plane, whether the
    balls approach each other or not, and does not change the height of
    either body.  It says nothing about the distances after the whole
    double loop, in which a later step may move either body again. *)
Theorem X15_pair_is_separated (cfg : Cfg.t) (bodyA bodyB : Body)
    (entryA entryB : option BallState) :
  0.0001 < bodyDistance bodyA bodyB ->
  bodyDistance bodyA bodyB < Cfg.radius (Cfg.ball cfg) * 2 ->
  let out := collidePair cfg bodyA bodyB entryA entryB in
  bodyDistance (pairBodyA out) (pairBodyB out)
  = Cfg.radius (Cfg.ball cfg) * 2 + 0.002
  /\ Vec3.y (translation (pairBodyA out)) = Vec3.y (translation bodyA)
  /\ Vec3.y (translation (pairBodyB out)) = Vec3.y (translation bodyB).
Proof.
  intros Hlo Hhi out.
  destruct (collidePair_translations cfg bodyA bodyB entryA entryB Hlo Hhi)
    as [Ta Tb].
  fold out in Ta, Tb.
  unfold bodyDistance at 1. rewrite Ta, Tb. cbn [Vec3.x Vec3.y Vec3.z].
  split; [|split; reflexivity].
  set (d := bodyDistance bodyA bodyB) in *.
  set (dx := Vec3.x (translation bodyB) - Vec3.x (translation bodyA)).
  set (dz := Vec3.z (translation bodyB) - Vec3.z (translation bodyA)).
  set (k := Cfg.radius (Cfg.ball cfg) * 2 - d + 0.002).
  assert (Hd : d = norm2 dx dz) by reflexivity.
  assert (Hd0 : 0 < norm2 dx dz) by (rewrite <- Hd; lra).
  assert (Hk : 0 <= k) by (subst k; lra).
  pose proof (norm2_along dx dz k Hd0 Hk) as Hal.
  rewrite <- Hd in Hal.
  replace (Vec3.x (translation bodyB)
           + dx / d * ((Cfg.radius (Cfg.ball cfg) * 2 - d) / 2 + 0.001)
           - (Vec3.x (translation bodyA)
              - dx / d * ((Cfg.radius (Cfg.ball cfg) * 2 - d) / 2 + 0.001)))
    with (dx + dx / d * k) by (subst dx k; lra).
  replace (Vec3.z (translation bodyB)
           + dz / d * ((Cfg.radius (Cfg.ball cfg) * 2 - d) / 2 + 0.001)
           - (Vec3.z (translation bodyA)
              - dz / d * ((Cfg.radius (Cfg.ball cfg) * 2 - d) / 2 + 0.001)))
    with (dz + dz / d * k) by (subst dz k; lra).
  rewrite Hal. subst k. lra.
Qed.

Lemma X15_pair_is_separated_witness :
  let out := collidePair PHYSICS_CONFIG overlapBodyA overlapBodyB None None in
  bodyDistance (pairBodyA out) (pairBodyB out) = 0.0525 + 0.002.
Proof.
  intros out.
  assert (Hlo : 0.0001 < bodyDistance overlapBodyA overlapBodyB)
    by (rewrite bodyDistance_overlap; lra).
  assert (Hhi : bodyDistance overlapBodyA overlapBodyB
                < Cfg.radius (Cfg.ball PHYSICS_CONFIG) * 2)
    by (rewrite bodyDistance_overlap; cbn; lra).
  pose proof (proj1 (X15_pair_is_separated PHYSICS_CONFIG overlapBodyA
                       overlapBodyB None None Hlo Hhi)) as H.
  fold out in H. rewrite H. cbn. lra.
Defined.

(** X16.  When [handleBallCollisions] resolves an overlapping pair that
    approaches faster than 0.001 m/s, the sum of the two bodies' velocities
    along x and along z is the same after the step as before it, the
    vertical velocity of both bodies is set to 0, and the two entries of
    [ballStates] carry the same planar velocities as the bodies. *)
Theorem X16_pair_momentum (cfg : Cfg.t) (bodyA bodyB : Body)
    (entryA entryB : option BallState) :
  0.0001 < bodyDistance bodyA bodyB ->
  bodyDistance bodyA bodyB < Cfg.radius (Cfg.ball cfg) * 2 ->
  0.001 < bodyClosingVelocity bodyA bodyB ->
  let out := collidePair cfg bodyA bodyB entryA entryB in
  (Vec3.x (linvel (pairBodyA out)) + Vec3.x (linvel (pairBodyB out))
   = Vec3.x (linvel bodyA) + Vec3.x (linvel bodyB)
   /\ Vec3.z (linvel (pairBodyA out)) + Vec3.z (linvel (pairBodyB out))
      = Vec3.z (linvel bodyA) + Vec3.z (linvel bodyB))
  /\ (Vec3.y (linvel (pairBodyA out)) = 0
      /\ Vec3.y (linvel (pairBodyB out)) = 0)
  /\ (exists stateA stateB,
        pairStateA out = Some stateA /\ pairStateB out = Some stateB
        /\ Vec3.x (velocity stateA) = Vec3.x (linvel (pairBodyA out))
        /\ Vec3.z (velocity stateA) = Vec3.z (linvel (pairBodyA out))
        /\ Vec3.x (velocity stateB) = Vec3.x (linvel (pairBodyB out))
        /\ Vec3.z (velocity stateB) = Vec3.z (linvel (pairBodyB out))).
Proof.
  intros Hlo Hhi Hdvn out.
  destruct (collidePair_exchange cfg bodyA bodyB entryA entryB Hlo Hhi Hdvn)
    as (La & Lb & Sa & Sb).
  fold out in La, Lb, Sa, Sb.
  destruct (syncState_geometry entryA entryB bodyA bodyB) as [Gd Gv].
  destruct (syncState_fields entryA bodyA) as (_ & Va & _).
  destruct (syncState_fields entryB bodyB) as (_ & Vb & _).
  set (a := syncState entryA bodyA) in *.
  set (b := syncState entryB bodyB) in *.
  assert (Hex : exchanges cfg a b).
  { unfold exchanges, inRange. rewrite Gd, Gv. lra. }
  rewrite La, Lb, Sa, Sb. cbn [Vec3.x Vec3.y Vec3.z].
  split; [|split; [split; reflexivity|]].
  - rewrite collision_exchanges by exact Hex.
    destruct (corrected_velocity cfg a b) as [Ea Eb].
    destruct (impulseExchange_velocity cfg (fst (corrected cfg a b))
                (snd (corrected cfg a b)) (normalX a b) (normalZ a b)
                (closingVelocity a b) (tangentialVelocity a b))
      as (-> & -> & -> & ->).
    rewrite Ea, Eb, Va, Vb. split; lra.
  - eexists _, _. repeat split; reflexivity.
Qed.

Lemma X16_pair_momentum_witness :
  let out := collidePair PHYSICS_CONFIG overlapBodyA overlapBodyB None None in
  Vec3.z (linvel (pairBodyA out)) + Vec3.z (linvel (pairBodyB out)) = 1.
Proof.
  intros out.
  assert (Hlo : 0.0001 < bodyDistance overlapBodyA overlapBodyB)
    by (rewrite bodyDistance_overlap; lra).
  assert (Hhi : bodyDistance overlapBodyA overlapBodyB
                < Cfg.radius (Cfg.ball PHYSICS_CONFIG) * 2)
    by (rewrite bodyDistance_overlap; cbn; lra).
  assert (Hdvn : 0.001 < bodyClosingVelocity overlapBodyA overlapBodyB)
    by (rewrite bodyClosingVelocity_overlap; lra).
  pose proof (proj2 (proj1 (X16_pair_momentum PHYSICS_CONFIG overlapBodyA
                       overlapBodyB None None Hlo Hhi Hdvn))) as H.
  fold out in H. rewrite H. cbn. lra.
Defined.

(** ** main.js: one ball's pass through [applyRollingFriction] *)

Lemma norm2_ge_abs (a b : R) : Rabs a <= norm2 a b.
Proof.
  pose proof (norm2_nonneg a b) as Hn. pose proof (norm2_sqr a b) as Hs.
  unfold Rabs. destruct (Rcase_abs a); nra.
Qed.

(** The rectangle of the cushion tests is wide enough for the push of
    0.005 when the ball radius is at most 0.8. *)
Lemma rectangle_wide (cfg : Cfg.t) :
  Cfg.radius (Cfg.ball cfg) <= 0.8 ->
  minX cfg + 0.005 <= maxX cfg /\ minZ cfg + 0.005 <= maxZ cfg.
Proof.
  unfold minX, maxX, minZ, maxZ, cushionOffset, BALL_RADIUS, TABLE_CENTER_X,
    TABLE_CENTER_Z, TABLE_WIDTH, TABLE_LENGTH, CUSHION_RAIL_WIDTH.
  intros H. split; lra.
Qed.

Lemma leftRail_inside (cfg : Cfg.t) (sp : R) (s : BallState) (pos : Vec3.t)
    (b : bool) :
  minX cfg <= Vec3.x pos -> leftRail cfg sp (s, pos, b) = (s, pos, b).
Proof.
  intros H. unfold leftRail. apply ltb_false in H. now rewrite H.
Qed.

Lemma rightRail_inside (cfg : Cfg.t) (sp : R) (s : BallState) (pos : Vec3.t)
    (b : bool) :
  Vec3.x pos <= maxX cfg -> rightRail cfg sp (s, pos, b) = (s, pos, b).
Proof.
  intros H. unfold rightRail. apply gtb_false in H. now rewrite H.
Qed.

Lemma topRail_inside (cfg : Cfg.t) (sp : R) (s : BallState) (pos : Vec3.t)
    (b : bool) :
  minZ cfg <= Vec3.z pos -> topRail cfg sp (s, pos, b) = (s, pos, b).
Proof.
  intros H. unfold topRail. apply ltb_false in H. now rewrite H.
Qed.

Lemma bottomRail_inside (cfg : Cfg.t) (sp : R) (s : BallState) (pos : Vec3.t)
    (b : bool) :
  Vec3.z pos <= maxZ cfg -> bottomRail cfg sp (s, pos, b) = (s, pos, b).
Proof.
  intros H. unfold bottomRail. apply gtb_false in H. now rewrite H.
Qed.

Lemma leftRail_pos (cfg : Cfg.t) (sp : R) (v : RailVars) :
  let v' := leftRail cfg sp v in
  minX cfg <= Vec3.x (railPos v')
  /\ (Vec3.x (railPos v') = Vec3.x (railPos v)
      \/ Vec3.x (railPos v') <= minX cfg + 0.005)
  /\ Vec3.y (railPos v') = Vec3.y (railPos v)
  /\ Vec3.z (railPos v') = Vec3.z (railPos v).
Proof.
  destruct v as [[s pos] b]. unfold leftRail, railPos.
  destruct (ltb (Vec3.x pos) (minX cfg)) eqn:E;
    [destruct (ltb (Vec3.x (velocity s)) _)|];
    cbn [andb fst snd Vec3.x Vec3.y Vec3.z];
    try (apply ltb_false in E); repeat split; try reflexivity; try lra;
    right; lra.
Qed.

Lemma rightRail_pos (cfg : Cfg.t) (sp : R) (v : RailVars) :
  minX cfg + 0.005 <= maxX cfg ->
  minX cfg <= Vec3.x (railPos v) ->
  let v' := rightRail cfg sp v in
  minX cfg <= Vec3.x (railPos v') <= maxX cfg
  /\ Vec3.y (railPos v') = Vec3.y (railPos v)
  /\ Vec3.z (railPos v') = Vec3.z (railPos v).
Proof.
  destruct v as [[s pos] b]. unfold rightRail, railPos.
  cbn [fst snd]. intros Hw Hx.
  destruct (gtb (Vec3.x pos) (maxX cfg)) eqn:E;
    [destruct (gtb (Vec3.x (velocity s)) _)|];
    cbn [andb fst snd Vec3.x Vec3.y Vec3.z];
    try (apply gtb_false in E); repeat split; try reflexivity; lra.
Qed.

Lemma topRail_pos (cfg : Cfg.t) (sp : R) (v : RailVars) :
  let v' := topRail cfg sp v in
  minZ cfg <= Vec3.z (railPos v')
  /\ Vec3.x (railPos v') = Vec3.x (railPos v)
  /\ Vec3.y (railPos v') = Vec3.y (railPos v).
Proof.
  destruct v as [[s pos] b]. unfold topRail, railPos.
  destruct (ltb (Vec3.z pos) (minZ cfg)) eqn:E;
    [destruct (ltb (Vec3.z (velocity s)) _)|];
    cbn [andb fst snd Vec3.x Vec3.y Vec3.z];
    try (apply ltb_false in E); repeat split; try reflexivity; lra.
Qed.

Lemma bottomRail_pos (cfg : Cfg.t) (sp : R) (v : RailVars) :
  minZ cfg + 0.005 <= maxZ cfg ->
  minZ cfg <= Vec3.z (railPos v) ->
  let v' := bottomRail cfg sp v in
  minZ cfg <= Vec3.z (railPos v') <= maxZ cfg
  /\ Vec3.x (railPos v') = Vec3.x (railPos v)
  /\ Vec3.y (railPos v') = Vec3.y (railPos v).
Proof.
  destruct v as [[s pos] b]. unfold bottomRail, railPos.
  cbn [fst snd]. intros Hw Hz.
  destruct (gtb (Vec3.z pos) (maxZ cfg)) eqn:E;
    [destruct (gtb (Vec3.z (velocity s)) _)|];
    cbn [andb fst snd Vec3.x Vec3.y Vec3.z];
    try (apply gtb_false in E); repeat split; try reflexivity; lra.
Qed.

(** After the four tests the local [pos] lies in the rectangle. *)
Lemma rails_inside (cfg : Cfg.t) (sp : R) (v : RailVars) :
  Cfg.radius (Cfg.ball cfg) <= 0.8 ->
  let v' := bottomRail cfg sp (topRail cfg sp (rightRail cfg sp
              (leftRail cfg sp v))) in
  minX cfg <= Vec3.x (railPos v') <= maxX cfg
  /\ minZ cfg <= Vec3.z (railPos v') <= maxZ cfg.
Proof.
  intros HR v'. destruct (rectangle_wide cfg HR) as [Wx Wz].
  pose proof (leftRail_pos cfg sp v) as (L1 & _ & _ & _).
  pose proof (rightRail_pos cfg sp (leftRail cfg sp v) Wx L1) as (R1 & _ & _).
  pose proof (topRail_pos cfg sp (rightRail cfg sp (leftRail cfg sp v)))
    as (T1 & T2 & _).
  pose proof (bottomRail_pos cfg sp
                (topRail cfg sp (rightRail cfg sp (leftRail cfg sp v)))
                Wz T1) as (B1 & B2 & _).
  fold v' in B1, B2. rewrite B2, T2. split; assumption.
Qed.

(** A test that leaves [bounced] false has not touched the state. *)
Lemma leftRail_quiet (cfg : Cfg.t) (sp : R) (v : RailVars) :
  railBounced (leftRail cfg sp v) = false ->
  railState (leftRail cfg sp v) = railState v /\ railBounced v = false.
Proof.
  destruct v as [[s pos] b]. unfold leftRail, railState, railBounced.
  destruct (ltb (Vec3.x pos) (minX cfg));
    [destruct (ltb (Vec3.x (velocity s)) _)|];
    cbn [andb fst snd]; intros H; (discriminate || (split; [reflexivity|exact H])).
Qed.

Lemma rightRail_quiet (cfg : Cfg.t) (sp : R) (v : RailVars) :
  railBounced (rightRail cfg sp v) = false ->
  railState (rightRail cfg sp v) = railState v /\ railBounced v = false.
Proof.
  destruct v as [[s pos] b]. unfold rightRail, railState, railBounced.
  destruct (gtb (Vec3.x pos) (maxX cfg));
    [destruct (gtb (Vec3.x (velocity s)) _)|];
    cbn [andb fst snd]; intros H; (discriminate || (split; [reflexivity|exact H])).
Qed.

Lemma topRail_quiet (cfg : Cfg.t) (sp : R) (v : RailVars) :
  railBounced (topRail cfg sp v) = false ->
  railState (topRail cfg sp v) = railState v /\ railBounced v = false.
Proof.
  destruct v as [[s pos] b]. unfold topRail, railState, railBounced.
  destruct (ltb (Vec3.z pos) (minZ cfg));
    [destruct (ltb (Vec3.z (velocity s)) _)|];
    cbn [andb fst snd]; intros H; (discriminate || (split; [reflexivity|exact H])).
Qed.

Lemma bottomRail_quiet (cfg : Cfg.t) (sp : R) (v : RailVars) :
  railBounced (bottomRail cfg sp v) = false ->
  railState (bottomRail cfg sp v) = railState v /\ railBounced v = false.
Proof.
  destruct v as [[s pos] b]. unfold bottomRail, railState, railBounced.
  destruct (gtb (Vec3.z pos) (maxZ cfg));
    [destruct (gtb (Vec3.z (velocity s)) _)|];
    cbn [andb fst snd]; intros H; (discriminate || (split; [reflexivity|exact H])).
Qed.

Lemma rails_quiet (cfg : Cfg.t) (sp : R) (v : RailVars) :
  let v' := bottomRail cfg sp (topRail cfg sp (rightRail cfg sp
              (leftRail cfg sp v))) in
  railBounced v' = false -> railState v' = railState v.
Proof.
  intros v' H. subst v'.
  apply bottomRail_quiet in H. destruct H as [E4 H]. rewrite E4.
  apply topRail_quiet in H. destruct H as [E3 H]. rewrite E3.
  apply rightRail_quiet in H. destruct H as [E2 H]. rewrite E2.
  apply leftRail_quiet in H. destruct H as [E1 _]. exact E1.
Qed.

(** The two outcomes of the cushion block: nothing is written, or the body
    is placed at the local [pos] and body and state are synchronised. *)
Lemma cushionBlock_cases (cfg : Cfg.t) (nearPocket : bool) (body : Body)
    (state : BallState) (pos : Vec3.t) :
  Cfg.radius (Cfg.ball cfg) <= 0.8 ->
  cushionBlock cfg nearPocket body state pos = (body, state)
  \/ exists (state' : BallState) (px pz : R),
       (minX cfg <= px <= maxX cfg /\ minZ cfg <= pz <= maxZ cfg)
       /\ cushionBlock cfg nearPocket body state pos
          = (setVelocitiesFrom
               (mkBody (Vec3.mk px
                          (Rmax (TABLE_SURFACE_Y + BALL_RADIUS cfg) (Vec3.y pos))
                          pz)
                       (linvel body) (angvel body))
               state',
             set_position state'
               (Vec3.set_xz (position state') px pz)).
Proof.
  intros HR. unfold cushionBlock.
  destruct (speed state) as [sp|]; [|now left].
  destruct (negb nearPocket && gtb sp 0.01); [|now left].
  pose proof (rails_inside cfg sp (state, pos, false) HR) as Hin.
  pose proof (rails_quiet cfg sp (state, pos, false)) as Hq.
  cbv zeta in Hin, Hq.
  destruct (bottomRail cfg sp _) as [[s' p'] b'].
  unfold railPos in Hin. unfold railState, railBounced in Hq.
  cbn [fst snd] in Hin, Hq.
  destruct b'; [right|left; rewrite (Hq eq_refl); reflexivity].
  exists s', (Vec3.x p'), (Vec3.z p'). split; [exact Hin|reflexivity].
Qed.

(** X17.  Whenever the cushion block of [applyRollingFriction] moves a
    ball (it does so only after a rebound), the body is put inside the
    rectangle [minX, maxX] x [minZ, maxZ] of the cushion tests at a height
    of at least TABLE_SURFACE_Y + BALL_RADIUS, the state's planar position
    is the body's, the body's planar velocity and spin are the state's and
    its vertical velocity is 0; otherwise body and state are returned as
    they came. *)
Theorem X17_bounce_places_ball_inside (cfg : Cfg.t) (nearPocket : bool)
    (body : Body) (state : BallState) (pos : Vec3.t) :
  Cfg.radius (Cfg.ball cfg) <= 0.8 ->
  let out := cushionBlock cfg nearPocket body state pos in
  out = (body, state)
  \/ ((minX cfg <= Vec3.x (translation (fst out)) <= maxX cfg
       /\ minZ cfg <= Vec3.z (translation (fst out)) <= maxZ cfg
       /\ TABLE_SURFACE_Y + BALL_RADIUS cfg <= Vec3.y (translation (fst out)))
      /\ (Vec3.x (position (snd out)) = Vec3.x (translation (fst out))
          /\ Vec3.z (position (snd out)) = Vec3.z (translation (fst out)))
      /\ linvel (fst out)
         = Vec3.mk (Vec3.x (velocity (snd out))) 0 (Vec3.z (velocity (snd out)))
      /\ (Vec3.x (angvel (fst out)) = Vec3.x (angularVelocity (snd out))
          /\ Vec3.y (angvel (fst out)) = Vec3.y (angularVelocity (snd out))
          /\ Vec3.z (angvel (fst out)) = Vec3.z (angularVelocity (snd out)))).
Proof.
  intros HR out. subst out.
  destruct (cushionBlock_cases cfg nearPocket body state pos HR)
    as [E | (s' & px & pz & Hin & E)]; [now left|right].
  rewrite E. unfold setVelocitiesFrom, set_position.
  cbn [fst snd translation linvel angvel position velocity angularVelocity
       Vec3.x Vec3.y Vec3.z Vec3.set_xz].
  repeat split; try reflexivity; try (apply Hin); apply Rmax_l.
Qed.

Lemma X17_bounce_places_ball_inside_witness :
  let out := cushionBlock PHYSICS_CONFIG false (railBody intoLeftRail)
               intoLeftRail pastLeftRail in
  out = (railBody intoLeftRail, intoLeftRail)
  \/ minX PHYSICS_CONFIG <= Vec3.x (translation (fst out))
     <= maxX PHYSICS_CONFIG.
Proof.
  assert (HR : Cfg.radius (Cfg.ball PHYSICS_CONFIG) <= 0.8) by (cbn; lra).
  destruct (X17_bounce_places_ball_inside PHYSICS_CONFIG false
              (railBody intoLeftRail) intoLeftRail pastLeftRail HR)
    as [E | ((Hx & _) & _)]; [left; exact E|right; exact Hx].
Defined.

Lemma leftRail_glancing (cfg : Cfg.t) (sp : R) (s : BallState) (pos : Vec3.t)
    (b : bool) :
  Vec3.x pos < minX cfg ->
  - minNormalVelocity <= Vec3.x (velocity s) ->
  leftRail cfg sp (s, pos, b)
  = (s, Vec3.mk (minX cfg + 0.002) (Vec3.y pos) (Vec3.z pos), b).
Proof.
  intros Hx Hv. unfold leftRail.
  apply ltb_true in Hx. apply ltb_false in Hv. now rewrite Hx, Hv.
Qed.

Lemma leftRail_bounce (cfg : Cfg.t) (sp : R) (s : BallState) (pos : Vec3.t)
    (b : bool) :
  Vec3.x pos < minX cfg ->
  Vec3.x (velocity s) < - minNormalVelocity ->
  leftRail cfg sp (s, pos, b)
  = (calculateCushionRebound cfg s Rail.left sp,
     Vec3.mk (minX cfg + 0.005) (Vec3.y pos) (Vec3.z pos), true).
Proof.
  intros Hx Hv. unfold leftRail.
  apply ltb_true in Hx. apply ltb_true in Hv. now rewrite Hx, Hv.
Qed.

(** X18.  A ball that lies beyond the left rail and moves into it at no
    more than 0.05 m/s (a glancing contact), between the top and the bottom
    rail, gets no rebound, and the position [minX + 0.002] that the block
    assigns to its local [pos] is never written: body and state leave the
    cushion block exactly as they entered it. *)
Theorem X18_glancing_contact_is_not_corrected (cfg : Cfg.t)
    (nearPocket : bool) (body : Body) (state : BallState) (pos : Vec3.t) :
  Cfg.radius (Cfg.ball cfg) <= 0.8 ->
  Vec3.x pos < minX cfg ->
  - minNormalVelocity <= Vec3.x (velocity state) ->
  minZ cfg <= Vec3.z pos <= maxZ cfg ->
  cushionBlock cfg nearPocket body state pos = (body, state).
Proof.
  intros HR Hx Hv Hz. destruct (rectangle_wide cfg HR) as [Wx _].
  unfold cushionBlock.
  destruct (speed state) as [sp|]; [|reflexivity].
  destruct (negb nearPocket && gtb sp 0.01); [|reflexivity].
  rewrite leftRail_glancing by assumption.
  rewrite rightRail_inside by (cbn [Vec3.x]; lra).
  rewrite topRail_inside by (cbn [Vec3.z]; lra).
  rewrite bottomRail_inside by (cbn [Vec3.z]; lra).
  reflexivity.
Qed.

Lemma shipped_rectangle :
  minX PHYSICS_CONFIG = -0.71075 /\ maxX PHYSICS_CONFIG = 0.91075
  /\ minZ PHYSICS_CONFIG = -3.58625 /\ maxZ PHYSICS_CONFIG = -0.17375.
Proof.
  unfold minX, maxX, minZ, maxZ, cushionOffset, BALL_RADIUS, TABLE_CENTER_X,
    TABLE_CENTER_Z, TABLE_WIDTH, TABLE_LENGTH, CUSHION_RAIL_WIDTH.
  cbn [PHYSICS_CONFIG Cfg.ball Cfg.radius]. repeat split; lra.
Qed.

Lemma X18_glancing_contact_is_not_corrected_witness :
  cushionBlock PHYSICS_CONFIG false (railBody alongLeftRail) alongLeftRail
    pastLeftRail
  = (railBody alongLeftRail, alongLeftRail).
Proof.
  destruct shipped_rectangle as (E1 & E2 & E3 & E4).
  apply (X18_glancing_contact_is_not_corrected PHYSICS_CONFIG false
           (railBody alongLeftRail) alongLeftRail pastLeftRail).
  - cbn. lra.
  - rewrite E1. cbn. lra.
  - unfold minNormalVelocity. cbn. lra.
  - rewrite E3, E4. cbn. lra.
Defined.

(** X19.  A tracked ball that lies beyond the left rail, between the top
    and the bottom rail and away from the pockets, and moves into the rail
    faster than 0.05 m/s is rebounded once: the body is put at
    [minX + 0.005] with its z unchanged, it leaves with a velocity away
    from the rail of between 0.65 and 0.96 times the incoming normal
    speed, and the state is in the sliding phase with phaseTime 0. *)
Theorem X19_left_rail_rebound (cfg : Cfg.t) (body : Body)
    (state : BallState) (pos : Vec3.t) :
  proto state = BallStateProto ->
  Cfg.radius (Cfg.ball cfg) <= 0.8 ->
  Vec3.x pos < minX cfg ->
  Vec3.x (velocity state) < - minNormalVelocity ->
  minZ cfg <= Vec3.z pos <= maxZ cfg ->
  let out := cushionBlock cfg false body state pos in
  translation (fst out)
  = Vec3.mk (minX cfg + 0.005)
            (Rmax (TABLE_SURFACE_Y + BALL_RADIUS cfg) (Vec3.y pos))
            (Vec3.z pos)
  /\ (0.65 * - Vec3.x (velocity state) <= Vec3.x (linvel (fst out))
      <= 0.96 * - Vec3.x (velocity state))
  /\ Vec3.x (velocity (snd out)) = Vec3.x (linvel (fst out))
  /\ Vec3.x (position (snd out)) = minX cfg + 0.005
  /\ phase (snd out) = sliding
  /\ phaseTime (snd out) = 0.
Proof.
  intros Hp HR Hx Hv Hz out. subst out.
  destruct (rectangle_wide cfg HR) as [Wx _].
  unfold cushionBlock. rewrite (speed_instance state Hp).
  assert (Hsp : gtb (speed_of state) 0.01 = true).
  { apply gtb_true. unfold speed_of.
    pose proof (norm2_ge_abs (Vec3.x (velocity state))
                  (Vec3.z (velocity state))) as Hn.
    unfold minNormalVelocity in Hv.
    rewrite Rabs_left in Hn by lra. lra. }
  rewrite Hsp. cbn [negb andb].
  rewrite leftRail_bounce by assumption.
  rewrite rightRail_inside by (cbn [Vec3.x]; lra).
  rewrite topRail_inside by (cbn [Vec3.z]; lra).
  rewrite bottomRail_inside by (cbn [Vec3.z]; lra).
  destruct (cushion_normalComponent cfg state Rail.left (speed_of state))
    as (c & Hc & Hn); [discriminate|].
  unfold normalComponent in Hn. cbn [railNormal fst snd] in Hn.
  set (s' := calculateCushionRebound cfg state Rail.left (speed_of state)) in *.
  assert (Hvx : Vec3.x (velocity s') = - Vec3.x (velocity state) * c) by lra.
  unfold setVelocitiesFrom, set_position.
  cbn [fst snd translation linvel position velocity phase phaseTime
       Vec3.x Vec3.y Vec3.z Vec3.set_xz].
  rewrite Hvx. unfold minNormalVelocity in Hv.
  split; [reflexivity|]. split; [split; nra|].
  split; [reflexivity|]. split; [reflexivity|].
  subst s'. unfold calculateCushionRebound. cbn. split; reflexivity.
Qed.

Lemma X19_left_rail_rebound_witness :
  0 < Vec3.x (linvel (fst (cushionBlock PHYSICS_CONFIG false
                             (railBody intoLeftRail) intoLeftRail
                             pastLeftRail))).
Proof.
  destruct shipped_rectangle as (E1 & E2 & E3 & E4).
  assert (Hp : proto intoLeftRail = BallStateProto) by reflexivity.
  assert (HR : Cfg.radius (Cfg.ball PHYSICS_CONFIG) <= 0.8) by (cbn; lra).
  assert (Hx : Vec3.x pastLeftRail < minX PHYSICS_CONFIG)
    by (rewrite E1; cbn; lra).
  assert (Hv : Vec3.x (velocity intoLeftRail) < - minNormalVelocity)
    by (unfold minNormalVelocity; cbn; lra).
  assert (Hz : minZ PHYSICS_CONFIG <= Vec3.z pastLeftRail
               <= maxZ PHYSICS_CONFIG)
    by (rewrite E3, E4; cbn; lra).
  destruct (X19_left_rail_rebound PHYSICS_CONFIG (railBody intoLeftRail)
              intoLeftRail pastLeftRail Hp HR Hx Hv Hz)
    as (_ & [Hlo _] & _).
  cbn [intoLeftRail velocity Vec3.x] in Hlo. lra.
Defined.

(** X20.  A ball that has no entry in [ballStates] yet is brought to rest
    by its first pass through [applyRollingFriction], whatever velocity
    its body has: the new entry starts with zero velocity and spin, so the
    stop test holds, the body's linear and angular velocity are set to
    zero and the entry is a stationary state at the body's position. *)
Theorem X20_untracked_ball_is_stopped (cfg : Cfg.t)
    (pockets : option (list Pocket)) (deltaTime : option R) (body : Body) :
  0 < Cfg.velocity_stop (Cfg.thresholds cfg) ->
  0 < Cfg.angular_stop (Cfg.thresholds cfg) ->
  applyRollingFrictionBall cfg pockets deltaTime body None
  = (mkBody (translation body) (Vec3.mk 0 0 0) (Vec3.mk 0 0 0),
     mkBallState BallStateProto
       (Vec3.mk (Vec3.x (translation body)) (Vec3.y (translation body))
                (Vec3.z (translation body)))
       (Vec3.mk 0 0 0) (Vec3.mk 0 0 0) stationary 0).
Proof.
  intros Hv Hw. unfold applyRollingFrictionBall.
  unfold speed, angularSpeed, getter, newBallState, set_position,
    set_velocity, set_angularVelocity, set_phase.
  cbn [proto position velocity angularVelocity phase phaseTime ltbU].
  unfold speed_of, angularSpeed_of.
  cbn [velocity angularVelocity Vec3.x Vec3.y Vec3.z].
  rewrite norm2_zero.
  replace (0 * 0 + 0 * 0 + 0 * 0) with 0 by ring. rewrite sqrt_0.
  apply ltb_true in Hv. apply ltb_true in Hw. rewrite Hv, Hw.
  reflexivity.
Qed.

Lemma X20_untracked_ball_is_stopped_witness :
  linvel (fst (applyRollingFrictionBall PHYSICS_CONFIG None None
                 (railBody intoLeftRail) None))
  = Vec3.mk 0 0 0.
Proof.
  rewrite (X20_untracked_ball_is_stopped PHYSICS_CONFIG None None
             (railBody intoLeftRail)); [reflexivity| |]; cbn; lra.
Defined.

(** X21.  After one pass of [applyRollingFriction] over a ball inside the
    bounds test, the body and the entry of [ballStates] agree: the body's
    velocity is the state's planar velocity with vertical component 0 and
    the body's spin is the state's spin, whichever of the stop branch, the
    plain update and the cushion rebound ran. *)
Theorem X21_body_follows_state (cfg : Cfg.t) (pockets : option (list Pocket))
    (deltaTime : option R) (body : Body) (entry : option BallState) :
  Cfg.radius (Cfg.ball cfg) <= 0.8 ->
  inBounds (translation body) = true ->
  let out := applyRollingFrictionBall cfg pockets deltaTime body entry in
  linvel (fst out)
  = Vec3.mk (Vec3.x (velocity (snd out))) 0 (Vec3.z (velocity (snd out)))
  /\ Vec3.x (angvel (fst out)) = Vec3.x (angularVelocity (snd out))
  /\ Vec3.y (angvel (fst out)) = Vec3.y (angularVelocity (snd out))
  /\ Vec3.z (angvel (fst out)) = Vec3.z (angularVelocity (snd out)).
Proof.
  intros HR Hin out. subst out. unfold applyRollingFrictionBall.
  cbv zeta.
  match goal with |- context [if ?c then _ else _] => destruct c end.
  - cbn. repeat split; reflexivity.
  - rewrite Hin. cbn [negb].
    match goal with
    | |- context [cushionBlock cfg ?np ?b ?s ?p] =>
        destruct (cushionBlock_cases cfg np b s p HR)
          as [E | (s' & px & pz & _ & E)]; rewrite E
    end.
    + unfold setVelocitiesFrom. cbn [fst snd linvel angvel Vec3.x Vec3.y Vec3.z].
      repeat split; reflexivity.
    + unfold setVelocitiesFrom, set_position.
      cbn [fst snd linvel angvel velocity angularVelocity Vec3.x Vec3.y Vec3.z].
      repeat split; reflexivity.
Qed.

Lemma X21_body_follows_state_witness :
  Vec3.y (linvel (fst (applyRollingFrictionBall PHYSICS_CONFIG None None
                         (railBody intoLeftRail) (Some intoLeftRail))))
  = 0.
Proof.
  assert (HR : Cfg.radius (Cfg.ball PHYSICS_CONFIG) <= 0.8) by (cbn; lra).
  assert (Hin : inBounds (translation (railBody intoLeftRail)) = true).
  { unfold inBounds, TABLE_WIDTH, TABLE_LENGTH, TABLE_CENTER_X,
      TABLE_CENTER_Z, CUSHION_RAIL_WIDTH.
    cbn [railBody translation pastLeftRail Vec3.x Vec3.z].
    apply andb_true_intro. split; apply ltb_true.
    - rewrite Rabs_left by lra. lra.
    - replace (-1.88 - -1.88) with 0 by lra. rewrite Rabs_R0. lra. }
  destruct (X21_body_follows_state PHYSICS_CONFIG None None
              (railBody intoLeftRail) (Some intoLeftRail) HR Hin) as [H _].
  rewrite H. reflexivity.
Defined.

(** ** main.js: [shoot] and its roll prediction *)

Section RollPrediction.

Variable cfg : Cfg.t.

Let a_roll : R :=
  Cfg.table_friction_roll (Cfg.world cfg) * Cfg.gravity (Cfg.world cfg).
Let v_stop : R := Cfg.velocity_stop (Cfg.thresholds cfg).

Hypothesis gravity_pos : 0 < Cfg.gravity (Cfg.world cfg).
Hypothesis roll_pos : 0 < Cfg.table_friction_roll (Cfg.world cfg).
Hypothesis slide_above_roll :
  Cfg.table_friction_roll (Cfg.world cfg)
  <= Cfg.table_friction_slide (Cfg.world cfg).
Hypothesis stop_above_step : a_roll * (1 / 120) <= v_stop.

Lemma a_roll_pos : 0 < a_roll.
Proof. unfold a_roll. apply Rmult_lt_0_compat; assumption. Qed.

(** One iteration under the guard: the distance grows by [simSpeed * dt],
    the speed drops by at least the rolling deceleration of one step and
    stays non-negative, and [steps] is incremented. *)
Lemma rollBody_facts (s : RollSim) :
  v_stop < simSpeed s ->
  let s' := rollBody cfg s in
  simDistance s' = simDistance s + simSpeed s * (1 / 120)
  /\ 0 <= simSpeed s' <= simSpeed s - a_roll * (1 / 120)
  /\ simSteps s' = (simSteps s + 1)%Z.
Proof.
  intros Hv s'. subst s'. unfold rollBody.
  pose proof a_roll_pos as Ha. unfold a_roll in *.
  set (g := Cfg.gravity (Cfg.world cfg)) in *.
  set (mr := Cfg.table_friction_roll (Cfg.world cfg)) in *.
  set (ms := Cfg.table_friction_slide (Cfg.world cfg)) in *.
  assert (Hsl : mr * g <= ms * g) by (apply Rmult_le_compat_r; lra).
  destruct (gtb _ _); cbn [simDistance simSpeed simSteps];
    (split; [reflexivity|]); (split; [|reflexivity]).
  - split; [apply Rmax_l|]. apply Rmax_lub; lra.
  - split; [apply Rmax_l|]. apply Rmax_lub; lra.
Qed.

(** The potential that the loop does not increase. *)
Lemma rollBound_step (d v d' v' : R) :
  0 <= v' <= v - a_roll * (1 / 120) ->
  d' = d + v * (1 / 120) ->
  d' + rollBound cfg v' <= d + rollBound cfg v.
Proof.
  intros [H0 Hv] ->. unfold rollBound. fold a_roll.
  pose proof a_roll_pos as Ha.
  set (u := v - a_roll * (1 / 120)) in *.
  assert (Hsq : v' * v' <= u * u) by nra.
  assert (Hdiv : v' * v' / (2 * a_roll) <= u * u / (2 * a_roll)).
  { unfold Rdiv. apply Rmult_le_compat_r; [|exact Hsq].
    left. apply Rinv_0_lt_compat. lra. }
  assert (Hu : u * u / (2 * a_roll) + u * (1 / 120) / 2
               = v * v / (2 * a_roll) - v * (1 / 120) / 2).
  { subst u. field. lra. }
  lra.
Qed.

Lemma rollBound_nonneg (v : R) : 0 <= v -> 0 <= rollBound cfg v.
Proof.
  intros Hv. unfold rollBound. fold a_roll. pose proof a_roll_pos as Ha.
  assert (0 <= v * v / (2 * a_roll)).
  { apply div_nonneg; nra. }
  lra.
Qed.

Lemma rollGuard_speed (s : RollSim) :
  rollGuard cfg s = true -> v_stop < simSpeed s.
Proof.
  unfold rollGuard. intros H. apply andb_prop in H. destruct H as [H _].
  apply gtb_true in H. exact H.
Qed.

Lemma rollLoop_invariant (fuel : nat) (s : RollSim) :
  0 <= simSpeed s ->
  let s' := rollLoop cfg fuel s in
  0 <= simSpeed s'
  /\ simDistance s <= simDistance s'
  /\ simDistance s' + rollBound cfg (simSpeed s')
     <= simDistance s + rollBound cfg (simSpeed s)
  /\ (simSteps s <= simSteps s')%Z
  /\ simSpeed s' + IZR (simSteps s' - simSteps s) * (a_roll * (1 / 120))
     <= simSpeed s.
Proof.
  revert s. induction fuel as [|fuel IH]; intros s Hs; cbn [rollLoop].
  - cbv zeta. rewrite Z.sub_diag. cbn [IZR]. repeat split; try lra. lia.
  - destruct (rollGuard cfg s) eqn:G.
    + apply rollGuard_speed in G.
      destruct (rollBody_facts s G) as (Hd & Hv & Hst).
      destruct (IH (rollBody cfg s) (proj1 Hv)) as (I1 & I2 & I3 & I4 & I5).
      pose proof (rollBound_step (simDistance s) (simSpeed s)
                    (simDistance (rollBody cfg s))
                    (simSpeed (rollBody cfg s)) Hv Hd) as Hb.
      pose proof a_roll_pos as Ha.
      cbv zeta. split; [exact I1|]. split.
      * rewrite Hd in I2. unfold v_stop in *. nra.
      * split; [lra|]. split; [lia|].
        rewrite Hst in I5.
        replace (simSteps (rollLoop cfg fuel (rollBody cfg s)) - simSteps s)%Z
          with ((simSteps (rollLoop cfg fuel (rollBody cfg s))
                 - (simSteps s + 1)) + 1)%Z by lia.
        rewrite plus_IZR. cbn [IZR IPR]. lra.
    + cbv zeta. rewrite Z.sub_diag. cbn [IZR]. repeat split; try lra. lia.
Qed.

(** The loop with enough fuel leaves by its guard. *)
Lemma rollLoop_exit (fuel : nat) (s : RollSim) :
  (10000 <= simSteps s + Z.of_nat fuel)%Z ->
  rollGuard cfg (rollLoop cfg fuel s) = false.
Proof.
  revert s. induction fuel as [|fuel IH]; intros s H; cbn [rollLoop].
  - unfold rollGuard. replace (simSteps s <? 10000)%Z with false.
    + apply andb_false_r.
    + symmetry. apply Z.ltb_ge. lia.
  - destruct (rollGuard cfg s) eqn:G; [|exact G].
    apply IH. apply rollGuard_speed in G.
    destruct (rollBody_facts s G) as (_ & _ & Hst). rewrite Hst. lia.
Qed.

(** The counter never passes 10000. *)
Lemma rollLoop_steps_max (fuel : nat) (s : RollSim) :
  (simSteps (rollLoop cfg fuel s) <= Z.max (simSteps s) 10000)%Z.
Proof.
  revert s. induction fuel as [|fuel IH]; intros s; cbn [rollLoop]; [lia|].
  destruct (rollGuard cfg s) eqn:G; [|lia].
  specialize (IH (rollBody cfg s)).
  unfold rollGuard in G. apply andb_prop in G. destruct G as [_ G].
  apply Z.ltb_lt in G.
  assert (simSteps (rollBody cfg s) = (simSteps s + 1)%Z)
    by (unfold rollBody; destruct (gtb _ _); reflexivity).
  lia.
Qed.

(** The prediction, from a non-negative initial speed. *)
Lemma predictRoll_facts (v0 w0 : R) :
  0 <= v0 ->
  let sim := predictRoll cfg v0 w0 in
  rollGuard cfg sim = false
  /\ (0 <= simSteps sim <= 10000)%Z
  /\ 0 <= simSpeed sim
  /\ 0 <= simDistance sim <= rollBound cfg v0
  /\ simSpeed sim + IZR (simSteps sim) * (a_roll * (1 / 120)) <= v0.
Proof.
  intros Hv sim. subst sim. unfold predictRoll.
  set (s0 := mkRollSim v0 0 w0 sliding 0).
  pose proof (rollLoop_exit (Z.to_nat 10000) s0) as Hex.
  destruct (rollLoop_invariant (Z.to_nat 10000) s0 Hv)
    as (I1 & I2 & I3 & I4 & I5).
  cbv zeta in *. cbn [s0 simSpeed simDistance simSteps] in *.
  rewrite Z.sub_0_r in I5.
  pose proof (rollBound_nonneg _ I1) as Hb.
  split; [apply Hex; rewrite Z2Nat.id; lia|].
  split; [|repeat split; lra].
  pose proof (rollLoop_steps_max (Z.to_nat 10000) s0) as Hmax.
  cbn [s0 simSteps] in Hmax. lia.
Qed.

End RollPrediction.

Lemma shotSpeed_nonneg (cfg : Cfg.t) (shotPower maxPower : R) :
  0 < Cfg.mass (Cfg.ball cfg) -> 0 <= shotSpeed cfg shotPower maxPower.
Proof.
  intros Hm. unfold shotSpeed, BALL_MASS. apply div_nonneg; [|exact Hm].
  set (np := shotPower / maxPower). nra.
Qed.

Lemma shoot_state (cfg : Cfg.t) (shotPower maxPower aimAngle spinX spinY : R)
    (cueBallPosition : Vec3.t) (cueBallBody : Body) :
  let r := shoot cfg shotPower maxPower aimAngle spinX spinY cueBallPosition
             cueBallBody in
  let v0 := shotSpeed cfg shotPower maxPower in
  shotState r
  = set_velocity
      (applyShot cfg
         (set_position newBallState
            (Vec3.mk (Vec3.x cueBallPosition) (Vec3.y cueBallPosition)
                     (Vec3.z cueBallPosition)))
         (shotPower / maxPower) aimAngle spinX spinY (Some 8))
      (Vec3.mk (sin aimAngle * v0) 0 (cos aimAngle * v0))
  /\ shotCompletion r = ThrewReferenceError.
Proof. split; reflexivity. Qed.

(** X22.  [shoot] stores a cue-ball state whose velocity has the direction
    of the aim and the speed (shotPower / maxPower)^2 * 0.35 / BALL_MASS,
    with no vertical component, and whose spin is the one [applyShot]
    gives for the speed (shotPower / maxPower) * 8; the body gets the same
    velocity and spin and keeps its position.  The slip speed of the
    stored state is therefore |v0 - 8 p (2.5 spinY + c)| with v0 the shot
    speed, p = shotPower / maxPower and c = 0.4 for spinY = 0 and 0
    otherwise. *)
Theorem X22_shot_state (cfg : Cfg.t)
    (shotPower maxPower aimAngle spinX spinY : R)
    (cueBallPosition : Vec3.t) (cueBallBody : Body) :
  Cfg.radius (Cfg.ball cfg) <> 0 ->
  let r := shoot cfg shotPower maxPower aimAngle spinX spinY cueBallPosition
             cueBallBody in
  let p := shotPower / maxPower in
  let v0 := shotSpeed cfg shotPower maxPower in
  let gain := spinY * 2.5 + (if eqb spinY 0 then 0.4 else 0) in
  velocity (shotState r) = Vec3.mk (sin aimAngle * v0) 0 (cos aimAngle * v0)
  /\ linvel (shotBody r) = velocity (shotState r)
  /\ angvel (shotBody r) = angularVelocity (shotState r)
  /\ translation (shotBody r) = translation cueBallBody
  /\ speed_of (shotState r) = Rabs v0
  /\ slipSpeed_of cfg (shotState r) = Rabs (v0 - p * 8 * gain).
Proof.
  intros HR r p v0 gain. subst r.
  split; [reflexivity|]. split; [reflexivity|]. split; [reflexivity|].
  split; [reflexivity|]. split.
  - unfold speed_of, shoot. cbn [shotState velocity set_velocity Vec3.x Vec3.z].
    fold (shotSpeed cfg shotPower maxPower). fold v0.
    rewrite norm2_scale_abs, norm2_sin_cos. ring.
  - unfold slipSpeed_of, slipVelocity_of, surfaceVelocity_of, shoot, applyShot.
    cbn [shotState velocity angularVelocity set_velocity set_angularVelocity
         set_phase set_phaseTime set_position orDefault
         Vec3.x Vec3.z Vec3.set_xz Vec2.x Vec2.z].
    fold (shotSpeed cfg shotPower maxPower). fold v0. fold p.
    replace (sin aimAngle * v0
             - sin aimAngle
               * (spinY * (p * 8 / Cfg.radius (Cfg.ball cfg)) * 2.5
                  + (if eqb spinY 0
                     then p * 8 / Cfg.radius (Cfg.ball cfg) * 0.4 else 0))
               * Cfg.radius (Cfg.ball cfg))
      with (sin aimAngle * (v0 - p * 8 * gain))
      by (subst gain; destruct (eqb spinY 0); field; exact HR).
    replace (cos aimAngle * v0
             - - (- cos aimAngle
                  * (spinY * (p * 8 / Cfg.radius (Cfg.ball cfg)) * 2.5
                     + (if eqb spinY 0
                        then p * 8 / Cfg.radius (Cfg.ball cfg) * 0.4 else 0)))
               * Cfg.radius (Cfg.ball cfg))
      with (cos aimAngle * (v0 - p * 8 * gain))
      by (subst gain; destruct (eqb spinY 0); field; exact HR).
    rewrite norm2_scale_abs, norm2_sin_cos. ring.
Qed.

Lemma X22_shot_state_witness :
  speed_of (shotState (shoot PHYSICS_CONFIG 15 15 0 0 0 Vec3.zero
                         (mkBody Vec3.zero Vec3.zero Vec3.zero)))
  = Rabs (shotSpeed PHYSICS_CONFIG 15 15).
Proof.
  assert (HR : Cfg.radius (Cfg.ball PHYSICS_CONFIG) <> 0) by (cbn; lra).
  exact (proj1 (proj2 (proj2 (proj2 (proj2
           (X22_shot_state PHYSICS_CONFIG 15 15 0 0 0 Vec3.zero
              (mkBody Vec3.zero Vec3.zero Vec3.zero) HR)))))).
Defined.

Lemma shipped_roll_hypotheses :
  0 < Cfg.mass (Cfg.ball PHYSICS_CONFIG)
  /\ 0 < Cfg.gravity (Cfg.world PHYSICS_CONFIG)
  /\ 0 < Cfg.table_friction_roll (Cfg.world PHYSICS_CONFIG)
  /\ Cfg.table_friction_roll (Cfg.world PHYSICS_CONFIG)
     <= Cfg.table_friction_slide (Cfg.world PHYSICS_CONFIG)
  /\ Cfg.table_friction_roll (Cfg.world PHYSICS_CONFIG)
     * Cfg.gravity (Cfg.world PHYSICS_CONFIG) * (1 / 120)
     <= Cfg.velocity_stop (Cfg.thresholds PHYSICS_CONFIG).
Proof. cbn. repeat split; lra. Qed.

(** X23.  The roll-prediction loop inside [shoot], started from any
    initial speed v0 >= 0 and any spin rate, accumulates in [simDistance]
    a distance that is never negative and never more than
    v0^2 / (2 mu_roll g) + v0 dt / 2, the distance a ball that only rolls
    would need to stop plus half a step of the loop (dt = 1/120); this
    holds when sliding friction is not below rolling friction and one step
    of rolling deceleration does not exceed velocity_stop. *)
Theorem X23_predicted_distance_bounded (cfg : Cfg.t) (v0 w0 : R) :
  0 < Cfg.gravity (Cfg.world cfg) ->
  0 < Cfg.table_friction_roll (Cfg.world cfg) ->
  Cfg.table_friction_roll (Cfg.world cfg)
  <= Cfg.table_friction_slide (Cfg.world cfg) ->
  Cfg.table_friction_roll (Cfg.world cfg) * Cfg.gravity (Cfg.world cfg)
  * (1 / 120) <= Cfg.velocity_stop (Cfg.thresholds cfg) ->
  0 <= v0 ->
  0 <= simDistance (predictRoll cfg v0 w0) <= rollBound cfg v0.
Proof.
  intros Hg Hr Hs Hst Hv.
  destruct (predictRoll_facts cfg Hg Hr Hs Hst v0 w0 Hv)
    as (_ & _ & _ & Hd & _).
  exact Hd.
Qed.

Lemma X23_predicted_distance_bounded_witness :
  simDistance (predictRoll PHYSICS_CONFIG (shotSpeed PHYSICS_CONFIG 15 15) 0)
  <= rollBound PHYSICS_CONFIG (shotSpeed PHYSICS_CONFIG 15 15).
Proof.
  destruct shipped_roll_hypotheses as (Hm & Hg & Hr & Hs & Hst).
  exact (proj2 (X23_predicted_distance_bounded PHYSICS_CONFIG
                  (shotSpeed PHYSICS_CONFIG 15 15) 0 Hg Hr Hs Hst
                  (shotSpeed_nonneg PHYSICS_CONFIG 15 15 Hm))).
Defined.

(** X24.  The prediction loop of [shoot] always leaves by its own test
    within 10000 iterations, and for an initial speed of at most
    velocity_stop + 10000 mu_roll g dt (1.637 m/s as shipped) it leaves
    because the simulated ball has stopped: the final speed is at most
    velocity_stop, so the cap on the iterations does not cut the
    prediction short. *)
Theorem X24_prediction_reaches_rest (cfg : Cfg.t) (v0 w0 : R) :
  0 < Cfg.gravity (Cfg.world cfg) ->
  0 < Cfg.table_friction_roll (Cfg.world cfg) ->
  Cfg.table_friction_roll (Cfg.world cfg)
  <= Cfg.table_friction_slide (Cfg.world cfg) ->
  Cfg.table_friction_roll (Cfg.world cfg) * Cfg.gravity (Cfg.world cfg)
  * (1 / 120) <= Cfg.velocity_stop (Cfg.thresholds cfg) ->
  0 <= v0 ->
  let sim := predictRoll cfg v0 w0 in
  rollGuard cfg sim = false
  /\ (0 <= simSteps sim <= 10000)%Z
  /\ (v0 <= Cfg.velocity_stop (Cfg.thresholds cfg)
            + 10000 * (Cfg.table_friction_roll (Cfg.world cfg)
                       * Cfg.gravity (Cfg.world cfg) * (1 / 120)) ->
      0 <= simSpeed sim <= Cfg.velocity_stop (Cfg.thresholds cfg)).
Proof.
  intros Hg Hr Hs Hst Hv sim.
  destruct (predictRoll_facts cfg Hg Hr Hs Hst v0 w0 Hv)
    as (Hex & Hsteps & Hsp & _ & Hcount).
  fold sim in Hex, Hsteps, Hsp, Hcount.
  split; [exact Hex|]. split; [exact Hsteps|].
  intros Hv0. split; [exact Hsp|].
  unfold rollGuard in Hex. apply andb_false_iff in Hex.
  destruct Hex as [Hex | Hex].
  - apply gtb_false in Hex. exact Hex.
  - apply Z.ltb_ge in Hex. apply IZR_le in Hex.
    assert (Ha : 0 < Cfg.table_friction_roll (Cfg.world cfg)
                     * Cfg.gravity (Cfg.world cfg) * (1 / 120)).
    { apply Rmult_lt_0_compat; [apply Rmult_lt_0_compat; assumption|lra]. }
    set (k := IZR (simSteps sim)) in *. clearbody k.
    set (a := Cfg.table_friction_roll (Cfg.world cfg)
              * Cfg.gravity (Cfg.world cfg)) in *.
    nra.
Qed.

Lemma X24_prediction_reaches_rest_witness :
  simSpeed (predictRoll PHYSICS_CONFIG 1 0)
  <= Cfg.velocity_stop (Cfg.thresholds PHYSICS_CONFIG).
Proof.
  destruct shipped_roll_hypotheses as (_ & Hg & Hr & Hs & Hst).
  assert (Hv : 0 <= 1) by lra.
  destruct (X24_prediction_reaches_rest PHYSICS_CONFIG 1 0 Hg Hr Hs Hst Hv)
    as (_ & _ & H).
  apply H. cbn. lra.
Defined.

(** ** main.js: the aim line *)

Section CushionInPath.

Variable cfg : Cfg.t.
Variable startPos : Vec2.t.
Variables dirX dirZ maxDist : R.

(** The shape that the four blocks share. *)
Lemma path_update (c : option CushionHit) (m t : R) (guard extent : bool)
    (h : CushionHit) :
  pathInvariant cfg startPos dirX dirZ maxDist (c, m) ->
  (guard = true -> 0 < t -> extent = true ->
   onRail cfg startPos dirX dirZ h t) ->
  pathInvariant cfg startPos dirX dirZ maxDist
    (if guard then
       if gtb t 0 && ltb t m then
         if extent then (Some h, t) else (c, m)
       else (c, m)
     else (c, m)).
Proof.
  intros Hinv Hon. destruct guard; [|exact Hinv].
  destruct (gtb t 0 && ltb t m) eqn:Ht; [|exact Hinv].
  destruct extent; [|exact Hinv].
  apply andb_prop in Ht. destruct Ht as [Ht0 Ht1].
  apply gtb_true in Ht0. apply ltb_true in Ht1.
  destruct Hinv as [Hm _]. cbn [fst snd] in Hm.
  split; cbn [fst snd]; [lra|].
  intros h' Eh. injection Eh as <-. split; [lra|].
  apply Hon; [reflexivity|exact Ht0|reflexivity].
Qed.

Lemma crossLeft_invariant (c : option CushionHit) (m : R) :
  pathInvariant cfg startPos dirX dirZ maxDist (c, m) ->
  pathInvariant cfg startPos dirX dirZ maxDist
    (crossLeft cfg startPos dirX dirZ (c, m)).
Proof.
  intros Hinv. unfold crossLeft. cbv beta iota zeta.
  apply path_update; [exact Hinv|]. intros Hd Ht Hr.
  apply ltb_true in Hd. apply andb_prop in Hr. destruct Hr as [Hr0 Hr1].
  apply leb_true in Hr0. apply leb_true in Hr1.
  unfold onRail.
  cbn [hitPoint hitCushion hitNormal railNormal Vec2.x Vec2.z].
  repeat split; try assumption; try reflexivity. field. lra.
Qed.

Lemma crossRight_invariant (c : option CushionHit) (m : R) :
  pathInvariant cfg startPos dirX dirZ maxDist (c, m) ->
  pathInvariant cfg startPos dirX dirZ maxDist
    (crossRight cfg startPos dirX dirZ (c, m)).
Proof.
  intros Hinv. unfold crossRight. cbv beta iota zeta.
  apply path_update; [exact Hinv|]. intros Hd Ht Hr.
  apply gtb_true in Hd. apply andb_prop in Hr. destruct Hr as [Hr0 Hr1].
  apply leb_true in Hr0. apply leb_true in Hr1.
  unfold onRail.
  cbn [hitPoint hitCushion hitNormal railNormal Vec2.x Vec2.z].
  repeat split; try assumption; try reflexivity. field. lra.
Qed.

Lemma crossTop_invariant (c : option CushionHit) (m : R) :
  pathInvariant cfg startPos dirX dirZ maxDist (c, m) ->
  pathInvariant cfg startPos dirX dirZ maxDist
    (crossTop cfg startPos dirX dirZ (c, m)).
Proof.
  intros Hinv. unfold crossTop. cbv beta iota zeta.
  apply path_update; [exact Hinv|]. intros Hd Ht Hr.
  apply ltb_true in Hd. apply andb_prop in Hr. destruct Hr as [Hr0 Hr1].
  apply leb_true in Hr0. apply leb_true in Hr1.
  unfold onRail.
  cbn [hitPoint hitCushion hitNormal railNormal Vec2.x Vec2.z].
  repeat split; try assumption; try reflexivity. field. lra.
Qed.

Lemma crossBottom_invariant (c : option CushionHit) (m : R) :
  pathInvariant cfg startPos dirX dirZ maxDist (c, m) ->
  pathInvariant cfg startPos dirX dirZ maxDist
    (crossBottom cfg startPos dirX dirZ (c, m)).
Proof.
  intros Hinv. unfold crossBottom. cbv beta iota zeta.
  apply path_update; [exact Hinv|]. intros Hd Ht Hr.
  apply gtb_true in Hd. apply andb_prop in Hr. destruct Hr as [Hr0 Hr1].
  apply leb_true in Hr0. apply leb_true in Hr1.
  unfold onRail.
  cbn [hitPoint hitCushion hitNormal railNormal Vec2.x Vec2.z].
  repeat split; try assumption; try reflexivity. field. lra.
Qed.

Lemma findCushionInPath_invariant :
  pathInvariant cfg startPos dirX dirZ maxDist
    (crossBottom cfg startPos dirX dirZ
       (crossTop cfg startPos dirX dirZ
          (crossRight cfg startPos dirX dirZ
             (crossLeft cfg startPos dirX dirZ (None, maxDist))))).
Proof.
  assert (H0 : pathInvariant cfg startPos dirX dirZ maxDist (None, maxDist)).
  { split; cbn [fst snd]; [lra|discriminate]. }
  apply crossLeft_invariant in H0.
  destruct (crossLeft _ _ _ _ _) as [c1 m1].
  apply crossRight_invariant in H0.
  destruct (crossRight _ _ _ _ _) as [c2 m2].
  apply crossTop_invariant in H0.
  destruct (crossTop _ _ _ _ _) as [c3 m3].
  apply crossBottom_invariant in H0. exact H0.
Qed.

End CushionInPath.

Lemma shipped_path_bounds :
  pathMinX PHYSICS_CONFIG = -0.71075 /\ pathMaxX PHYSICS_CONFIG = 0.91075
  /\ pathMinZ PHYSICS_CONFIG = -3.58625 /\ pathMaxZ PHYSICS_CONFIG = -0.11725.
Proof.
  unfold pathMinX, pathMaxX, pathMinZ, pathMaxZ, BALL_RADIUS, TABLE_CENTER_X,
    TABLE_CENTER_Z, TABLE_WIDTH, TABLE_LENGTH, CUSHION_RAIL_WIDTH.
  cbn [PHYSICS_CONFIG Cfg.ball Cfg.radius]. repeat split; lra.
Qed.

(** The aim line from the centre of the shipped table along +x meets the
    right rail. *)
Lemma findCushionInPath_example :
  findCushionInPath PHYSICS_CONFIG tableCentre 1 0 5
  = Some (mkCushionHit (Vec2.mk (pathMaxX PHYSICS_CONFIG) (-1.88 + 0 * 0.81075))
            Rail.right (Vec2.mk (-1) 0)).
Proof.
  destruct shipped_path_bounds as (E1 & E2 & E3 & E4).
  unfold findCushionInPath, crossLeft, crossRight, crossTop, crossBottom.
  cbv beta iota zeta. cbn [tableCentre Vec2.x Vec2.z].
  replace (ltb 1 (-0.001)) with false by (symmetry; apply ltb_false; lra).
  replace (gtb 1 0.001) with true by (symmetry; apply gtb_true; lra).
  replace ((pathMaxX PHYSICS_CONFIG - 0.1) / 1) with 0.81075
    by (rewrite E2; lra).
  replace (gtb 0.81075 0) with true by (symmetry; apply gtb_true; lra).
  replace (ltb 0.81075 5) with true by (symmetry; apply ltb_true; lra).
  cbn [andb].
  replace (leb (pathMinZ PHYSICS_CONFIG) (-1.88 + 0 * 0.81075)) with true
    by (symmetry; apply leb_true; rewrite E3; lra).
  replace (leb (-1.88 + 0 * 0.81075) (pathMaxZ PHYSICS_CONFIG)) with true
    by (symmetry; apply leb_true; rewrite E4; lra).
  cbn [andb].
  replace (ltb 0 (-0.001)) with false by (symmetry; apply ltb_false; lra).
  replace (gtb 0 0.001) with false by (symmetry; apply gtb_false; lra).
  reflexivity.
Qed.

(** X25.  A hit that [findCushionInPath] returns is the point of the ray
    at a parameter t with 0 < t < maxDist, it lies on the line of the rail
    it names and within that rail's extent, and its normal is the inward
    normal that [calculateCushionRebound] uses for that rail.  The lines
    of the left, right and top rail are those of the cushion tests of
    [applyRollingFriction]; the line of the bottom rail lies
    2 (BALL_RADIUS + 0.002) beyond the tested one. *)
Theorem X25_cushion_hit_on_the_ray (cfg : Cfg.t) (startPos : Vec2.t)
    (dirX dirZ maxDist : R) (h : CushionHit) :
  findCushionInPath cfg startPos dirX dirZ maxDist = Some h ->
  (exists t : R, 0 < t < maxDist /\ onRail cfg startPos dirX dirZ h t)
  /\ pathMinX cfg = minX cfg
  /\ pathMaxX cfg = maxX cfg
  /\ pathMinZ cfg = minZ cfg
  /\ pathMaxZ cfg = maxZ cfg + 2 * cushionOffset cfg.
Proof.
  intros E. split.
  - pose proof (findCushionInPath_invariant cfg startPos dirX dirZ maxDist)
      as [_ Hh].
    unfold findCushionInPath in E. cbv beta iota zeta in E.
    destruct (crossBottom _ _ _ _ _) as [c m]. cbn [fst snd] in Hh.
    subst c. destruct (Hh h eq_refl) as [Hlt Hon].
    exists m. split; [|exact Hon]. split; [apply Hon|exact Hlt].
  - unfold pathMinX, pathMaxX, pathMinZ, pathMaxZ, minX, maxX, minZ, maxZ,
      cushionOffset. repeat split; lra.
Qed.

Lemma X25_cushion_hit_on_the_ray_witness :
  exists (h : CushionHit) (t : R),
    findCushionInPath PHYSICS_CONFIG tableCentre 1 0 5 = Some h
    /\ 0 < t < 5
    /\ onRail PHYSICS_CONFIG tableCentre 1 0 h t.
Proof.
  destruct (X25_cushion_hit_on_the_ray PHYSICS_CONFIG tableCentre 1 0 5 _
              findCushionInPath_example) as [(t & Ht & Hon) _].
  eexists _, t. split; [exact findCushionInPath_example|].
  split; [exact Ht|exact Hon].
Defined.

Section BallInPath.

Variable cfg : Cfg.t.
Variable cueBallPos : Vec2.t.
Variables dirX dirZ maxDistance : R.

Let step := ballInPathStep cfg cueBallPos dirX dirZ maxDistance.

(** The hit that the loop would record for [ball] on its own. *)
Let alone (ball : TableBall) : option BallHit := fst (step (None, None) ball).

Lemma step_cases (c : option BallHit) (m : option R) (ball : TableBall) :
  match alone ball with
  | None => step (c, m) ball = (c, m)
  | Some h =>
      hitBall h = ball
      /\ if belowMin (hitDistance h) m
         then step (c, m) ball = (Some h, Some (hitDistance h))
         else step (c, m) ball = (c, m)
  end.
Proof.
  unfold alone, step, ballInPathStep.
  destruct (isCueBall ball); [reflexivity|].
  destruct (isPocketed ball || isBeingRemoved ball); [reflexivity|].
  cbv beta iota zeta.
  destruct (leb _ 0 || gtb _ _); [reflexivity|].
  destruct (ltb _ _); [|reflexivity].
  destruct (gtb _ (BALL_RADIUS cfg * 0.1)); cbn [andb belowMin fst];
    [|reflexivity].
  cbn [hitBall hitDistance]. split; [reflexivity|].
  destruct (belowMin _ m); reflexivity.
Qed.

Lemma alone_contactDist (ball : TableBall) :
  contactDistOf cfg cueBallPos dirX dirZ maxDistance ball
  = option_map hitDistance (alone ball).
Proof. reflexivity. Qed.

(** The invariant of the loop: [minDist] is the distance of the hit that
    is held, the hit is the one of a ball of the list taken on its own,
    and no ball seen so far has a smaller contact distance. *)
Lemma fold_invariant (all seen rest : list TableBall)
    (c : option BallHit) (m : option R) :
  all = (seen ++ rest)%list ->
  m = option_map hitDistance c ->
  (forall h, c = Some h -> In (hitBall h) all /\ alone (hitBall h) = Some h) ->
  (forall b h', In b seen -> alone b = Some h' ->
     exists h, c = Some h /\ hitDistance h <= hitDistance h') ->
  let r := fold_left step rest (c, m) in
  (forall h, fst r = Some h -> In (hitBall h) all /\ alone (hitBall h) = Some h)
  /\ (forall b h', In b all -> alone b = Some h' ->
        exists h, fst r = Some h /\ hitDistance h <= hitDistance h').
Proof.
  revert seen c m. induction rest as [|ball rest IH];
    intros seen c m Hall Hm Hgood Hmin; cbn [fold_left].
  - rewrite app_nil_r in Hall. subst seen. cbn [fst]. split; assumption.
  - pose proof (step_cases c m ball) as Hs.
    assert (Hall' : all = ((seen ++ [ball]) ++ rest)%list)
      by (rewrite <- app_assoc; exact Hall).
    assert (Hin : In ball all).
    { rewrite Hall. apply in_or_app. right. left. reflexivity. }
    destruct (alone ball) as [hb|] eqn:Ea.
    + destruct Hs as [Hb Hs].
      destruct (belowMin (hitDistance hb) m) eqn:Eb; rewrite Hs.
      * apply (IH (seen ++ [ball])%list); [exact Hall'|reflexivity| |].
        -- intros h Eh. injection Eh as <-. rewrite Hb. split; assumption.
        -- intros b h' Hbin Eh'. exists hb. split; [reflexivity|].
           apply in_app_or in Hbin. destruct Hbin as [Hbin | [<- | []]].
           ++ destruct (Hmin b h' Hbin Eh') as (h & -> & Hle).
              cbn [option_map] in Hm. subst m. cbn [belowMin] in Eb.
              apply ltb_true in Eb. lra.
           ++ rewrite Ea in Eh'. injection Eh' as <-. lra.
      * apply (IH (seen ++ [ball])%list); [exact Hall'|exact Hm|exact Hgood|].
        intros b h' Hbin Eh'.
        apply in_app_or in Hbin. destruct Hbin as [Hbin | [<- | []]].
        -- exact (Hmin b h' Hbin Eh').
        -- rewrite Ea in Eh'. injection Eh' as <-.
           destruct c as [h|]; cbn [option_map] in Hm; subst m;
             cbn [belowMin] in Eb; [|discriminate].
           exists h. split; [reflexivity|]. apply ltb_false in Eb. exact Eb.
    + rewrite Hs.
      apply (IH (seen ++ [ball])%list); [exact Hall'|exact Hm|exact Hgood|].
      intros b h' Hbin Eh'.
      apply in_app_or in Hbin. destruct Hbin as [Hbin | [<- | []]].
      * exact (Hmin b h' Hbin Eh').
      * rewrite Ea in Eh'. discriminate.
Qed.

(** The geometry of the hit of one ball, for a unit direction. *)
Lemma alone_geometry (ball : TableBall) (h : BallHit) :
  dirX * dirX + dirZ * dirZ = 1 ->
  0 < BALL_RADIUS cfg ->
  alone ball = Some h ->
  (isCueBall ball = false /\ isPocketed ball = false
   /\ isBeingRemoved ball = false)
  /\ targetBallPos h
     = Vec2.mk (Vec3.x (ballPosition ball)) (Vec3.z (ballPosition ball))
  /\ contactPoint h
     = Vec2.mk (Vec2.x cueBallPos + dirX * hitDistance h)
               (Vec2.z cueBallPos + dirZ * hitDistance h)
  /\ BALL_RADIUS cfg * 0.1 < hitDistance h <= maxDistance + BALL_RADIUS cfg * 2
  /\ norm2 (Vec2.x (targetBallPos h) - Vec2.x (contactPoint h))
           (Vec2.z (targetBallPos h) - Vec2.z (contactPoint h))
     = BALL_RADIUS cfg * 2
  /\ Vec2.x (collisionNormal h) * Vec2.x (collisionNormal h)
     + Vec2.z (collisionNormal h) * Vec2.z (collisionNormal h) = 1.
Proof.
  intros Hdir HR. unfold alone, step, ballInPathStep.
  destruct (isCueBall ball); [discriminate|].
  destruct (isPocketed ball) eqn:Ep; [discriminate|].
  destruct (isBeingRemoved ball) eqn:Er; [discriminate|].
  cbv beta iota zeta. cbn [orb].
  set (dx := Vec3.x (ballPosition ball) - Vec2.x cueBallPos).
  set (dz := Vec3.z (ballPosition ball) - Vec2.z cueBallPos).
  set (p := dx * dirX + dz * dirZ).
  set (q := (dx - dirX * p) * (dx - dirX * p)
            + (dz - dirZ * p) * (dz - dirZ * p)).
  set (D := BALL_RADIUS cfg * 2).
  destruct (leb p 0 || gtb p (maxDistance + D)) eqn:Ep0; [discriminate|].
  destruct (ltb q (D * D)) eqn:Eq; [|discriminate].
  destruct (gtb (p - sqrt (D * D - q)) (BALL_RADIUS cfg * 0.1)) eqn:Ec;
    cbn [andb belowMin fst]; [|discriminate].
  intros E. injection E as <-.
  cbn [hitDistance contactPoint targetBallPos collisionNormal Vec2.x Vec2.z].
  apply orb_false_elim in Ep0. destruct Ep0 as [_ Ep1].
  apply gtb_false in Ep1. apply ltb_true in Eq. apply gtb_true in Ec.
  set (o := sqrt (D * D - q)) in *.
  assert (Ho : 0 <= o) by apply sqrt_pos.
  assert (Ho2 : o * o = D * D - q) by (apply sqrt_sqrt; lra).
  assert (HD : 0 < D) by (subst D; lra).
  assert (Hsq : (Vec3.x (ballPosition ball)
                 - (Vec2.x cueBallPos + dirX * (p - o)))
                * (Vec3.x (ballPosition ball)
                   - (Vec2.x cueBallPos + dirX * (p - o)))
                + (Vec3.z (ballPosition ball)
                   - (Vec2.z cueBallPos + dirZ * (p - o)))
                  * (Vec3.z (ballPosition ball)
                     - (Vec2.z cueBallPos + dirZ * (p - o)))
                = D * D).
  { replace (Vec3.x (ballPosition ball)
             - (Vec2.x cueBallPos + dirX * (p - o)))
      with ((dx - dirX * p) + dirX * o) by (subst dx; ring).
    replace (Vec3.z (ballPosition ball)
             - (Vec2.z cueBallPos + dirZ * (p - o)))
      with ((dz - dirZ * p) + dirZ * o) by (subst dz; ring).
    transitivity (q + o * o * (dirX * dirX + dirZ * dirZ)
                  + 2 * o * (p - p * (dirX * dirX + dirZ * dirZ))).
    - subst q p. ring.
    - rewrite Hdir, Ho2. ring. }
  split; [repeat split; reflexivity|]. split; [reflexivity|].
  split; [reflexivity|]. split; [split; lra|]. split.
  - unfold norm2. rewrite Hsq. apply sqrt_square. lra.
  - match goal with |- ?a / D * (?a / D) + ?b / D * (?b / D) = 1 =>
      replace (a / D * (a / D) + b / D * (b / D))
        with ((a * a + b * b) / (D * D)) by (field; lra)
    end.
    rewrite Hsq. field. lra.
Qed.

End BallInPath.

Lemma findBallInPathPrecise_invariant (cfg : Cfg.t) (balls : list TableBall)
    (cueBallPos : Vec2.t) (dirX dirZ : R) (maxDistance : option R) :
  let M := orDefault maxDistance 3.0 in
  let alone := fun ball =>
    fst (ballInPathStep cfg cueBallPos dirX dirZ M (None, None) ball) in
  let r := findBallInPathPrecise cfg balls cueBallPos dirX dirZ maxDistance in
  (forall h, r = Some h -> In (hitBall h) balls /\ alone (hitBall h) = Some h)
  /\ (forall b h', In b balls -> alone b = Some h' ->
        exists h, r = Some h /\ hitDistance h <= hitDistance h').
Proof.
  intros M alone r. subst r. unfold findBallInPathPrecise. fold M.
  apply (fold_invariant cfg cueBallPos dirX dirZ M balls [] balls None None).
  - reflexivity.
  - reflexivity.
  - discriminate.
  - intros b h' [].
Qed.

(** X26.  For a unit aim direction, the hit that [findBallInPathPrecise]
    returns is one of a ball of the list that is neither the cue ball nor
    pocketed nor being removed; the contact point is the point of the aim
    line at the returned distance, which is more than 0.1 R and at most
    maxDistance + 2R; there the cue ball's centre is exactly 2R from the
    target ball's centre, and the collision normal is a unit vector. *)
Theorem X26_contact_is_two_radii_away (cfg : Cfg.t) (balls : list TableBall)
    (cueBallPos : Vec2.t) (dirX dirZ : R) (maxDistance : option R)
    (h : BallHit) :
  dirX * dirX + dirZ * dirZ = 1 ->
  0 < BALL_RADIUS cfg ->
  findBallInPathPrecise cfg balls cueBallPos dirX dirZ maxDistance = Some h ->
  In (hitBall h) balls
  /\ (isCueBall (hitBall h) = false /\ isPocketed (hitBall h) = false
      /\ isBeingRemoved (hitBall h) = false)
  /\ targetBallPos h
     = Vec2.mk (Vec3.x (ballPosition (hitBall h)))
               (Vec3.z (ballPosition (hitBall h)))
  /\ contactPoint h
     = Vec2.mk (Vec2.x cueBallPos + dirX * hitDistance h)
               (Vec2.z cueBallPos + dirZ * hitDistance h)
  /\ BALL_RADIUS cfg * 0.1 < hitDistance h
     <= orDefault maxDistance 3.0 + BALL_RADIUS cfg * 2
  /\ norm2 (Vec2.x (targetBallPos h) - Vec2.x (contactPoint h))
           (Vec2.z (targetBallPos h) - Vec2.z (contactPoint h))
     = BALL_RADIUS cfg * 2
  /\ Vec2.x (collisionNormal h) * Vec2.x (collisionNormal h)
     + Vec2.z (collisionNormal h) * Vec2.z (collisionNormal h) = 1.
Proof.
  intros Hdir HR E.
  destruct (findBallInPathPrecise_invariant cfg balls cueBallPos dirX dirZ
              maxDistance) as [Hgood _].
  destruct (Hgood h E) as [Hin Hal].
  split; [exact Hin|].
  exact (alone_geometry cfg cueBallPos dirX dirZ (orDefault maxDistance 3.0)
           (hitBall h) h Hdir HR Hal).
Qed.

(** X27.  [findBallInPathPrecise] returns the nearest contact: every ball
    of the list for which the loop computes a contact distance (a ball in
    play, ahead on the line, within 2R of it and more than 0.1 R away) has
    a contact distance of at least the returned one; and when no hit is
    returned no ball of the list has a contact distance. *)
Theorem X27_nearest_ball_is_returned (cfg : Cfg.t) (balls : list TableBall)
    (cueBallPos : Vec2.t) (dirX dirZ : R) (maxDistance : option R)
    (b : TableBall) :
  In b balls ->
  match findBallInPathPrecise cfg balls cueBallPos dirX dirZ maxDistance with
  | Some h =>
      forall d : R,
        contactDistOf cfg cueBallPos dirX dirZ (orDefault maxDistance 3.0) b
        = Some d ->
        hitDistance h <= d
  | None =>
      contactDistOf cfg cueBallPos dirX dirZ (orDefault maxDistance 3.0) b
      = None
  end.
Proof.
  intros Hin.
  destruct (findBallInPathPrecise_invariant cfg balls cueBallPos dirX dirZ
              maxDistance) as [_ Hmin].
  cbv zeta in Hmin. unfold contactDistOf.
  destruct (fst (ballInPathStep cfg cueBallPos dirX dirZ
                   (orDefault maxDistance 3.0) (None, None) b))
    as [hb|] eqn:Eb.
  - destruct (Hmin b hb Hin Eb) as (h & -> & Hle).
    intros d Hd. cbn [option_map] in Hd. injection Hd as <-. exact Hle.
  - destruct (findBallInPathPrecise _ _ _ _ _ _); [|reflexivity].
    intros d Hd. discriminate.
Qed.

(** A ball 0.88 m ahead of the table centre along +z is hit at
    0.88 - 2R. *)
Lemma findBallInPathPrecise_example :
  exists h : BallHit,
    findBallInPathPrecise PHYSICS_CONFIG [ballAhead] tableCentre 0 1 None
    = Some h.
Proof.
  unfold findBallInPathPrecise, ballInPathStep.
  cbn [fold_left orDefault ballAhead isCueBall isPocketed isBeingRemoved orb
       ballPosition tableCentre Vec3.x Vec3.z Vec2.x Vec2.z].
  unfold BALL_RADIUS. cbn [PHYSICS_CONFIG Cfg.ball Cfg.radius].
  cbv beta iota zeta.
  set (p := (0.1 - 0.1) * 0 + (-1 - -1.88) * 1).
  assert (Hp : p = 0.88) by (subst p; lra).
  set (q := (0.1 - 0.1 - 0 * p) * (0.1 - 0.1 - 0 * p)
            + (-1 - -1.88 - 1 * p) * (-1 - -1.88 - 1 * p)).
  assert (Hq : q = 0) by (subst q; rewrite Hp; lra).
  replace (leb p 0) with false by (symmetry; apply leb_false; lra).
  replace (gtb p (3.0 + 0.02625 * 2)) with false
    by (symmetry; apply gtb_false; lra).
  cbn [orb].
  replace (ltb q (0.02625 * 2 * (0.02625 * 2))) with true
    by (symmetry; apply ltb_true; lra).
  assert (Ho : sqrt (0.02625 * 2 * (0.02625 * 2) - q) = 0.0525).
  { replace (0.02625 * 2 * (0.02625 * 2) - q) with (0.0525 * 0.0525) by lra.
    apply sqrt_square. lra. }
  rewrite Ho.
  replace (gtb (p - 0.0525) (0.02625 * 0.1)) with true
    by (symmetry; apply gtb_true; lra).
  cbn [andb belowMin fst]. eexists. reflexivity.
Qed.

Lemma X26_contact_is_two_radii_away_witness :
  exists h : BallHit,
    findBallInPathPrecise PHYSICS_CONFIG [ballAhead] tableCentre 0 1 None
    = Some h
    /\ norm2 (Vec2.x (targetBallPos h) - Vec2.x (contactPoint h))
             (Vec2.z (targetBallPos h) - Vec2.z (contactPoint h))
       = BALL_RADIUS PHYSICS_CONFIG * 2.
Proof.
  destruct findBallInPathPrecise_example as [h E].
  exists h. split; [exact E|].
  assert (Hdir : 0 * 0 + 1 * 1 = 1) by lra.
  assert (HR : 0 < BALL_RADIUS PHYSICS_CONFIG) by (cbn; lra).
  exact (proj1 (proj2 (proj2 (proj2 (proj2 (proj2
           (X26_contact_is_two_radii_away PHYSICS_CONFIG [ballAhead]
              tableCentre 0 1 None h Hdir HR E))))))).
Defined.

Lemma X27_nearest_ball_is_returned_witness :
  match findBallInPathPrecise PHYSICS_CONFIG [ballAhead] tableCentre 0 1 None
  with
  | Some h =>
      forall d : R,
        contactDistOf PHYSICS_CONFIG tableCentre 0 1 (orDefault None 3.0)
          ballAhead = Some d ->
        hitDistance h <= d
  | None =>
      contactDistOf PHYSICS_CONFIG tableCentre 0 1 (orDefault None 3.0)
        ballAhead = None
  end.
Proof.
  apply (X27_nearest_ball_is_returned PHYSICS_CONFIG [ballAhead] tableCentre
           0 1 None ballAhead).
  left. reflexivity.
Defined.

(** ** main.js: [checkPockets] and the cushion block *)

Lemma pocketLoop_near (cfg : Cfg.t) (pockets : list Pocket) (i : nat)
    (position : Vec3.t) (k : nat) :
  Forall (fun pocket => BALL_RADIUS cfg * 0.5 <= pocket_radius pocket * 1.5)
    pockets ->
  pocketLoop cfg pockets i position = Some k ->
  nearPocketOf (Some pockets) position = true
  /\ (i <= k < i + length pockets)%nat.
Proof.
  revert i. induction pockets as [|pocket rest IH]; intros i HF E;
    cbn [pocketLoop] in E; [discriminate|].
  inversion HF as [|? ? Hp HF']; subst.
  cbn [nearPocketOf existsb length].
  destruct (ltb _ (pocket_radius pocket + BALL_RADIUS cfg * 0.5)) eqn:Ed.
  - injection E as <-. split; [|lia].
    apply ltb_true in Ed.
    replace (ltb _ (pocket_radius pocket * 2.5)) with true;
      [reflexivity|].
    symmetry. apply ltb_true. lra.
  - destruct (IH (S i) HF' E) as [Hn Hk]. cbn [nearPocketOf] in Hn.
    rewrite Hn. split; [apply orb_true_r|lia].
Qed.

(** X28.  A ball that [checkPockets] pockets lies in the zone where
    [applyRollingFriction] switches the cushion tests off: when every
    pocket radius is at least a third of the ball radius, the position at
    which [checkPockets] finds pocket k (an index of the list) makes
    [nearPocket] true, so that the cushion block returns body and state
    unchanged there. *)
Theorem X28_pocketed_ball_is_not_rebounded (cfg : Cfg.t)
    (pockets : list Pocket) (ball : TableBall) (k : nat)
    (body : Body) (state : BallState) :
  Forall (fun pocket => BALL_RADIUS cfg * 0.5 <= pocket_radius pocket * 1.5)
    pockets ->
  checkPocketsBall cfg pockets ball = Some k ->
  (k < length pockets)%nat
  /\ isPocketed ball = false
  /\ isBeingRemoved ball = false
  /\ nearPocketOf (Some pockets) (ballPosition ball) = true
  /\ cushionBlock cfg (nearPocketOf (Some pockets) (ballPosition ball))
       body state (ballPosition ball)
     = (body, state).
Proof.
  intros HF E. unfold checkPocketsBall in E. cbv zeta in E.
  destruct (isPocketed ball); [discriminate|].
  destruct (isBeingRemoved ball); [discriminate|].
  destruct (gtb _ _); [discriminate|].
  destruct (ltb (Vec3.y _) _); [discriminate|].
  destruct (_ || _); [discriminate|].
  destruct (pocketLoop_near cfg pockets 0 (ballPosition ball) k HF E)
    as [Hn Hk].
  split; [lia|]. split; [reflexivity|]. split; [reflexivity|].
  split; [exact Hn|].
  rewrite Hn. unfold cushionBlock.
  destruct (speed state); reflexivity.
Qed.

Lemma tablePockets_wide :
  Forall (fun pocket =>
            BALL_RADIUS PHYSICS_CONFIG * 0.5 <= pocket_radius pocket * 1.5)
    tablePockets.
Proof.
  unfold tablePockets, BALL_RADIUS. cbv zeta.
  repeat (apply Forall_cons; [cbn; lra|]). apply Forall_nil.
Qed.

Lemma checkPockets_example :
  checkPocketsBall PHYSICS_CONFIG tablePockets cornerBall = Some 0%nat.
Proof.
  unfold checkPocketsBall, tablePockets, cornerBall, BALL_RADIUS,
    TABLE_SURFACE_Y, TABLE_CENTER_X, TABLE_CENTER_Z, TABLE_WIDTH,
    TABLE_LENGTH, CUSHION_RAIL_WIDTH.
  cbv zeta.
  cbn [isPocketed isBeingRemoved ballPosition Vec3.x Vec3.y Vec3.z
       PHYSICS_CONFIG Cfg.ball Cfg.radius pocketLoop pocket_x pocket_z
       pocket_radius].
  replace (gtb 0.88625 (0.86 + 0.02625 * 2)) with false
    by (symmetry; apply gtb_false; lra).
  replace (ltb 0.88625 (0.86 - 0.1)) with false
    by (symmetry; apply ltb_false; lra).
  match goal with |- context [ltb ?a ?b || _ || _ || _] =>
    replace (ltb a b) with false by (symmetry; apply ltb_false; lra)
  end.
  match goal with |- context [false || gtb ?a ?b] =>
    replace (gtb a b) with false by (symmetry; apply gtb_false; lra)
  end.
  match goal with |- context [false || false || ltb ?a ?b] =>
    replace (ltb a b) with false by (symmetry; apply ltb_false; lra)
  end.
  match goal with |- context [false || false || false || gtb ?a ?b] =>
    replace (gtb a b) with false by (symmetry; apply gtb_false; lra)
  end.
  cbn [orb].
  match goal with |- context [norm2 ?a ?b] =>
    replace a with 0 by lra; replace b with 0 by lra
  end.
  rewrite norm2_zero.
  replace (ltb 0 (0.0445 + BALL_RADIUS PHYSICS_CONFIG * 0.5)) with true
    by (symmetry; apply ltb_true; unfold BALL_RADIUS; cbn; lra).
  reflexivity.
Qed.

Lemma X28_pocketed_ball_is_not_rebounded_witness :
  nearPocketOf (Some tablePockets) (ballPosition cornerBall) = true.
Proof.
  exact (proj1 (proj2 (proj2 (proj2
           (X28_pocketed_ball_is_not_rebounded PHYSICS_CONFIG tablePockets
              cornerBall 0 (mkBody Vec3.zero Vec3.zero Vec3.zero)
              newBallState tablePockets_wide checkPockets_example))))).
Defined.
